(** * Shape-related oxml objects of python-pptx (pptx/oxml/shapes/shared.py)

    A shallow embedding of the custom element classes of [shared.py] over an
    explicit object store.  lxml elements are mutable objects with identity:
    an element is a location of the store, a parent holds the locations of
    its children, and every method is a computation of the state-and-exception
    monad [M]. *)

From Stdlib Require Import ZArith DecimalString DecimalZ DecimalPos.
From Stdlib Require Import Floats.PrimFloat Floats.FloatOps Floats.SpecFloat.
From Stdlib Require Import Numbers.Cyclic.Int63.Uint63.
From stdpp Require Import base strings list sorting gmap.

Local Open Scope string_scope.
Local Open Scope list_scope.
Local Open Scope nat_scope.

(** ** Python values and exceptions *)

(** The values attribute accessors trade in.  Python's [None] is the [None]
    of [option value]. *)
Inductive value :=
  | VInt (z : Z)
  | VFloat (f : float)
  | VBool (b : bool)
  | VStr (s : string)
  | VEnum (cls member : string).

(** [bool(v)], Python truthiness. *)
Definition py_bool (v : option value) : bool :=
  match v with
  | None => false
  | Some (VInt z) => negb (Z.eqb z 0)
  | Some (VFloat f) => negb (PrimFloat.eqb f PrimFloat.zero)
  | Some (VBool b) => b
  | Some (VStr s) => negb (String.eqb s "")
  | Some (VEnum _ _) => true
  end.

Inductive exn :=
  | ValueError (msg : string)
  | InvalidXmlError (msg : string)
  | TypeError (msg : string)
  | AttributeError (name : string)
  | ReferenceError.

Inductive result (A : Type) :=
  | Ok (a : A)
  | Raise (e : exn).
Arguments Ok {A} a.
Arguments Raise {A} e.

(** ** The element store *)

Abbreviation loc := nat.

(** An lxml element: its tag, its attribute dictionary, and its children in
    document order. *)
Record node := Node {
  tag : string;
  attrib : gmap string string;
  children : list loc
}.

Abbreviation store := (list node).

Definition with_attrib (nd : node) (a : gmap string string) : node :=
  Node (tag nd) a (children nd).

Definition with_children (nd : node) (cs : list loc) : node :=
  Node (tag nd) (attrib nd) cs.

(** No dangling reference: every child of every element is allocated. *)
Definition closed (σ : store) : Prop :=
  Forall (λ nd : node, Forall (λ c : loc, (c < length σ)%nat) (children nd)) σ.

Definition closedb (σ : store) : bool :=
  forallb (λ nd : node, forallb (λ c : loc, (c <? length σ)%nat) (children nd)) σ.

(** ** The state-and-exception monad *)

Definition M (A : Type) : Type := store → result (A * store).

Global Instance M_ret : MRet M := λ A a σ, Ok (a, σ).

Global Instance M_bind : MBind M := λ A B f m σ,
  match m σ with
  | Ok (a, σ') => f a σ'
  | Raise e => Raise e
  end.

Definition raise {A} (e : exn) : M A := λ _, Raise e.

(** Dereference an element.  Python references never dangle; the
    [ReferenceError] branch is unreachable from a [closed] store. *)
Definition get_node (l : loc) : M node := λ σ,
  match σ !! l with
  | Some nd => Ok (nd, σ)
  | None => Raise ReferenceError
  end.

Definition put_node (l : loc) (nd : node) : M unit := λ σ,
  match σ !! l with
  | Some _ => Ok (tt, <[l := nd]> σ)
  | None => Raise ReferenceError
  end.

(** ** lxml primitives *)

(** [OxmlElement(tag)]: a new, parentless element without attributes. *)
Definition OxmlElement (t : string) : M loc := λ σ,
  Ok (length σ, σ ++ [Node t ∅ []]).

(** [elm.get(name)] *)
Definition get (l : loc) (name : string) : M (option string) :=
  nd ← get_node l; mret (attrib nd !! name).

(** [elm.set(name, s)] *)
Definition set (l : loc) (name s : string) : M unit :=
  nd ← get_node l; put_node l (with_attrib nd (<[name := s]> (attrib nd))).

(** [del elm.attrib[name]], when present *)
Definition del_attr (l : loc) (name : string) : M unit :=
  nd ← get_node l; put_node l (with_attrib nd (delete name (attrib nd))).

Definition tag_of (σ : store) (c : loc) : option string := tag <$> σ !! c.

(** Whether element [c] carries one of the tags [ts]. *)
Definition has_tag (σ : store) (ts : list string) (c : loc) : bool :=
  match tag_of σ c with
  | Some t => bool_decide (t ∈ ts)
  | None => false
  end.

Fixpoint find_first (f : loc → bool) (cs : list loc) : option loc :=
  match cs with
  | [] => None
  | c :: cs' => if f c then Some c else find_first f cs'
  end.

(** First child, in document order, whose tag is one of [ts]. *)
Definition first_child_found_in (p : loc) (ts : list string) : M (option loc) :=
  λ σ, (nd ← get_node p; mret (find_first (has_tag σ ts) (children nd))) σ.

(** [elm.find(qn(tag))] *)
Definition find (p : loc) (t : string) : M (option loc) :=
  first_child_found_in p [t].

(** The tags of the children of [p], in document order. *)
Definition child_tags (σ : store) (p : loc) : list string :=
  match σ !! p with
  | Some nd => omap (tag_of σ) (children nd)
  | None => []
  end.

Definition children_of (σ : store) (p : loc) : list loc :=
  match σ !! p with
  | Some nd => children nd
  | None => []
  end.

(** ** Attribute codecs and attribute accessors *)

(** Modelled from the spec: the simple types of [pptx.oxml.simpletypes], by
    their contract only (section 1 and section 4.1): [encode] gives the
    attribute string of a value, [decode] gives the value of an attribute
    string or fails on malformed input, and a type may have a "natural
    absence" representation, the string whose presence means the same as
    omitting the attribute. *)
Record Codec := {
  decode : string → option value;
  encode : value → string;
  natural_absence : option string
}.

(** Modelled from the spec: the attribute descriptors [RequiredAttribute] and
    [OptionalAttribute] of [pptx.oxml.xmlchemy] (section 4.1). *)
Inductive AttrSlot :=
  | RequiredAttribute (name : string) (c : Codec)
  | OptionalAttribute (name : string) (c : Codec) (default : option value).

Definition from_xml (c : Codec) (s : string) : M value :=
  match decode c s with
  | Some v => mret v
  | None => raise (TypeError s)
  end.

(** Modelled from the spec: [get()] of section 4.1.  An absent required
    attribute is a schema violation ([InvalidXmlError]); an absent optional
    one reads as the declared default. *)
Definition attr_get (a : AttrSlot) (l : loc) : M (option value) :=
  match a with
  | RequiredAttribute name c =>
      s ← get l name;
      match s with
      | None => raise (InvalidXmlError name)
      | Some s => v ← from_xml c s; mret (Some v)
      end
  | OptionalAttribute name c default =>
      s ← get l name;
      match s with
      | None => mret default
      | Some s => v ← from_xml c s; mret (Some v)
      end
  end.

(** Modelled from the spec: [set(value)] of section 4.1.  The attribute is
    removed instead of written when the encoded string is the type's natural
    absence representation and the slot's default encodes to that same
    string; otherwise the string is written. *)
Definition attr_set (a : AttrSlot) (l : loc) (v : value) : M unit :=
  match a with
  | RequiredAttribute name c => set l name (encode c v)
  | OptionalAttribute name c default =>
      let s := encode c v in
      if bool_decide (natural_absence c = Some s ∧ encode c <$> default = Some s)
      then del_attr l name
      else set l name s
  end.

(** ** Child presence descriptors *)

(** Modelled from the spec: the child slot of section 3, a tag (or a set of
    mutually exclusive candidate tags) with the tags that must follow it. *)
Record ChildSlot := {
  candidates : list string;
  successors : list string
}.

(** Modelled from the spec: [ZeroOrOne], [ZeroOrOneChoice] and [Choice] of
    [pptx.oxml.xmlchemy], as the declarations of [shared.py] call them. *)
Definition ZeroOrOne (t : string) (succ : list string) : ChildSlot :=
  {| candidates := [t]; successors := succ |}.

Definition Choice (t : string) : string := t.

Definition ZeroOrOneChoice (choices : list string) (succ : list string) : ChildSlot :=
  {| candidates := choices; successors := succ |}.

Fixpoint insert_before (f : loc → bool) (n : loc) (cs : list loc) : list loc :=
  match cs with
  | [] => [n]
  | c :: cs' => if f c then n :: c :: cs' else c :: insert_before f n cs'
  end.

(** Modelled from the spec: the ordering algorithm of section 4.2.  The
    children are scanned in document order and [n] is placed immediately
    before the first one whose tag is in [succ], at the end if there is
    none. *)
Definition insert_element_before (p n : loc) (succ : list string) : M unit :=
  λ σ, (nd ← get_node p;
        put_node p (with_children nd
                      (insert_before (has_tag σ succ) n (children nd)))) σ.

(** Modelled from the spec: [get()] of section 4.2, the occupant or [None]. *)
Definition slot_get (s : ChildSlot) (p : loc) : M (option loc) :=
  first_child_found_in p (candidates s).

(** Modelled from the spec: [get_or_add()] of section 4.2.  [new] is the
    constructor of the requested tag (the class's [_new_<name>] method, or
    [OxmlElement] of the tag): the slot's own tag for a single-tag slot, any
    of the candidates for a choice slot.  An occupant of the slot, whichever
    candidate it is, is returned as it is; only an empty slot is filled. *)
Definition slot_get_or_add (s : ChildSlot) (new : M loc) (p : loc) : M loc :=
  occ ← slot_get s p;
  match occ with
  | Some c => mret c
  | None =>
      n ← new;
      insert_element_before p n (successors s);;
      mret n
  end.

(** Modelled from the spec: [remove()] of section 4.2, Present to Absent and
    idempotent on Absent: every child occupying the slot is detached. *)
Definition slot_remove (s : ChildSlot) (p : loc) : M unit :=
  λ σ, (nd ← get_node p;
        put_node p (with_children nd
                      (List.filter (λ c, negb (has_tag σ (candidates s) c))
                                   (children nd)))) σ.

(** Modelled from the spec: a structurally mandatory child (section 7,
    SchemaViolation), as concrete shape classes declare [spPr]. *)
Definition OneAndOnlyOne (t : string) (p : loc) : M loc :=
  c ← find p t;
  match c with
  | Some c => mret c
  | None => raise (InvalidXmlError t)
  end.

(** One location step of an XPath expression: the children of the context
    elements, all of them ([None], the test [*]) or those with tag [t]. *)
Definition xpath_step (σ : store) (t : option string) (ctx : list loc) : list loc :=
  flat_map (λ l, List.filter (λ c, match t with
                                   | None => true
                                   | Some t => has_tag σ [t] c
                                   end) (children_of σ l)) ctx.

(** The attribute step [@name] of an XPath expression: the values of the
    attribute [name] of the context elements that have it. *)
Definition xpath_attr (σ : store) (name : string) (ctx : list loc) : list string :=
  omap (λ l, nd ← σ !! l; attrib nd !! name) ctx.

(** A pure computation that may raise, as a computation of [M]. *)
Definition of_result {A} (r : result A) : M A := λ σ,
  match r with
  | Ok a => Ok (a, σ)
  | Raise e => Raise e
  end.

(** ** Collaborators outside [shared.py] *)

(** The simple types imported from [pptx.oxml.simpletypes] and
    [pptx.enum.shapes], the factory [CT_GradientFillProperties.new_gradFill]
    and the [val] attribute of the [a:prstDash] element class. *)
Class Collaborators := {
  ST_Angle : Codec;
  ST_Coordinate : Codec;
  ST_Direction : Codec;
  ST_LineWidth : Codec;
  ST_PlaceholderSize : Codec;
  ST_PositiveCoordinate : Codec;
  XsdBoolean : Codec;
  XsdUnsignedInt : Codec;
  PP_PLACEHOLDER : Codec;
  new_gradFill : M loc;
  prstDash_val_attr : AttrSlot
}.

(** [pptx.util.Emu], applied to an attribute string: the length it
    denotes, or the exception the conversion raises. *)
Class Util := {
  Emu : string → result value
}.

(** ** The element classes of [shared.py] *)

(** [`p:nvPr`] *)
Module CT_ApplicationNonVisualDrawingProps.
Definition ph_slot : ChildSlot :=
  ZeroOrOne "p:ph"
    ["a:audioCd"; "a:wavAudioFile"; "a:audioFile"; "a:videoFile";
     "a:quickTimeFile"; "p:custDataLst"; "p:extLst"].

Definition ph : loc → M (option loc) := slot_get ph_slot.
Definition get_or_add_ph : loc → M loc :=
  slot_get_or_add ph_slot (OxmlElement "p:ph").
End CT_ApplicationNonVisualDrawingProps.

(** [`p:cNvPr`] *)
Module CT_NonVisualDrawingProps.
Definition _tag_seq : list string := ["a:hlinkClick"; "a:hlinkHover"; "a:extLst"].
Definition hlinkClick_slot : ChildSlot := ZeroOrOne "a:hlinkClick" (drop 1 _tag_seq).
Definition hlinkHover_slot : ChildSlot := ZeroOrOne "a:hlinkHover" (drop 2 _tag_seq).

Definition hlinkClick : loc → M (option loc) := slot_get hlinkClick_slot.
Definition hlinkHover : loc → M (option loc) := slot_get hlinkHover_slot.
Definition get_or_add_hlinkClick : loc → M loc :=
  slot_get_or_add hlinkClick_slot (OxmlElement "a:hlinkClick").
Definition get_or_add_hlinkHover : loc → M loc :=
  slot_get_or_add hlinkHover_slot (OxmlElement "a:hlinkHover").
End CT_NonVisualDrawingProps.

(** [`p:ph`] *)
Module CT_Placeholder.
Section with_collaborators.
Context `{Collaborators}.

Definition type : AttrSlot :=
  OptionalAttribute "type" PP_PLACEHOLDER (Some (VEnum "PP_PLACEHOLDER" "OBJECT")).
Definition orient : AttrSlot :=
  OptionalAttribute "orient" ST_Direction (Some (VEnum "ST_Direction" "HORZ")).
Definition sz : AttrSlot :=
  OptionalAttribute "sz" ST_PlaceholderSize (Some (VEnum "ST_PlaceholderSize" "FULL")).
Definition idx : AttrSlot :=
  OptionalAttribute "idx" XsdUnsignedInt (Some (VInt 0)).
End with_collaborators.
End CT_Placeholder.

(** [<a:off>] *)
Module CT_Point2D.
Section with_collaborators.
Context `{Collaborators}.

Definition x : AttrSlot := RequiredAttribute "x" ST_Coordinate.
Definition y : AttrSlot := RequiredAttribute "y" ST_Coordinate.
End with_collaborators.
End CT_Point2D.

(** [<a:ext>] *)
Module CT_PositiveSize2D.
Section with_collaborators.
Context `{Collaborators}.

Definition cx : AttrSlot := RequiredAttribute "cx" ST_PositiveCoordinate.
Definition cy : AttrSlot := RequiredAttribute "cy" ST_PositiveCoordinate.
End with_collaborators.
End CT_PositiveSize2D.

(** [`a:xfrm`] *)
Module CT_Transform2D.
Definition _tag_seq : list string := ["a:off"; "a:ext"; "a:chOff"; "a:chExt"].
Definition off_slot : ChildSlot := ZeroOrOne "a:off" (drop 1 _tag_seq).
Definition ext_slot : ChildSlot := ZeroOrOne "a:ext" (drop 2 _tag_seq).
Definition chOff_slot : ChildSlot := ZeroOrOne "a:chOff" (drop 3 _tag_seq).
Definition chExt_slot : ChildSlot := ZeroOrOne "a:chExt" (drop 4 _tag_seq).

Definition off : loc → M (option loc) := slot_get off_slot.
Definition ext : loc → M (option loc) := slot_get ext_slot.
Definition chOff : loc → M (option loc) := slot_get chOff_slot.
Definition chExt : loc → M (option loc) := slot_get chExt_slot.

Section with_collaborators.
Context `{Collaborators}.

Definition rot : AttrSlot := OptionalAttribute "rot" ST_Angle (Some (VFloat PrimFloat.zero)).
Definition flipH : AttrSlot := OptionalAttribute "flipH" XsdBoolean (Some (VBool false)).
Definition flipV : AttrSlot := OptionalAttribute "flipV" XsdBoolean (Some (VBool false)).

Definition _new_ext : M loc :=
  ext ← OxmlElement "a:ext";
  attr_set CT_PositiveSize2D.cx ext (VInt 0);;
  attr_set CT_PositiveSize2D.cy ext (VInt 0);;
  mret ext.

Definition _new_off : M loc :=
  off ← OxmlElement "a:off";
  attr_set CT_Point2D.x off (VInt 0);;
  attr_set CT_Point2D.y off (VInt 0);;
  mret off.

Definition get_or_add_off : loc → M loc := slot_get_or_add off_slot _new_off.
Definition get_or_add_ext : loc → M loc := slot_get_or_add ext_slot _new_ext.
Definition get_or_add_chOff : loc → M loc :=
  slot_get_or_add chOff_slot (OxmlElement "a:chOff").
Definition get_or_add_chExt : loc → M loc :=
  slot_get_or_add chExt_slot (OxmlElement "a:chExt").

Definition x (self : loc) : M (option value) :=
  off ← off self;
  match off with
  | None => mret None
  | Some off => attr_get CT_Point2D.x off
  end.

Definition set_x (self : loc) (value : value) : M unit :=
  off ← get_or_add_off self;
  attr_set CT_Point2D.x off value.

Definition y (self : loc) : M (option value) :=
  off ← off self;
  match off with
  | None => mret None
  | Some off => attr_get CT_Point2D.y off
  end.

Definition set_y (self : loc) (value : value) : M unit :=
  off ← get_or_add_off self;
  attr_set CT_Point2D.y off value.

Definition cx (self : loc) : M (option value) :=
  ext ← ext self;
  match ext with
  | None => mret None
  | Some ext => attr_get CT_PositiveSize2D.cx ext
  end.

Definition set_cx (self : loc) (value : value) : M unit :=
  ext ← get_or_add_ext self;
  attr_set CT_PositiveSize2D.cx ext value.

Definition cy (self : loc) : M (option value) :=
  ext ← ext self;
  match ext with
  | None => mret None
  | Some ext => attr_get CT_PositiveSize2D.cy ext
  end.

Definition set_cy (self : loc) (value : value) : M unit :=
  ext ← get_or_add_ext self;
  attr_set CT_PositiveSize2D.cy ext value.

(** [getattr(xfrm, name)] for the value-typed attributes of the class. *)
Definition getattr (self : loc) (name : string) : M (option value) :=
  if String.eqb name "x" then x self
  else if String.eqb name "y" then y self
  else if String.eqb name "cx" then cx self
  else if String.eqb name "cy" then cy self
  else if String.eqb name "rot" then attr_get rot self
  else if String.eqb name "flipH" then attr_get flipH self
  else if String.eqb name "flipV" then attr_get flipV self
  else raise (AttributeError name).

(** [setattr(xfrm, name, value)] *)
Definition setattr (self : loc) (name : string) (value : value) : M unit :=
  if String.eqb name "x" then set_x self value
  else if String.eqb name "y" then set_y self value
  else if String.eqb name "cx" then set_cx self value
  else if String.eqb name "cy" then set_cy self value
  else if String.eqb name "rot" then attr_set rot self value
  else if String.eqb name "flipH" then attr_set flipH self value
  else if String.eqb name "flipV" then attr_set flipV self value
  else raise (AttributeError name).
End with_collaborators.
End CT_Transform2D.

(** [<a:ln>] *)
Module CT_LineProperties.
Definition _tag_seq : list string :=
  ["a:noFill"; "a:solidFill"; "a:gradFill"; "a:pattFill"; "a:prstDash";
   "a:custDash"; "a:round"; "a:bevel"; "a:miter"; "a:headEnd"; "a:tailEnd";
   "a:extLst"].
Definition eg_lineFillProperties_slot : ChildSlot :=
  ZeroOrOneChoice
    [Choice "a:noFill"; Choice "a:solidFill"; Choice "a:gradFill"; Choice "a:pattFill"]
    (drop 4 _tag_seq).
Definition prstDash_slot : ChildSlot := ZeroOrOne "a:prstDash" (drop 5 _tag_seq).
Definition custDash_slot : ChildSlot := ZeroOrOne "a:custDash" (drop 6 _tag_seq).

Definition eg_lineFillProperties : loc → M (option loc) :=
  slot_get eg_lineFillProperties_slot.
Definition prstDash : loc → M (option loc) := slot_get prstDash_slot.
Definition custDash : loc → M (option loc) := slot_get custDash_slot.
Definition get_or_add_prstDash : loc → M loc :=
  slot_get_or_add prstDash_slot (OxmlElement "a:prstDash").
Definition get_or_add_custDash : loc → M loc :=
  slot_get_or_add custDash_slot (OxmlElement "a:custDash").
Definition _remove_custDash : loc → M unit := slot_remove custDash_slot.

(** [get_or_add] on the line-fill choice, for the candidate [t]. *)
Definition get_or_add_fill (t : string) : loc → M loc :=
  slot_get_or_add eg_lineFillProperties_slot (OxmlElement t).

Definition eg_fillProperties : loc → M (option loc) := eg_lineFillProperties.

Section with_collaborators.
Context `{Collaborators}.

Definition w : AttrSlot := OptionalAttribute "w" ST_LineWidth (Some (VInt 0)).

Definition prstDash_val (self : loc) : M (option value) :=
  prstDash ← prstDash self;
  match prstDash with
  | None => mret None
  | Some prstDash => attr_get prstDash_val_attr prstDash
  end.

Definition set_prstDash_val (self : loc) (val : value) : M unit :=
  _remove_custDash self;;
  prstDash ← get_or_add_prstDash self;
  attr_set prstDash_val_attr prstDash val.
End with_collaborators.
End CT_LineProperties.

(** [`p:spPr`] *)
Module CT_ShapeProperties.
Definition _tag_seq : list string :=
  ["a:xfrm"; "a:custGeom"; "a:prstGeom"; "a:noFill"; "a:solidFill";
   "a:gradFill"; "a:blipFill"; "a:pattFill"; "a:grpFill"; "a:ln";
   "a:effectLst"; "a:effectDag"; "a:scene3d"; "a:sp3d"; "a:extLst"].
Definition xfrm_slot : ChildSlot := ZeroOrOne "a:xfrm" (drop 1 _tag_seq).
Definition custGeom_slot : ChildSlot := ZeroOrOne "a:custGeom" (drop 2 _tag_seq).
Definition prstGeom_slot : ChildSlot := ZeroOrOne "a:prstGeom" (drop 3 _tag_seq).
Definition eg_fillProperties_slot : ChildSlot :=
  ZeroOrOneChoice
    [Choice "a:noFill"; Choice "a:solidFill"; Choice "a:gradFill";
     Choice "a:blipFill"; Choice "a:pattFill"; Choice "a:grpFill"]
    (drop 9 _tag_seq).
Definition ln_slot : ChildSlot := ZeroOrOne "a:ln" (drop 10 _tag_seq).
Definition effectLst_slot : ChildSlot := ZeroOrOne "a:effectLst" (drop 11 _tag_seq).

Definition xfrm : loc → M (option loc) := slot_get xfrm_slot.
Definition custGeom : loc → M (option loc) := slot_get custGeom_slot.
Definition prstGeom : loc → M (option loc) := slot_get prstGeom_slot.
Definition eg_fillProperties : loc → M (option loc) := slot_get eg_fillProperties_slot.
Definition ln : loc → M (option loc) := slot_get ln_slot.
Definition effectLst : loc → M (option loc) := slot_get effectLst_slot.

Definition get_or_add_xfrm : loc → M loc :=
  slot_get_or_add xfrm_slot (OxmlElement "a:xfrm").
Definition get_or_add_custGeom : loc → M loc :=
  slot_get_or_add custGeom_slot (OxmlElement "a:custGeom").
Definition get_or_add_prstGeom : loc → M loc :=
  slot_get_or_add prstGeom_slot (OxmlElement "a:prstGeom").
Definition get_or_add_ln : loc → M loc :=
  slot_get_or_add ln_slot (OxmlElement "a:ln").
Definition get_or_add_effectLst : loc → M loc :=
  slot_get_or_add effectLst_slot (OxmlElement "a:effectLst").
Definition _remove_custGeom : loc → M unit := slot_remove custGeom_slot.

Section with_collaborators.
Context `{Collaborators}.

Definition _new_gradFill : M loc := new_gradFill.

(** The constructor of a fill candidate: the [_new_gradFill] method for
    [a:gradFill], [OxmlElement] for the others. *)
Definition _new_fill (t : string) : M loc :=
  if String.eqb t "a:gradFill" then _new_gradFill else OxmlElement t.

(** [get_or_add] on the fill choice, for the candidate [t]. *)
Definition get_or_add_fill (t : string) : loc → M loc :=
  slot_get_or_add eg_fillProperties_slot (_new_fill t).
End with_collaborators.

Section with_util.
Context `{Util}.

(** Shape width as an instance of [Emu], or [None] if not present. *)
Definition cx (self : loc) : M (option value) := λ σ,
  (_ ← get_node self;
   let cx_str_lst :=
     xpath_attr σ "cx"
       (xpath_step σ (Some "a:ext") (xpath_step σ (Some "a:xfrm") [self])) in
   match cx_str_lst with
   | [] => mret None
   | s :: _ => v ← of_result (Emu s); mret (Some v)
   end) σ.

(** Shape height as an instance of [Emu], or [None] if not present. *)
Definition cy (self : loc) : M (option value) := λ σ,
  (_ ← get_node self;
   let cy_str_lst :=
     xpath_attr σ "cy"
       (xpath_step σ (Some "a:ext") (xpath_step σ (Some "a:xfrm") [self])) in
   match cy_str_lst with
   | [] => mret None
   | s :: _ => v ← of_result (Emu s); mret (Some v)
   end) σ.

(** Distance between the left edge of the slide and left edge of the
    shape, or [None] if not present. *)
Definition x (self : loc) : M (option value) := λ σ,
  (_ ← get_node self;
   let x_str_lst :=
     xpath_attr σ "x"
       (xpath_step σ (Some "a:off") (xpath_step σ (Some "a:xfrm") [self])) in
   match x_str_lst with
   | [] => mret None
   | s :: _ => v ← of_result (Emu s); mret (Some v)
   end) σ.

(** The offset of the top of the shape from the top of the slide, or
    [None] if not present. *)
Definition y (self : loc) : M (option value) := λ σ,
  (_ ← get_node self;
   let y_str_lst :=
     xpath_attr σ "y"
       (xpath_step σ (Some "a:off") (xpath_step σ (Some "a:xfrm") [self])) in
   match y_str_lst with
   | [] => mret None
   | s :: _ => v ← of_result (Emu s); mret (Some v)
   end) σ.
End with_util.
End CT_ShapeProperties.

(** Common behaviour of the shape element classes ([p:sp], [p:cxnSp],
    [p:pic]). *)
Module BaseShapeElement.
(** Modelled from the spec: the required [p:spPr] child, which the
    concrete shape classes declare. *)
Definition spPr : loc → M loc := OneAndOnlyOne "p:spPr".

Definition get_or_add_xfrm (self : loc) : M loc :=
  spPr ← spPr self; CT_ShapeProperties.get_or_add_xfrm spPr.

Definition xfrm (self : loc) : M (option loc) :=
  spPr ← spPr self; CT_ShapeProperties.xfrm spPr.

(** [self.xpath("./*[1]/p:nvPr/p:ph")], first match or [None]. *)
Definition ph (self : loc) : M (option loc) := λ σ,
  (_ ← get_node self;
   let ph_elms :=
     xpath_step σ (Some "p:ph")
       (xpath_step σ (Some "p:nvPr") (take 1 (xpath_step σ None [self]))) in
   match ph_elms with
   | [] => mret None
   | e :: _ => mret (Some e)
   end) σ.

Definition has_ph_elm (self : loc) : M bool :=
  ph ← ph self; mret (bool_decide (ph ≠ None)).

(** Child [p:txBody] element, [None] if not present. *)
Definition txBody (self : loc) : M (option loc) := find self "p:txBody".

Section with_collaborators.
Context `{Collaborators}.

Definition ph_idx (self : loc) : M (option value) :=
  ph ← ph self;
  match ph with
  | None => raise (ValueError "not a placeholder shape")
  | Some ph => attr_get CT_Placeholder.idx ph
  end.

Definition ph_orient (self : loc) : M (option value) :=
  ph ← ph self;
  match ph with
  | None => raise (ValueError "not a placeholder shape")
  | Some ph => attr_get CT_Placeholder.orient ph
  end.

Definition ph_sz (self : loc) : M (option value) :=
  ph ← ph self;
  match ph with
  | None => raise (ValueError "not a placeholder shape")
  | Some ph => attr_get CT_Placeholder.sz ph
  end.

Definition ph_type (self : loc) : M (option value) :=
  ph ← ph self;
  match ph with
  | None => raise (ValueError "not a placeholder shape")
  | Some ph => attr_get CT_Placeholder.type ph
  end.

Definition _get_xfrm_attr (self : loc) (name : string) : M (option value) :=
  xfrm ← xfrm self;
  match xfrm with
  | None => mret None
  | Some xfrm => CT_Transform2D.getattr xfrm name
  end.

Definition _set_xfrm_attr (self : loc) (name : string) (value : value) : M unit :=
  xfrm ← get_or_add_xfrm self;
  CT_Transform2D.setattr xfrm name value.

Definition cx (self : loc) : M (option value) := _get_xfrm_attr self "cx".
Definition set_cx (self : loc) (value : value) : M unit := _set_xfrm_attr self "cx" value.
Definition cy (self : loc) : M (option value) := _get_xfrm_attr self "cy".
Definition set_cy (self : loc) (value : value) : M unit := _set_xfrm_attr self "cy" value.

Definition flipH (self : loc) : M bool :=
  v ← _get_xfrm_attr self "flipH"; mret (py_bool v).
Definition set_flipH (self : loc) (value : value) : M unit :=
  _set_xfrm_attr self "flipH" value.
Definition flipV (self : loc) : M bool :=
  v ← _get_xfrm_attr self "flipV"; mret (py_bool v).
Definition set_flipV (self : loc) (value : value) : M unit :=
  _set_xfrm_attr self "flipV" value.

Definition rot (self : loc) : M (option value) :=
  xfrm ← xfrm self;
  match xfrm with
  | None => mret (Some (VFloat PrimFloat.zero))
  | Some xfrm =>
      r ← attr_get CT_Transform2D.rot xfrm;
      match r with
      | None => mret (Some (VFloat PrimFloat.zero))
      | Some _ => attr_get CT_Transform2D.rot xfrm
      end
  end.

Definition set_rot (self : loc) (value : value) : M unit :=
  xfrm ← get_or_add_xfrm self;
  attr_set CT_Transform2D.rot xfrm value.

Definition x (self : loc) : M (option value) := _get_xfrm_attr self "x".
Definition set_x (self : loc) (value : value) : M unit := _set_xfrm_attr self "x" value.
Definition y (self : loc) : M (option value) := _get_xfrm_attr self "y".
Definition set_y (self : loc) (value : value) : M unit := _set_xfrm_attr self "y" value.
End with_collaborators.
End BaseShapeElement.

(** ** Schema order of an element type *)

(** Position of a tag in a schema sequence. *)
Fixpoint tag_rank (seq : list string) (t : string) : option nat :=
  match seq with
  | [] => None
  | u :: seq' => if String.eqb u t then Some 0 else S <$> tag_rank seq' t
  end.

(** The tags [tags], those the sequence declares, follow the order of the
    schema sequence [seq]. *)
Definition schema_ordered (seq tags : list string) : Prop :=
  StronglySorted le (omap (tag_rank seq) tags).

(** A slot is declared consistently with the schema sequence: its candidates
    are a block of the sequence and its successors are all that follows. *)
Definition declared_in (seq : list string) (s : ChildSlot) : Prop :=
  NoDup seq ∧ ∃ pre, seq = pre ++ candidates s ++ successors s.

(** The element [n] stands in the children [cs'] immediately before the first
    child of [cs] that satisfies [is_succ], at the end if there is none. *)
Definition placed_before_first (is_succ : loc → bool) (n : loc)
    (cs cs' : list loc) : Prop :=
  ∃ l1 l2, cs = l1 ++ l2 ∧ cs' = l1 ++ n :: l2 ∧
    Forall (λ c, is_succ c = false) l1 ∧
    match l2 with [] => True | c :: _ => is_succ c = true end.

(** A [get_or_add] method of an element class: its slot, the tag it asks for
    and the constructor it uses for that tag. *)
Record GetOrAdd := {
  goa_slot : ChildSlot;
  goa_tag : string;
  goa_new : M loc
}.

Definition call (g : GetOrAdd) (p : loc) : M loc :=
  slot_get_or_add (goa_slot g) (goa_new g) p.

Fixpoint call_all (gs : list GetOrAdd) (p : loc) : M unit :=
  match gs with
  | [] => mret tt
  | g :: gs' => call g p;; call_all gs' p
  end.

(** An element class with child slots: its schema sequence and its
    [get_or_add] methods. *)
Record ElementType := {
  et_tag_seq : list string;
  et_get_or_add : list GetOrAdd
}.

Section element_types.
Context `{Collaborators}.

(** [CT_ApplicationNonVisualDrawingProps] has no [_tag_seq]: its schema
    sequence is the tag of its one slot followed by the successors it
    lists. *)
Definition nvPr_type : ElementType :=
  let s := CT_ApplicationNonVisualDrawingProps.ph_slot in
  {| et_tag_seq := candidates s ++ successors s;
     et_get_or_add := [ {| goa_slot := s; goa_tag := "p:ph";
                           goa_new := OxmlElement "p:ph" |} ] |}.

Definition cNvPr_type : ElementType :=
  {| et_tag_seq := CT_NonVisualDrawingProps._tag_seq;
     et_get_or_add :=
       [ {| goa_slot := CT_NonVisualDrawingProps.hlinkClick_slot;
            goa_tag := "a:hlinkClick"; goa_new := OxmlElement "a:hlinkClick" |};
         {| goa_slot := CT_NonVisualDrawingProps.hlinkHover_slot;
            goa_tag := "a:hlinkHover"; goa_new := OxmlElement "a:hlinkHover" |} ] |}.

Definition xfrm_type : ElementType :=
  {| et_tag_seq := CT_Transform2D._tag_seq;
     et_get_or_add :=
       [ {| goa_slot := CT_Transform2D.off_slot; goa_tag := "a:off";
            goa_new := CT_Transform2D._new_off |};
         {| goa_slot := CT_Transform2D.ext_slot; goa_tag := "a:ext";
            goa_new := CT_Transform2D._new_ext |};
         {| goa_slot := CT_Transform2D.chOff_slot; goa_tag := "a:chOff";
            goa_new := OxmlElement "a:chOff" |};
         {| goa_slot := CT_Transform2D.chExt_slot; goa_tag := "a:chExt";
            goa_new := OxmlElement "a:chExt" |} ] |}.

Definition ln_type : ElementType :=
  {| et_tag_seq := CT_LineProperties._tag_seq;
     et_get_or_add :=
       map (λ t, {| goa_slot := CT_LineProperties.eg_lineFillProperties_slot;
                    goa_tag := t; goa_new := OxmlElement t |})
           (candidates CT_LineProperties.eg_lineFillProperties_slot)
       ++ [ {| goa_slot := CT_LineProperties.prstDash_slot;
               goa_tag := "a:prstDash"; goa_new := OxmlElement "a:prstDash" |};
            {| goa_slot := CT_LineProperties.custDash_slot;
               goa_tag := "a:custDash"; goa_new := OxmlElement "a:custDash" |} ] |}.

Definition spPr_type : ElementType :=
  {| et_tag_seq := CT_ShapeProperties._tag_seq;
     et_get_or_add :=
       [ {| goa_slot := CT_ShapeProperties.xfrm_slot; goa_tag := "a:xfrm";
            goa_new := OxmlElement "a:xfrm" |};
         {| goa_slot := CT_ShapeProperties.custGeom_slot; goa_tag := "a:custGeom";
            goa_new := OxmlElement "a:custGeom" |};
         {| goa_slot := CT_ShapeProperties.prstGeom_slot; goa_tag := "a:prstGeom";
            goa_new := OxmlElement "a:prstGeom" |} ]
       ++ map (λ t, {| goa_slot := CT_ShapeProperties.eg_fillProperties_slot;
                       goa_tag := t; goa_new := CT_ShapeProperties._new_fill t |})
              (candidates CT_ShapeProperties.eg_fillProperties_slot)
       ++ [ {| goa_slot := CT_ShapeProperties.ln_slot; goa_tag := "a:ln";
               goa_new := OxmlElement "a:ln" |};
            {| goa_slot := CT_ShapeProperties.effectLst_slot; goa_tag := "a:effectLst";
               goa_new := OxmlElement "a:effectLst" |} ] |}.

(** The element classes of [shared.py] that declare child slots. *)
Definition element_types : list ElementType :=
  [nvPr_type; cNvPr_type; xfrm_type; ln_type; spPr_type].
End element_types.

(** A constructor of [t]-elements: it returns a newly allocated element with
    tag [t], leaves every existing element as it is, and keeps the store
    free of dangling references. *)
Definition constructs (t : string) (new : M loc) : Prop :=
  ∀ σ, ∃ n σ', new σ = Ok (n, σ') ∧ σ `prefix_of` σ' ∧ length σ ≤ n ∧
    tag_of σ' n = Some t ∧ (closed σ → closed σ').

(** A value survives a write and a read through an attribute slot: the codec
    round-trips at the value (and at the slot's default, which is what a
    removed attribute reads as). *)
Definition round_trips (a : AttrSlot) (v : value) : Prop :=
  match a with
  | RequiredAttribute _ c => decode c (encode c v) = Some v
  | OptionalAttribute _ c default =>
      decode c (encode c v) = Some v ∧
      match default with
      | Some d => decode c (encode c d) = Some d
      | None => True
      end
  end.

(** ** Attribute accessors as functions of one element *)

Definition slot_name (a : AttrSlot) : string :=
  match a with
  | RequiredAttribute name _ => name
  | OptionalAttribute name _ _ => name
  end.

(** What [attr_get] reads from an element. *)
Definition attr_read (a : AttrSlot) (nd : node) : result (option value) :=
  match a with
  | RequiredAttribute name c =>
      match attrib nd !! name with
      | None => Raise (InvalidXmlError name)
      | Some s =>
          match decode c s with
          | Some v => Ok (Some v)
          | None => Raise (TypeError s)
          end
      end
  | OptionalAttribute name c default =>
      match attrib nd !! name with
      | None => Ok default
      | Some s =>
          match decode c s with
          | Some v => Ok (Some v)
          | None => Raise (TypeError s)
          end
      end
  end.

(** What [attr_set] makes of the attributes of an element. *)
Definition attr_write (a : AttrSlot) (v : value)
    (m : gmap string string) : gmap string string :=
  match a with
  | RequiredAttribute name c => <[name := encode c v]> m
  | OptionalAttribute name c default =>
      if bool_decide (natural_absence c = Some (encode c v) ∧
                      encode c <$> default = Some (encode c v))
      then delete name m
      else <[name := encode c v]> m
  end.

(** What [get_or_add] does to a store: nothing when the slot is occupied;
    otherwise it allocates one element of the requested tag and links it
    into the parent at the place the ordering algorithm gives. *)
Definition get_or_add_effect (s : ChildSlot) (t : string) (p c : loc)
    (σ σ' : store) : Prop :=
  (slot_get s p σ = Ok (Some c, σ) ∧ σ' = σ) ∨
  (slot_get s p σ = Ok (None, σ) ∧
   length σ ≤ c ∧ tag_of σ' c = Some t ∧
   placed_before_first (has_tag σ (successors s)) c
     (children_of σ p) (children_of σ' p) ∧
   (∀ l, l < length σ → tag_of σ' l = tag_of σ l) ∧
   (∀ l, l < length σ → l ≠ p → σ' !! l = σ !! l) ∧
   (∃ nd nd', σ !! p = Some nd ∧ σ' !! p = Some nd' ∧
      tag nd' = tag nd ∧ attrib nd' = attrib nd)).

(** The check of [declared_in], by computation. *)
Definition declared_inb (seq : list string) (s : ChildSlot) : bool :=
  bool_decide (NoDup seq) &&
  match candidates s with
  | [] => false
  | t :: _ =>
      match tag_rank seq t with
      | Some lo => bool_decide (seq = take lo seq ++ candidates s ++ successors s)
      | None => false
      end
  end.

(** A run of [get_or_add] calls on the element [p], from [σ] to [σ'], in
    which every call has the effect [get_or_add_effect]. *)
Fixpoint placed_run (gs : list GetOrAdd) (p : loc) (σ σ' : store) : Prop :=
  match gs with
  | [] => σ' = σ
  | g :: gs' =>
      ∃ c σ1, call g p σ = Ok (c, σ1) ∧
        get_or_add_effect (goa_slot g) (goa_tag g) p c σ σ1 ∧
        placed_run gs' p σ1 σ'
  end.

(** ** A concrete set of collaborators

    Plain codecs that satisfy the contract, to run the model on concrete
    documents: decimal integers, [1]/[0] booleans, member names for
    enumerations. *)
Module Plain.
Definition int_codec : Codec :=
  {| decode := λ s, (λ d, VInt (Z.of_int d)) <$> NilZero.int_of_string s;
     encode := λ v, match v with
                    | VInt z => NilZero.string_of_int (Z.to_int z)
                    | _ => ""
                    end;
     natural_absence := None |}.

Definition bool_codec : Codec :=
  {| decode := λ s, if String.eqb s "1" then Some (VBool true)
                    else if String.eqb s "0" then Some (VBool false)
                    else None;
     encode := λ v, match v with
                    | VBool true => "1"
                    | _ => "0"
                    end;
     natural_absence := Some "0" |}.

Definition name_codec (cls : string) : Codec :=
  {| decode := λ s, Some (VEnum cls s);
     encode := λ v, match v with
                    | VEnum _ m => m
                    | VStr s => s
                    | _ => ""
                    end;
     natural_absence := None |}.

(** Angles in whole 60000ths of a degree are not decoded here. *)
Definition angle_codec : Codec :=
  {| decode := λ _, None;
     encode := λ _, "0";
     natural_absence := None |}.

Definition collaborators : Collaborators :=
  {| ST_Angle := angle_codec;
     ST_Coordinate := int_codec;
     ST_Direction := name_codec "ST_Direction";
     ST_LineWidth := int_codec;
     ST_PlaceholderSize := name_codec "ST_PlaceholderSize";
     ST_PositiveCoordinate := int_codec;
     XsdBoolean := bool_codec;
     XsdUnsignedInt := int_codec;
     PP_PLACEHOLDER := name_codec "PP_PLACEHOLDER";
     new_gradFill := OxmlElement "a:gradFill";
     prstDash_val_attr := OptionalAttribute "val" (name_codec "MSO_LINE_DASH_STYLE") None |}.
End Plain.

(** The tags and the children of all elements: what structural queries
    see of a store. *)
Definition skeleton (σ : store) : list (string * list loc) :=
  (λ nd, (tag nd, children nd)) <$> σ.

(** The children of [p] that occupy the slot [s]. *)
Definition occupants (s : ChildSlot) (σ : store) (p : loc) : list loc :=
  List.filter (has_tag σ (candidates s)) (children_of σ p).

(** ** Sample documents *)

Module Sample.
(** [<p:sp><p:nvSpPr><p:cNvPr/><p:cNvSpPr/><p:nvPr/></p:nvSpPr><p:spPr/></p:sp>]:
    a shape without transform and without placeholder marker. *)
Definition bare_shape : store :=
  [Node "p:sp" ∅ [1; 5];
   Node "p:nvSpPr" ∅ [2; 3; 4];
   Node "p:cNvPr" (<["id" := "2"]> (<["name" := "Shape 1"]> ∅)) [];
   Node "p:cNvSpPr" ∅ [];
   Node "p:nvPr" ∅ [];
   Node "p:spPr" ∅ []].

(** The same shape with an empty [<a:xfrm/>] and a [<p:ph/>] without
    attributes. *)
Definition empty_xfrm_shape : store :=
  [Node "p:sp" ∅ [1; 5];
   Node "p:nvSpPr" ∅ [2; 3; 4];
   Node "p:cNvPr" (<["id" := "2"]> (<["name" := "Shape 1"]> ∅)) [];
   Node "p:cNvSpPr" ∅ [];
   Node "p:nvPr" ∅ [7];
   Node "p:spPr" ∅ [6];
   Node "a:xfrm" ∅ [];
   Node "p:ph" ∅ []].

(** A shape whose transform has an extent but no offset, and whose
    placeholder marker has a type and an index. *)
Definition ext_only_shape : store :=
  [Node "p:sp" ∅ [1; 5];
   Node "p:nvSpPr" ∅ [2; 3; 4];
   Node "p:cNvPr" (<["id" := "2"]> (<["name" := "Shape 1"]> ∅)) [];
   Node "p:cNvSpPr" ∅ [];
   Node "p:nvPr" ∅ [8];
   Node "p:spPr" ∅ [6];
   Node "a:xfrm" (<["rot" := "5400000"]> ∅) [7];
   Node "a:ext" (<["cx" := "914400"]> (<["cy" := "457200"]> ∅)) [];
   Node "p:ph" (<["type" := "title"]> (<["idx" := "3"]> ∅)) []].

(** [<a:ln><a:solidFill/><a:custDash/></a:ln>] *)
Definition dashed_line : store :=
  [Node "a:ln" ∅ [1; 2];
   Node "a:solidFill" ∅ [];
   Node "a:custDash" ∅ []].
End Sample.

Section new_nodes.
Context `{Collaborators}.

(** The elements [_new_off] and [_new_ext] allocate. *)
Definition new_off_node : node :=
  Node "a:off" (attr_write CT_Point2D.y (VInt 0)
                  (attr_write CT_Point2D.x (VInt 0) ∅)) [].

Definition new_ext_node : node :=
  Node "a:ext" (attr_write CT_PositiveSize2D.cy (VInt 0)
                  (attr_write CT_PositiveSize2D.cx (VInt 0) ∅)) [].

End new_nodes.

(** A [get_or_add] method is sound for a schema sequence. *)
Definition sound_method (seq : list string) (g : GetOrAdd) : Prop :=
  declared_in seq (goa_slot g) ∧ goa_tag g ∈ candidates (goa_slot g) ∧
  constructs (goa_tag g) (goa_new g).

(** ** Observing computations *)

(** The result of a computation, without the store it leaves. *)
Definition value_of {A} (r : result (A * store)) : result A :=
  match r with
  | Ok (a, _) => Ok a
  | Raise e => Raise e
  end.

(** A computation that never changes the store. *)
Definition read_only {A} (m : M A) : Prop :=
  ∀ σ a σ', m σ = Ok (a, σ') → σ' = σ.


(** ** The geometry of a shape, as the getters see it *)

(** What an attribute slot reads from an attribute dictionary. *)
Definition attr_of (a : AttrSlot) (m : gmap string string) : result (option value) :=
  attr_read a (Node "" m []).

(** The attributes of the [a:xfrm] of a shape; an absent [a:xfrm] counts as
    one without attributes. *)
Definition xfrm_attrib (self : loc) (σ : store) : result (gmap string string) :=
  match BaseShapeElement.xfrm self σ with
  | Raise e => Raise e
  | Ok (None, _) => Ok ∅
  | Ok (Some xfrm, _) =>
      match σ !! xfrm with
      | Some nd => Ok (attrib nd)
      | None => Raise ReferenceError
      end
  end.

(** The attributes of the child of the [a:xfrm] that occupies the slot [s];
    [None] when the [a:xfrm] or the child is absent. *)
Definition child_attrib (s : ChildSlot) (self : loc) (σ : store)
    : result (option (gmap string string)) :=
  match BaseShapeElement.xfrm self σ with
  | Raise e => Raise e
  | Ok (None, _) => Ok None
  | Ok (Some xfrm, _) =>
      match slot_get s xfrm σ with
      | Raise e => Raise e
      | Ok (None, _) => Ok None
      | Ok (Some c, _) =>
          match σ !! c with
          | Some nd => Ok (Some (attrib nd))
          | None => Raise ReferenceError
          end
      end
  end.

(** The two shapes of setter in [BaseShapeElement]: an attribute of the
    transform, an attribute of a child of the transform. *)
Definition set_xfrm_attr (a : AttrSlot) (self : loc) (v : value) : M unit :=
  xfrm ← BaseShapeElement.get_or_add_xfrm self; attr_set a xfrm v.

Definition set_child_attr (s : ChildSlot) (new : M loc) (a : AttrSlot)
    (self : loc) (v : value) : M unit :=
  xfrm ← BaseShapeElement.get_or_add_xfrm self;
  c ← slot_get_or_add s new xfrm;
  attr_set a c v.


(** A getter reads the same in [σ'] as in [σ]: the same value, or the same
    exception. *)
Definition same_read {A} (getter : loc → M A) (self : loc) (σ σ' : store) : Prop :=
  value_of (getter self σ') = value_of (getter self σ).

(** ** A complete sample shape *)

(** A text box with position, size, a flip, a text body, a placeholder marker
    and a dashed outline:
    [<p:sp><p:nvSpPr><p:cNvPr/><p:cNvSpPr/><p:nvPr><p:ph/></p:nvPr></p:nvSpPr>
     <p:spPr><a:xfrm><a:off/><a:ext/></a:xfrm><a:ln><a:solidFill/><a:custDash/>
     </a:ln></p:spPr><p:txBody/></p:sp>]. *)
Definition placed_shape : store :=
  [Node "p:sp" ∅ [1; 5; 9];
   Node "p:nvSpPr" ∅ [2; 3; 4];
   Node "p:cNvPr" (<["id" := "2"]> (<["name" := "Shape 1"]> ∅)) [];
   Node "p:cNvSpPr" ∅ [];
   Node "p:nvPr" ∅ [10];
   Node "p:spPr" ∅ [6; 11];
   Node "a:xfrm" (<["flipH" := "1"]> ∅) [7; 8];
   Node "a:off" (<["x" := "10"]> (<["y" := "20"]> ∅)) [];
   Node "a:ext" (<["cx" := "300"]> (<["cy" := "400"]> ∅)) [];
   Node "p:txBody" ∅ [];
   Node "p:ph" (<["type" := "body"]> (<["idx" := "1"]> ∅)) [];
   Node "a:ln" (<["w" := "12700"]> ∅) [12; 13];
   Node "a:solidFill" ∅ [];
   Node "a:custDash" ∅ []].

(** ** Collaborators with angles in degrees

    The plain collaborators, with an angle codec on floats: the attribute
    holds whole 60000ths of a degree, the value is in degrees. *)
Module Degrees.
Definition float_to_Z (f : float) : Z :=
  match Prim2SF f with
  | S754_finite s m e =>
      let z := if (0 <=? e)%Z then (Z.pos m * 2 ^ e)%Z
               else ((2 * Z.pos m + 2 ^ (- e)) / 2 ^ (1 - e))%Z in
      if s then (- z)%Z else z
  | _ => 0%Z
  end.

Definition Z_to_float (z : Z) : float :=
  if (z <? 0)%Z then PrimFloat.opp (PrimFloat.of_uint63 (Uint63.of_Z (- z)))
  else PrimFloat.of_uint63 (Uint63.of_Z z).

Definition angle_codec : Codec :=
  {| decode := λ s,
       (λ d, VFloat (PrimFloat.div (Z_to_float (Z.of_int d mod 21600000))
                                   (Z_to_float 60000)))
         <$> NilZero.int_of_string s;
     encode := λ v,
       match v with
       | VFloat f =>
           NilZero.string_of_int
             (Z.to_int (float_to_Z (PrimFloat.mul f (Z_to_float 60000))
                        mod 21600000))
       | _ => ""
       end;
     natural_absence := None |}.

Definition collaborators : Collaborators :=
  {| ST_Angle := angle_codec;
     ST_Coordinate := Plain.int_codec;
     ST_Direction := Plain.name_codec "ST_Direction";
     ST_LineWidth := Plain.int_codec;
     ST_PlaceholderSize := Plain.name_codec "ST_PlaceholderSize";
     ST_PositiveCoordinate := Plain.int_codec;
     XsdBoolean := Plain.bool_codec;
     XsdUnsignedInt := Plain.int_codec;
     PP_PLACEHOLDER := Plain.name_codec "PP_PLACEHOLDER";
     new_gradFill := OxmlElement "a:gradFill";
     prstDash_val_attr :=
       OptionalAttribute "val" (Plain.name_codec "MSO_LINE_DASH_STYLE") None |}.
End Degrees.

(** [Emu] on decimal integers. *)
Definition decimal_Emu : Util :=
  {| Emu := λ s, match NilZero.int_of_string s with
                 | Some d => Ok (VInt (Z.of_int d))
                 | None => Raise (ValueError s)
                 end |}.

(** ** What a write leaves in place *)

(** From [σ] to [σ'] every element is kept with its tag, no child is
    detached or reordered, and the elements whose tag is not in [ts] are kept
    exactly as they are. *)
Definition grows_within (ts : list string) (σ σ' : store) : Prop :=
  ∀ e nd, σ !! e = Some nd →
    ∃ nd', σ' !! e = Some nd' ∧ tag nd' = tag nd ∧
      children nd `sublist_of` children nd' ∧ (tag nd ∉ ts → nd' = nd).

(** The tags of the elements that hold the geometry of a shape. *)
Definition geometry_tags : list string := ["p:spPr"; "a:xfrm"; "a:off"; "a:ext"].

(** * Properties *)

(** ** The monad *)

Lemma bind_Ok {A B} (m : M A) (f : A → M B) σ a σ' :
  m σ = Ok (a, σ') → (m ≫= f) σ = f a σ'.
Proof. intros Hm. unfold mbind, M_bind. by rewrite Hm. Qed.

Lemma bind_Raise {A B} (m : M A) (f : A → M B) σ e :
  m σ = Raise e → (m ≫= f) σ = Raise e.
Proof. intros Hm. unfold mbind, M_bind. by rewrite Hm. Qed.

Lemma bind_Ok_inv {A B} (m : M A) (f : A → M B) σ b σ2 :
  (m ≫= f) σ = Ok (b, σ2) → ∃ a σ1, m σ = Ok (a, σ1) ∧ f a σ1 = Ok (b, σ2).
Proof.
  unfold mbind, M_bind. destruct (m σ) as [[a σ1]|e]; [eauto|discriminate].
Qed.

Lemma get_node_Ok l σ nd : σ !! l = Some nd → get_node l σ = Ok (nd, σ).
Proof. intros Hl. unfold get_node. by rewrite Hl. Qed.

Lemma put_node_Ok l σ nd nd' :
  σ !! l = Some nd → put_node l nd' σ = Ok (tt, <[l := nd']> σ).
Proof. intros Hl. unfold put_node. by rewrite Hl. Qed.

(** ** The store *)

Lemma closedb_closed σ : closedb σ = true ↔ closed σ.
Proof.
  unfold closedb, closed. rewrite forallb_forall, Forall_forall.
  split; intros Hc nd Hnd.
  - apply Forall_forall. intros c Hc'.
    apply list_elem_of_In in Hnd. specialize (Hc nd Hnd).
    rewrite forallb_forall in Hc. apply Nat.ltb_lt, Hc.
    by apply list_elem_of_In.
  - apply forallb_forall. intros c Hc'. apply Nat.ltb_lt.
    apply list_elem_of_In in Hnd, Hc'. specialize (Hc nd Hnd).
    rewrite Forall_forall in Hc. by apply Hc.
Qed.

Lemma closed_lookup σ l nd c :
  closed σ → σ !! l = Some nd → c ∈ children nd → c < length σ.
Proof.
  intros Hc Hl Hin. unfold closed in Hc. rewrite Forall_forall in Hc.
  specialize (Hc nd (list_elem_of_lookup_2 _ _ _ Hl)).
  rewrite Forall_forall in Hc. by apply Hc.
Qed.

Lemma closed_insert σ l nd :
  closed σ → Forall (λ c, c < length σ) (children nd) → closed (<[l := nd]> σ).
Proof.
  intros Hc Hnd. unfold closed. rewrite length_insert.
  apply Forall_insert; [exact Hc | exact Hnd].
Qed.

Lemma closed_snoc σ nd :
  closed σ → Forall (λ c, c < S (length σ)) (children nd) → closed (σ ++ [nd]).
Proof.
  intros Hc Hnd. unfold closed. rewrite length_app. simpl.
  apply Forall_app. split.
  - eapply Forall_impl; [exact Hc|]. intros nd' Hnd'. simpl in *.
    eapply Forall_impl; [exact Hnd'|]. simpl. lia.
  - constructor; [|constructor].
    eapply Forall_impl; [exact Hnd|]. simpl. lia.
Qed.

Lemma tag_of_insert σ l nd nd' c :
  σ !! l = Some nd → tag nd' = tag nd → tag_of (<[l := nd']> σ) c = tag_of σ c.
Proof.
  intros Hl Ht. unfold tag_of. destruct (decide (l = c)) as [->|Hne].
  - rewrite list_lookup_insert_eq by (by eapply lookup_lt_Some).
    rewrite Hl. simpl. by rewrite Ht.
  - by rewrite list_lookup_insert_ne.
Qed.

Lemma has_tag_insert σ l nd nd' ts c :
  σ !! l = Some nd → tag nd' = tag nd →
  has_tag (<[l := nd']> σ) ts c = has_tag σ ts c.
Proof. intros Hl Ht. unfold has_tag. by erewrite tag_of_insert. Qed.

Lemma tag_of_prefix σ σ' c :
  σ `prefix_of` σ' → c < length σ → tag_of σ' c = tag_of σ c.
Proof.
  intros [k ->] Hc. unfold tag_of. by rewrite lookup_app_l.
Qed.

Lemma has_tag_prefix σ σ' ts c :
  σ `prefix_of` σ' → c < length σ → has_tag σ' ts c = has_tag σ ts c.
Proof. intros Hp Hc. unfold has_tag. by rewrite (tag_of_prefix σ σ'). Qed.

Lemma lookup_prefix (σ σ' : store) l nd :
  σ `prefix_of` σ' → σ !! l = Some nd → σ' !! l = Some nd.
Proof. intros [k ->] Hl. by apply lookup_app_l_Some. Qed.

(** ** Scanning the children *)

Lemma find_first_None f cs :
  find_first f cs = None ↔ Forall (λ c, f c = false) cs.
Proof.
  induction cs as [|c cs IH]; simpl.
  - split; [constructor|done].
  - destruct (f c) eqn:Hf.
    + split; [done|]. inversion 1; congruence.
    + rewrite IH. split; [by constructor|]. by inversion 1.
Qed.

Lemma find_first_Some f cs c :
  find_first f cs = Some c →
  ∃ l1 l2, cs = l1 ++ c :: l2 ∧ f c = true ∧ Forall (λ c, f c = false) l1.
Proof.
  induction cs as [|c' cs IH]; simpl; [done|].
  destruct (f c') eqn:Hf.
  - intros [= ->]. exists [], cs. by repeat split.
  - intros Hfind. destruct (IH Hfind) as (l1 & l2 & -> & Hc & Hl1).
    exists (c' :: l1), l2. repeat split; [done|]. by constructor.
Qed.

Lemma find_first_app_skip f l1 l2 :
  Forall (λ c, f c = false) l1 → find_first f (l1 ++ l2) = find_first f l2.
Proof.
  induction 1 as [|c l1 Hc _ IH]; simpl; [done|]. by rewrite Hc.
Qed.

Lemma find_first_ext f g cs :
  Forall (λ c, f c = g c) cs → find_first f cs = find_first g cs.
Proof.
  induction 1 as [|c cs Hc _ IH]; simpl; [done|]. by rewrite Hc, IH.
Qed.

Lemma insert_before_placed f n cs :
  placed_before_first f n cs (insert_before f n cs).
Proof.
  induction cs as [|c cs IH]; simpl.
  - exists [], []. by repeat split.
  - destruct (f c) eqn:Hf.
    + exists [], (c :: cs). by repeat split.
    + destruct IH as (l1 & l2 & -> & -> & Hl1 & Hl2).
      exists (c :: l1), l2. repeat split; [by constructor | done].
Qed.

Lemma insert_before_ext f g n cs :
  Forall (λ c, f c = g c) cs → insert_before f n cs = insert_before g n cs.
Proof.
  induction 1 as [|c cs Hc _ IH]; simpl; [done|]. by rewrite Hc, IH.
Qed.

Lemma Forall_insert_before (P : loc → Prop) f n cs :
  Forall P cs → P n → Forall P (insert_before f n cs).
Proof.
  intros Hcs Hn. induction Hcs as [|c cs Hc Hcs IH]; simpl.
  - by constructor.
  - destruct (f c); by repeat constructor.
Qed.

(** ** Child slots *)

Lemma slot_get_eval s p σ nd :
  σ !! p = Some nd →
  slot_get s p σ = Ok (find_first (has_tag σ (candidates s)) (children nd), σ).
Proof.
  intros Hp. unfold slot_get, first_child_found_in.
  by rewrite (bind_Ok _ _ _ _ _ (get_node_Ok _ _ _ Hp)).
Qed.

Lemma insert_element_before_eval p n succ σ nd :
  σ !! p = Some nd →
  insert_element_before p n succ σ =
    Ok (tt, <[p := with_children nd (insert_before (has_tag σ succ) n (children nd))]> σ).
Proof.
  intros Hp. unfold insert_element_before.
  rewrite (bind_Ok _ _ _ _ _ (get_node_Ok _ _ _ Hp)).
  by apply put_node_Ok with nd.
Qed.

Lemma slot_get_or_add_present s new p σ c :
  slot_get s p σ = Ok (Some c, σ) → slot_get_or_add s new p σ = Ok (c, σ).
Proof. intros Hg. unfold slot_get_or_add. by rewrite (bind_Ok _ _ _ _ _ Hg). Qed.

Lemma slot_get_or_add_spec s new t p σ :
  closed σ → is_Some (σ !! p) → constructs t new → t ∈ candidates s →
  ∃ c σ', slot_get_or_add s new p σ = Ok (c, σ') ∧ closed σ' ∧
    slot_get s p σ' = Ok (Some c, σ') ∧ get_or_add_effect s t p c σ σ'.
Proof.
  intros Hcl [nd Hp] Hnew Ht.
  pose proof (slot_get_eval s p σ nd Hp) as Hget.
  destruct (find_first (has_tag σ (candidates s)) (children nd)) as [c|] eqn:Hfind.
  { exists c, σ. split; [by apply slot_get_or_add_present|].
    repeat split; [done..|]. by left. }
  destruct (Hnew σ) as (n & σ1 & Hn & Hpre & Hfresh & Htag & Hcl1).
  specialize (Hcl1 Hcl).
  pose proof (lookup_prefix _ _ _ _ Hpre Hp) as Hp1.
  assert (Hold : Forall (λ c, c < length σ) (children nd)).
  { apply Forall_forall. intros c Hc. by eapply closed_lookup. }
  assert (Hsame : ∀ ts, Forall (λ c, has_tag σ1 ts c = has_tag σ ts c) (children nd)).
  { intros ts. eapply Forall_impl; [exact Hold|]. simpl. intros c Hc.
    by apply has_tag_prefix. }
  assert (Hn1 : n < length σ1).
  { unfold tag_of in Htag. destruct (σ1 !! n) eqn:E; [|done].
    by eapply lookup_lt_Some. }
  pose proof (prefix_length _ _ Hpre) as Hlen.
  set (cs' := insert_before (has_tag σ (successors s)) n (children nd)).
  set (σ2 := <[p := with_children nd cs']> σ1).
  assert (Hp2 : σ2 !! p = Some (with_children nd cs')).
  { subst σ2. apply list_lookup_insert_eq. by eapply lookup_lt_Some. }
  assert (Htag2 : ∀ l, tag_of σ2 l = tag_of σ1 l).
  { intros l. subst σ2. by apply tag_of_insert with nd. }
  assert (Hrun : slot_get_or_add s new p σ = Ok (n, σ2)).
  { unfold slot_get_or_add. rewrite (bind_Ok _ _ _ _ _ Hget).
    rewrite (bind_Ok _ _ _ _ _ Hn).
    pose proof (insert_element_before_eval p n (successors s) σ1 nd Hp1) as Hins.
    rewrite (insert_before_ext _ _ _ _ (Hsame (successors s))) in Hins.
    by rewrite (bind_Ok _ _ _ _ _ Hins). }
  exists n, σ2. split; [done|].
  assert (Hplaced : placed_before_first (has_tag σ (successors s)) n (children nd) cs').
  { apply insert_before_placed. }
  split; [|split].
  - subst σ2. apply closed_insert; [done|]. simpl.
    apply Forall_insert_before; [|done].
    eapply Forall_impl; [exact Hold|]. simpl. lia.
  - rewrite (slot_get_eval s p σ2 _ Hp2). simpl. f_equal. f_equal.
    destruct Hplaced as (l1 & l2 & Hcs & -> & Hl1 & _).
    rewrite find_first_None in Hfind. rewrite Hcs in Hfind, Hold.
    apply Forall_app in Hfind as [Hf1 _]. apply Forall_app in Hold as [Ho1 _].
    rewrite find_first_app_skip.
    + simpl. unfold has_tag. rewrite Htag2, Htag.
      by rewrite bool_decide_eq_true_2.
    + apply Forall_forall. intros c Hc.
      rewrite Forall_forall in Hf1, Ho1.
      unfold has_tag. rewrite Htag2, (tag_of_prefix σ σ1) by auto.
      by apply Hf1.
  - right. repeat split; try done.
    + by rewrite Htag2.
    + unfold children_of. by rewrite Hp, Hp2.
    + intros l Hl. rewrite Htag2. by apply tag_of_prefix.
    + intros l Hl Hne. subst σ2. rewrite list_lookup_insert_ne by done.
      destruct Hpre as [k ->]. by apply lookup_app_l.
    + by exists nd, (with_children nd cs').
Qed.

(** ** Attribute accessors *)

Lemma attr_get_eval a l σ nd :
  σ !! l = Some nd →
  attr_get a l σ = match attr_read a nd with
                   | Ok v => Ok (v, σ)
                   | Raise e => Raise e
                   end.
Proof.
  intros Hl. destruct a as [name c|name c d]; unfold attr_get, get, attr_read;
    rewrite (bind_Ok _ _ _ _ _ (bind_Ok _ _ _ _ _ (get_node_Ok _ _ _ Hl)));
    unfold mret, M_ret; destruct (attrib nd !! name) as [s|]; try done;
    unfold mbind, M_bind, from_xml; by destruct (decode c s).
Qed.

Lemma attr_set_eval a l v σ nd :
  σ !! l = Some nd →
  attr_set a l v σ =
    Ok (tt, <[l := with_attrib nd (attr_write a v (attrib nd))]> σ).
Proof.
  intros Hl. destruct a as [name c|name c d]; unfold attr_set, attr_write.
  - unfold set. rewrite (bind_Ok _ _ _ _ _ (get_node_Ok _ _ _ Hl)).
    by apply put_node_Ok with nd.
  - case_bool_decide.
    + unfold del_attr. rewrite (bind_Ok _ _ _ _ _ (get_node_Ok _ _ _ Hl)).
      by apply put_node_Ok with nd.
    + unfold set. rewrite (bind_Ok _ _ _ _ _ (get_node_Ok _ _ _ Hl)).
      by apply put_node_Ok with nd.
Qed.

(** Reading back what has just been written. *)
Lemma attr_read_write a v nd :
  round_trips a v →
  attr_read a (with_attrib nd (attr_write a v (attrib nd))) = Ok (Some v).
Proof.
  destruct a as [name c|name c d]; simpl.
  - intros Hv. rewrite lookup_insert_eq. by rewrite Hv.
  - intros [Hv Hd]. case_bool_decide as Habs.
    + rewrite lookup_delete_eq. destruct Habs as [_ Habs].
      destruct d as [dv|]; [|done]. simpl in Habs.
      injection Habs as Habs. f_equal.
      rewrite <- Hd, Habs, Hv. done.
    + rewrite lookup_insert_eq. by rewrite Hv.
Qed.

(** Writing one attribute leaves the reading of another as it was. *)
Lemma attr_read_write_other a b v nd :
  slot_name a ≠ slot_name b →
  attr_read b (with_attrib nd (attr_write a v (attrib nd))) = attr_read b nd.
Proof.
  intros Hne.
  assert (Hlk : attr_write a v (attrib nd) !! slot_name b = attrib nd !! slot_name b).
  { destruct a as [name c|name c d]; simpl in *.
    - by rewrite lookup_insert_ne.
    - case_bool_decide; [by rewrite lookup_delete_ne | by rewrite lookup_insert_ne]. }
  destruct b as [name c|name c d]; simpl in *; by rewrite Hlk.
Qed.

(** ** Constructors *)

Lemma OxmlElement_constructs t : constructs t (OxmlElement t).
Proof.
  intros σ. exists (length σ), (σ ++ [Node t ∅ []]). repeat split.
  - by apply prefix_app_r.
  - done.
  - unfold tag_of. by rewrite list_lookup_middle.
  - intros Hc. apply closed_snoc; [done|constructor].
Qed.

Lemma attr_set_snoc a v σ nd :
  attr_set a (length σ) v (σ ++ [nd]) =
    Ok (tt, σ ++ [with_attrib nd (attr_write a v (attrib nd))]).
Proof.
  rewrite (attr_set_eval a _ v _ nd) by (by apply list_lookup_middle).
  rewrite insert_app_r_alt by done. by rewrite Nat.sub_diag.
Qed.

Section constructors.
Context `{Collaborators}.

Lemma _new_off_eval σ :
  CT_Transform2D._new_off σ =
    Ok (length σ,
        σ ++ [Node "a:off"
                (attr_write CT_Point2D.y (VInt 0)
                   (attr_write CT_Point2D.x (VInt 0) ∅)) []]).
Proof.
  unfold CT_Transform2D._new_off.
  rewrite (bind_Ok _ _ σ (length σ) (σ ++ [Node "a:off" ∅ []])) by done.
  rewrite (bind_Ok _ _ _ _ _ (attr_set_snoc _ _ _ _)).
  by rewrite (bind_Ok _ _ _ _ _ (attr_set_snoc _ _ _ _)).
Qed.

Lemma _new_ext_eval σ :
  CT_Transform2D._new_ext σ =
    Ok (length σ,
        σ ++ [Node "a:ext"
                (attr_write CT_PositiveSize2D.cy (VInt 0)
                   (attr_write CT_PositiveSize2D.cx (VInt 0) ∅)) []]).
Proof.
  unfold CT_Transform2D._new_ext.
  rewrite (bind_Ok _ _ σ (length σ) (σ ++ [Node "a:ext" ∅ []])) by done.
  rewrite (bind_Ok _ _ _ _ _ (attr_set_snoc _ _ _ _)).
  by rewrite (bind_Ok _ _ _ _ _ (attr_set_snoc _ _ _ _)).
Qed.

Lemma _new_off_constructs : constructs "a:off" CT_Transform2D._new_off.
Proof.
  intros σ. eexists _, _. split; [apply _new_off_eval|]. repeat split.
  - by apply prefix_app_r.
  - done.
  - unfold tag_of. by rewrite list_lookup_middle.
  - intros Hc. apply closed_snoc; [done|constructor].
Qed.

Lemma _new_ext_constructs : constructs "a:ext" CT_Transform2D._new_ext.
Proof.
  intros σ. eexists _, _. split; [apply _new_ext_eval|]. repeat split.
  - by apply prefix_app_r.
  - done.
  - unfold tag_of. by rewrite list_lookup_middle.
  - intros Hc. apply closed_snoc; [done|constructor].
Qed.
End constructors.

(** ** Ranks in a schema sequence *)

Lemma tag_rank_Some seq t i : tag_rank seq t = Some i → seq !! i = Some t.
Proof.
  revert i. induction seq as [|u seq IH]; simpl; intros i; [done|].
  destruct (String.eqb_spec u t) as [->|Hne].
  - by intros [= <-].
  - destruct (tag_rank seq t) as [j|]; simpl; [|done].
    intros [= <-]. simpl. by apply IH.
Qed.

Lemma tag_rank_is_Some seq t : t ∈ seq → is_Some (tag_rank seq t).
Proof.
  induction seq as [|u seq IH]; simpl; [by inversion 1|].
  destruct (String.eqb_spec u t) as [->|Hne]; [by eexists|].
  intros Hin. apply elem_of_cons in Hin as [->|Hin]; [done|].
  destruct (IH Hin) as [j ->]. by eexists.
Qed.

Section blocks.
Context (seq pre cands succ : list string).
Hypothesis Hnodup : NoDup seq.
Hypothesis Hseq : seq = pre ++ cands ++ succ.

Lemma rank_candidate t i :
  t ∈ cands → tag_rank seq t = Some i →
  length pre ≤ i ∧ i < length pre + length cands.
Proof using Hnodup Hseq.
  intros Hin Hr. apply tag_rank_Some in Hr.
  apply list_elem_of_lookup in Hin as [j Hj].
  assert (seq !! (length pre + j) = Some t) as Hj'.
  { rewrite Hseq, lookup_app_r by lia.
    replace (length pre + j - length pre) with j by lia.
    by apply lookup_app_l_Some. }
  pose proof (NoDup_lookup _ _ _ _ Hnodup Hr Hj') as ->.
  apply lookup_lt_Some in Hj. lia.
Qed.

Lemma rank_successor u r :
  u ∈ succ → tag_rank seq u = Some r → length pre + length cands ≤ r.
Proof using Hnodup Hseq.
  intros Hin Hr. apply tag_rank_Some in Hr.
  apply list_elem_of_lookup in Hin as [j Hj].
  assert (seq !! (length pre + length cands + j) = Some u) as Hj'.
  { rewrite Hseq, lookup_app_r by lia.
    rewrite lookup_app_r by lia.
    by replace (length pre + length cands + j - length pre - length cands)
      with j by lia. }
  pose proof (NoDup_lookup _ _ _ _ Hnodup Hr Hj') as ->. lia.
Qed.

Lemma rank_predecessor u r :
  u ∉ cands → u ∉ succ → tag_rank seq u = Some r → r < length pre.
Proof using Hnodup Hseq.
  intros Hc Hs Hr. apply tag_rank_Some in Hr.
  destruct (decide (r < length pre)) as [|Hge]; [done|]. exfalso.
  rewrite Hseq, lookup_app_r in Hr by lia.
  apply list_elem_of_lookup_2, elem_of_app in Hr as [?|?]; done.
Qed.

Lemma candidate_has_rank t : t ∈ cands → is_Some (tag_rank seq t).
Proof using Hnodup Hseq.
  intros Hin. apply tag_rank_is_Some. rewrite Hseq. set_solver.
Qed.
End blocks.

(** Putting a candidate between the tags that are neither candidates nor
    successors and a first successor keeps the schema order. *)
Lemma schema_ordered_insert seq s t T1 T2 :
  declared_in seq s → t ∈ candidates s →
  Forall (λ u, (u ∉ candidates s) ∧ (u ∉ successors s)) T1 →
  match T2 with [] => True | u :: _ => u ∈ successors s end →
  schema_ordered seq (T1 ++ T2) → schema_ordered seq (T1 ++ t :: T2).
Proof.
  intros [Hnd [pre Hseq]] Ht HT1 HT2. unfold schema_ordered.
  rewrite !omap_app. simpl.
  destruct (candidate_has_rank _ _ _ _ Hnd Hseq t Ht) as [i Hi]. rewrite Hi.
  destruct (rank_candidate _ _ _ _ Hnd Hseq t i Ht Hi) as [Hlo Hhi].
  rewrite !StronglySorted_app. intros (Hcross & HS1 & HS2).
  assert (H1 : ∀ r, r ∈ omap (tag_rank seq) T1 → r < length pre).
  { intros r Hr. apply list_elem_of_omap in Hr as (u & Hu & Hru).
    rewrite Forall_forall in HT1. destruct (HT1 u Hu) as [Hc Hs].
    by eapply rank_predecessor. }
  assert (H2 : Forall (le i) (omap (tag_rank seq) T2)).
  { destruct T2 as [|u T2]; [constructor|]. simpl in *.
    destruct (tag_rank seq u) as [r|] eqn:Hr.
    - pose proof (rank_successor _ _ _ _ Hnd Hseq u r HT2 Hr) as Hge.
      apply StronglySorted_cons in HS2 as [Hall _].
      constructor; [lia|]. eapply Forall_impl; [exact Hall|]. simpl. lia.
    - exfalso. assert (u ∈ seq) as Hin by (rewrite Hseq; set_solver).
      apply tag_rank_is_Some in Hin as [? ?]. congruence. }
  split; [|split; [done|]].
  - intros x1 x2 Hx1 Hx2. apply H1 in Hx1.
    apply elem_of_cons in Hx2 as [->|Hx2]; [lia|].
    rewrite Forall_forall in H2. apply H2 in Hx2. lia.
  - by apply StronglySorted_cons.
Qed.

Lemma omap_tag_of_ext σ σ' (cs : list loc) :
  Forall (λ c, tag_of σ' c = tag_of σ c) cs →
  omap (tag_of σ') cs = omap (tag_of σ) cs.
Proof.
  induction 1 as [|c cs Hc _ IH]; csimpl; [done|]. by rewrite Hc, IH.
Qed.

(** One [get_or_add] keeps the children in schema order. *)
Lemma get_or_add_effect_ordered seq s t p c σ σ' :
  closed σ → declared_in seq s → t ∈ candidates s →
  get_or_add_effect s t p c σ σ' →
  schema_ordered seq (child_tags σ p) → schema_ordered seq (child_tags σ' p).
Proof.
  intros Hcl Hdecl Ht [[_ ->]|Heff]; [done|].
  destruct Heff as (Hnone & Hfresh & Htag & Hplaced & Htags & _ & Hp).
  destruct Hp as (nd & nd' & Hp & Hp' & _ & _).
  destruct Hplaced as (l1 & l2 & Hcs & Hcs' & Hl1 & Hl2).
  unfold children_of in Hcs, Hcs'. rewrite Hp in Hcs. rewrite Hp' in Hcs'.
  rewrite (slot_get_eval s p σ nd Hp) in Hnone.
  injection Hnone as Hnone. rewrite find_first_None, Hcs in Hnone.
  assert (Hold : Forall (λ c, c < length σ) (l1 ++ l2)).
  { rewrite <- Hcs. apply Forall_forall. intros c' Hc'. by eapply closed_lookup. }
  assert (Hsame : Forall (λ c, tag_of σ' c = tag_of σ c) (l1 ++ l2)).
  { eapply Forall_impl; [exact Hold|]. simpl. auto. }
  apply Forall_app in Hsame as [Hs1 Hs2].
  apply Forall_app in Hnone as [Hn1 _].
  unfold child_tags. rewrite Hp, Hp', Hcs, Hcs'.
  rewrite !omap_app. csimpl. rewrite Htag.
  rewrite (omap_tag_of_ext σ σ' l1), (omap_tag_of_ext σ σ' l2) by done.
  intros Hord.
  apply schema_ordered_insert with s; try done.
  - apply Forall_forall. intros u Hu.
    apply list_elem_of_omap in Hu as (c1 & Hc1 & Hu).
    rewrite Forall_forall in Hn1, Hl1.
    specialize (Hn1 c1 Hc1). specialize (Hl1 c1 Hc1).
    unfold has_tag in Hn1, Hl1. rewrite Hu in Hn1, Hl1.
    apply bool_decide_eq_false in Hn1, Hl1. done.
  - destruct l2 as [|c2 l2]; [done|]. simpl.
    unfold has_tag in Hl2. destruct (tag_of σ c2) as [u|]; [|done].
    by apply bool_decide_eq_true in Hl2.
Qed.

(** ** The declarations of [shared.py] *)

Lemma declared_inb_correct seq s : declared_inb seq s = true → declared_in seq s.
Proof.
  unfold declared_inb, declared_in. intros Hb.
  apply andb_true_iff in Hb as [Hnd Hb]. apply bool_decide_eq_true in Hnd.
  split; [done|]. destruct (candidates s) as [|t cs] eqn:Hc; [done|].
  destruct (tag_rank seq t) as [lo|]; [|done].
  apply bool_decide_eq_true in Hb. by exists (take lo seq).
Qed.

Section declarations.
Context `{Collaborators}.
Hypothesis Hgrad : constructs "a:gradFill" new_gradFill.

Local Ltac sound_method :=
  split; [apply declared_inb_correct; vm_compute; reflexivity|];
  split; [apply (bool_decide_unpack _); vm_compute; exact I|];
  first [ apply OxmlElement_constructs
        | apply _new_off_constructs
        | apply _new_ext_constructs
        | exact Hgrad ].

Lemma element_types_sound et g :
  et ∈ element_types → g ∈ et_get_or_add et → sound_method (et_tag_seq et) g.
Proof using Hgrad.
  unfold element_types. intros Het Hg.
  repeat (apply elem_of_cons in Het as [->|Het]); [..|by inversion Het];
    simpl in Hg;
    repeat (apply elem_of_cons in Hg as [->|Hg]); try (by inversion Hg);
    sound_method.
Qed.
End declarations.

Lemma get_or_add_effect_is_Some s t p c σ σ' :
  is_Some (σ !! p) → get_or_add_effect s t p c σ σ' → is_Some (σ' !! p).
Proof.
  intros Hp [[_ ->]|(_ & _ & _ & _ & _ & _ & nd & nd' & _ & Hp' & _)]; [done|].
  by eexists.
Qed.

(** A run of sound methods succeeds, places every new child by the ordering
    algorithm, and keeps the children in schema order. *)
Lemma sound_run seq gs p σ :
  Forall (sound_method seq) gs →
  closed σ → is_Some (σ !! p) → schema_ordered seq (child_tags σ p) →
  ∃ σ', call_all gs p σ = Ok (tt, σ') ∧ placed_run gs p σ σ' ∧
    closed σ' ∧ is_Some (σ' !! p) ∧ schema_ordered seq (child_tags σ' p).
Proof.
  intros Hgs. revert σ.
  induction Hgs as [|g gs (Hdecl & Htag & Hnew) _ IH]; intros σ Hcl Hp Hord.
  - by exists σ.
  - destruct (slot_get_or_add_spec _ _ _ p σ Hcl Hp Hnew Htag)
      as (c & σ1 & Hrun & Hcl1 & _ & Heff).
    pose proof (get_or_add_effect_is_Some _ _ _ _ _ _ Hp Heff) as Hp1.
    pose proof (get_or_add_effect_ordered _ _ _ _ _ _ _ Hcl Hdecl Htag Heff Hord)
      as Hord1.
    destruct (IH σ1 Hcl1 Hp1 Hord1) as (σ' & Hall & Hplaced & Hcl' & Hp' & Hord').
    exists σ'. repeat split; try done.
    + simpl. unfold call at 1. by rewrite (bind_Ok _ _ _ _ _ Hrun).
    + simpl. by exists c, σ1.
Qed.

(** C1. For every element class of [shared.py] that declares child slots and
    every sequence of its [get_or_add] methods, run on an element whose
    children are in schema order: all calls succeed, each one either returns
    the occupant of its slot or places the new child immediately before the
    first existing child whose tag is among the slot's successors (at the end
    if there is none), and the children are in schema order afterwards. *)
Theorem get_or_add_schema_order `{Collaborators} et gs p σ :
  constructs "a:gradFill" new_gradFill →
  et ∈ element_types → gs ⊆ et_get_or_add et →
  closed σ → is_Some (σ !! p) →
  schema_ordered (et_tag_seq et) (child_tags σ p) →
  ∃ σ', call_all gs p σ = Ok (tt, σ') ∧ placed_run gs p σ σ' ∧
    schema_ordered (et_tag_seq et) (child_tags σ' p).
Proof.
  intros Hgrad Het Hgs Hcl Hp Hord.
  destruct (sound_run (et_tag_seq et) gs p σ) as (σ' & Hall & Hrun & _ & _ & Hord');
    try done.
  - apply Forall_forall. intros g Hg. apply element_types_sound; auto.
  - by exists σ'.
Qed.

(** ** Structural queries under attribute writes and insertions *)

Lemma skeleton_lookup σ σ' l nd :
  skeleton σ = skeleton σ' → σ !! l = Some nd →
  ∃ nd', σ' !! l = Some nd' ∧ tag nd' = tag nd ∧ children nd' = children nd.
Proof.
  intros Hsk Hl.
  assert (skeleton σ' !! l = Some (tag nd, children nd)) as Hl'.
  { rewrite <- Hsk. unfold skeleton. by rewrite list_lookup_fmap, Hl. }
  unfold skeleton in Hl'. rewrite list_lookup_fmap in Hl'.
  destruct (σ' !! l) as [nd'|]; [|done].
  injection Hl' as Ht Hc. by exists nd'.
Qed.

Lemma skeleton_tag_of σ σ' c : skeleton σ = skeleton σ' → tag_of σ' c = tag_of σ c.
Proof.
  intros Hsk. unfold tag_of.
  assert (fst <$> skeleton σ' !! c = fst <$> skeleton σ !! c) as Hl by (by rewrite Hsk).
  unfold skeleton in Hl. rewrite !list_lookup_fmap in Hl.
  by destruct (σ' !! c), (σ !! c).
Qed.

Lemma skeleton_with_attrib σ l nd a :
  σ !! l = Some nd → skeleton (<[l := with_attrib nd a]> σ) = skeleton σ.
Proof.
  intros Hl. unfold skeleton. rewrite list_fmap_insert. simpl.
  apply list_insert_id. by rewrite list_lookup_fmap, Hl.
Qed.

Lemma skeleton_closed σ σ' : skeleton σ = skeleton σ' → closed σ → closed σ'.
Proof.
  intros Hsk Hcl. unfold closed. apply Forall_forall. intros nd' Hnd'.
  apply list_elem_of_lookup in Hnd' as [l Hl].
  destruct (skeleton_lookup σ' σ l nd' (eq_sym Hsk) Hl) as (nd & Hnd & _ & Hc).
  rewrite <- Hc.
  assert (length σ' = length σ) as ->.
  { by rewrite <- (length_fmap (λ nd, (tag nd, children nd)) σ'),
      <- (length_fmap (λ nd, (tag nd, children nd)) σ); fold (skeleton σ) (skeleton σ');
      rewrite Hsk. }
  apply Forall_forall. intros c Hc'. by eapply closed_lookup.
Qed.

Lemma first_child_found_in_eval q ts σ nd :
  σ !! q = Some nd →
  first_child_found_in q ts σ = Ok (find_first (has_tag σ ts) (children nd), σ).
Proof.
  intros Hq. unfold first_child_found_in.
  by rewrite (bind_Ok _ _ _ _ _ (get_node_Ok _ _ _ Hq)).
Qed.

Lemma first_child_found_in_inv q ts σ o σ' :
  first_child_found_in q ts σ = Ok (o, σ') →
  σ' = σ ∧ ∃ nd, σ !! q = Some nd ∧ o = find_first (has_tag σ ts) (children nd).
Proof.
  unfold first_child_found_in. intros Hg.
  apply bind_Ok_inv in Hg as (nd & σ1 & Hn & Hr).
  unfold get_node in Hn. destruct (σ !! q) as [nd0|] eqn:Hq; [|done].
  injection Hn as <- <-. injection Hr as <- <-. eauto.
Qed.

(** A structural query gives the same answer in a store with the same
    skeleton. *)
Lemma first_child_found_in_skeleton q ts σ σ' o :
  skeleton σ = skeleton σ' →
  first_child_found_in q ts σ = Ok (o, σ) →
  first_child_found_in q ts σ' = Ok (o, σ').
Proof.
  intros Hsk Hq. apply first_child_found_in_inv in Hq as (_ & nd & Hq & ->).
  destruct (skeleton_lookup _ _ _ _ Hsk Hq) as (nd' & Hq' & _ & Hc).
  rewrite (first_child_found_in_eval q ts σ' nd' Hq'), Hc. f_equal. f_equal.
  apply find_first_ext, Forall_forall. intros c _.
  unfold has_tag. by rewrite (skeleton_tag_of σ σ').
Qed.

Lemma find_first_insert_false f l1 n l2 :
  f n = false → find_first f (l1 ++ n :: l2) = find_first f (l1 ++ l2).
Proof.
  intros Hn. induction l1 as [|c l1 IH]; simpl; [by rewrite Hn|].
  by rewrite IH.
Qed.

(** A structural query for other tags than the one [get_or_add] asked for
    gives the same answer after the call. *)
Lemma first_child_found_in_effect s t p c σ σ' q ts o :
  closed σ → get_or_add_effect s t p c σ σ' → t ∉ ts →
  first_child_found_in q ts σ = Ok (o, σ) →
  first_child_found_in q ts σ' = Ok (o, σ').
Proof.
  intros Hcl [[_ ->]|Heff] Ht Hq; [done|].
  destruct Heff as (_ & Hfresh & Htag & Hplaced & Htags & Hother & Hp).
  destruct Hp as (nd & nd' & Hp & Hp' & _ & _).
  apply first_child_found_in_inv in Hq as (_ & ndq & Hq & ->).
  assert (Hold : Forall (λ c, c < length σ) (children ndq)).
  { apply Forall_forall. intros c' Hc'. by eapply closed_lookup. }
  assert (Hsame : Forall (λ c, has_tag σ' ts c = has_tag σ ts c) (children ndq)).
  { eapply Forall_impl; [exact Hold|]. simpl. intros c' Hc'.
    unfold has_tag. by rewrite Htags. }
  destruct (decide (q = p)) as [->|Hne].
  - rewrite (first_child_found_in_eval p ts σ' nd' Hp'). f_equal. f_equal.
    destruct Hplaced as (l1 & l2 & Hcs & Hcs' & _).
    unfold children_of in Hcs, Hcs'. rewrite Hp in Hcs. rewrite Hp' in Hcs'.
    assert (ndq = nd) as -> by congruence.
    rewrite Hcs', find_first_insert_false.
    + rewrite <- Hcs. by apply find_first_ext.
    + unfold has_tag. rewrite Htag. by apply bool_decide_eq_false.
  - assert (σ' !! q = Some ndq) as Hq'.
    { rewrite Hother; [done| by eapply lookup_lt_Some | done]. }
    rewrite (first_child_found_in_eval q ts σ' ndq Hq'). f_equal. f_equal.
    by apply find_first_ext.
Qed.

(** The element a [get_or_add] on an empty slot returns is the one its
    constructor made, as the constructor made it. *)
Lemma slot_get_or_add_fresh s new t p σ n σ1 c σ' :
  constructs t new → slot_get s p σ = Ok (None, σ) → new σ = Ok (n, σ1) →
  slot_get_or_add s new p σ = Ok (c, σ') →
  c = n ∧ σ' !! n = σ1 !! n.
Proof.
  intros Hnew Hget Hn Hrun.
  destruct (Hnew σ) as (n' & σ1' & Hn' & Hpre & Hfresh & _).
  rewrite Hn in Hn'. injection Hn' as <- <-.
  unfold slot_get_or_add in Hrun.
  rewrite (bind_Ok _ _ _ _ _ Hget), (bind_Ok _ _ _ _ _ Hn) in Hrun.
  apply first_child_found_in_inv in Hget as (_ & nd & Hp & _).
  pose proof (lookup_prefix _ _ _ _ Hpre Hp) as Hp1.
  rewrite (bind_Ok _ _ _ _ _ (insert_element_before_eval p n _ σ1 nd Hp1)) in Hrun.
  injection Hrun as <- <-. split; [done|].
  apply list_lookup_insert_ne. apply lookup_lt_Some in Hp. lia.
Qed.

(** C5. Idempotence of [get_or_add]: on every slot, with every constructor of
    one of its candidate tags and from every store, the call succeeds and
    returns the occupant of the slot: the element that was there, with the
    store untouched, or else a new element of the requested tag placed by the
    ordering algorithm; after the call that element is what the slot holds.
    A second call in a row returns the very same element and leaves the whole
    store, hence the occupant and the order of the parent's children, as the
    first call left it. *)
Theorem get_or_add_idempotent s new t p σ :
  closed σ → is_Some (σ !! p) → constructs t new → t ∈ candidates s →
  ∃ c σ', slot_get_or_add s new p σ = Ok (c, σ') ∧
    get_or_add_effect s t p c σ σ' ∧
    slot_get s p σ' = Ok (Some c, σ') ∧
    c ∈ children_of σ' p ∧
    slot_get_or_add s new p σ' = Ok (c, σ') ∧
    (∀ c2 σ2, slot_get_or_add s new p σ' = Ok (c2, σ2) →
       c2 = c ∧ σ2 !! c = σ' !! c ∧ children_of σ2 p = children_of σ' p).
Proof.
  intros Hcl Hp Hnew Ht.
  destruct (slot_get_or_add_spec s new t p σ Hcl Hp Hnew Ht)
    as (c & σ' & Hrun & _ & Hget & Heff).
  pose proof (slot_get_or_add_present s new p σ' c Hget) as Hrun'.
  exists c, σ'. do 3 (split; [done|]). split; [|split; [done|]].
  - apply first_child_found_in_inv in Hget as (_ & nd & Hnd & Hfind).
    symmetry in Hfind. apply find_first_Some in Hfind as (l1 & l2 & Hcs & _).
    unfold children_of. rewrite Hnd, Hcs. apply elem_of_app. right. left.
  - intros c2 σ2 Hrun2. rewrite Hrun' in Hrun2. by injection Hrun2 as <- <-.
Qed.

(** ** Choice slots *)

Lemma filter_find_first f cs c :
  find_first f cs = Some c → ∃ rest, List.filter f cs = c :: rest.
Proof.
  induction cs as [|c' cs IH]; simpl; [done|].
  destruct (f c') eqn:Hf.
  - intros [= ->]. by eexists.
  - apply IH.
Qed.

Lemma filter_all_false (f : loc → bool) cs :
  Forall (λ c, f c = false) cs → List.filter f cs = [].
Proof.
  induction 1 as [|c cs Hc _ IH]; simpl; [done|]. by rewrite Hc.
Qed.

(** After a [get_or_add], a slot that held at most one child holds exactly
    the returned one. *)
Lemma get_or_add_effect_occupants s t p c σ σ' :
  closed σ → t ∈ candidates s → get_or_add_effect s t p c σ σ' →
  length (occupants s σ p) ≤ 1 → occupants s σ' p = [c].
Proof.
  intros Hcl Ht [[Hget ->]|Heff] Hone.
  - apply first_child_found_in_inv in Hget as (_ & nd & Hp & Hfind).
    unfold occupants, children_of in *. rewrite Hp in *.
    destruct (filter_find_first _ _ _ (eq_sym Hfind)) as [rest Hrest].
    rewrite Hrest in Hone |- *. simpl in Hone.
    destruct rest; [done|simpl in Hone; lia].
  - destruct Heff as (Hget & _ & Htag & Hplaced & Htags & _ & Hp).
    destruct Hp as (nd & nd' & Hp & Hp' & _ & _).
    apply first_child_found_in_inv in Hget as (_ & nd0 & Hp0 & Hfind).
    assert (nd0 = nd) as -> by congruence. symmetry in Hfind.
    rewrite find_first_None in Hfind.
    destruct Hplaced as (l1 & l2 & Hcs & Hcs' & _).
    unfold occupants. rewrite Hcs'.
    unfold children_of in Hcs. rewrite Hp in Hcs. rewrite Hcs in Hfind.
    assert (Hfalse : Forall (λ c, has_tag σ' (candidates s) c = false) (l1 ++ l2)).
    { apply Forall_forall. intros c' Hc'.
      rewrite Forall_forall in Hfind. rewrite <- (Hfind c' Hc').
      unfold has_tag. rewrite Htags; [done|].
      eapply closed_lookup; [done..|]. by rewrite Hcs. }
    apply Forall_app in Hfalse as [Hf1 Hf2].
    rewrite List.filter_app. simpl.
    rewrite (filter_all_false _ l1 Hf1), (filter_all_false _ l2 Hf2).
    unfold has_tag. rewrite Htag. by rewrite bool_decide_eq_true_2.
Qed.

(** C3. Choice exclusivity: on every slot, after a [get_or_add] for one
    candidate, a [get_or_add] on the same slot for another candidate,
    whatever its constructor [new2], returns the element that is already
    there and leaves the store as it is, so no second child is made; and a
    slot that held at most one child of its candidate set holds exactly the
    one returned. *)
Theorem choice_get_or_add_exclusive s new1 t1 new2 p σ :
  closed σ → is_Some (σ !! p) →
  constructs t1 new1 → t1 ∈ candidates s →
  ∃ c σ', slot_get_or_add s new1 p σ = Ok (c, σ') ∧
    slot_get_or_add s new2 p σ' = Ok (c, σ') ∧
    (length (occupants s σ p) ≤ 1 → occupants s σ' p = [c]).
Proof.
  intros Hcl Hp Hnew1 Ht1.
  destruct (slot_get_or_add_spec s new1 t1 p σ Hcl Hp Hnew1 Ht1)
    as (c & σ' & Hrun & _ & Hget & Heff).
  exists c, σ'. split; [done|]. split; [by apply slot_get_or_add_present|].
  by apply get_or_add_effect_occupants with t1.
Qed.

(** ** Reading through a shape element *)

Section reads.
Context `{Collaborators}.

Lemma optional_attr_absent name c d l σ :
  get l name σ = Ok (None, σ) →
  attr_get (OptionalAttribute name c d) l σ = Ok (d, σ).
Proof. intros Hg. unfold attr_get. by rewrite (bind_Ok _ _ _ _ _ Hg). Qed.

(** C2. Null propagation.  On a shape whose [a:xfrm] is absent, [x], [y],
    [cx] and [cy] read [None], [rot] reads [0.0] and [flipH], [flipV] read
    [False].  On a shape whose [a:xfrm] is present, [x] and [y] read [None]
    when its [a:off] is absent, [cx] and [cy] read [None] when its [a:ext] is
    absent, and [rot], [flipH], [flipV] read [0.0], [False], [False] when the
    attribute of that name is absent. *)
Theorem geometry_reads_null_or_default self σ :
  (BaseShapeElement.xfrm self σ = Ok (None, σ) →
   BaseShapeElement.x self σ = Ok (None, σ) ∧
   BaseShapeElement.y self σ = Ok (None, σ) ∧
   BaseShapeElement.cx self σ = Ok (None, σ) ∧
   BaseShapeElement.cy self σ = Ok (None, σ) ∧
   BaseShapeElement.rot self σ = Ok (Some (VFloat PrimFloat.zero), σ) ∧
   BaseShapeElement.flipH self σ = Ok (false, σ) ∧
   BaseShapeElement.flipV self σ = Ok (false, σ)) ∧
  (∀ xfrm, BaseShapeElement.xfrm self σ = Ok (Some xfrm, σ) →
   (CT_Transform2D.off xfrm σ = Ok (None, σ) →
    BaseShapeElement.x self σ = Ok (None, σ) ∧
    BaseShapeElement.y self σ = Ok (None, σ)) ∧
   (CT_Transform2D.ext xfrm σ = Ok (None, σ) →
    BaseShapeElement.cx self σ = Ok (None, σ) ∧
    BaseShapeElement.cy self σ = Ok (None, σ)) ∧
   (get xfrm "rot" σ = Ok (None, σ) →
    BaseShapeElement.rot self σ = Ok (Some (VFloat PrimFloat.zero), σ)) ∧
   (get xfrm "flipH" σ = Ok (None, σ) →
    BaseShapeElement.flipH self σ = Ok (false, σ)) ∧
   (get xfrm "flipV" σ = Ok (None, σ) →
    BaseShapeElement.flipV self σ = Ok (false, σ))).
Proof.
  split.
  - intros Hx.
    unfold BaseShapeElement.x, BaseShapeElement.y, BaseShapeElement.cx,
      BaseShapeElement.cy, BaseShapeElement.rot, BaseShapeElement.flipH,
      BaseShapeElement.flipV, BaseShapeElement._get_xfrm_attr.
    repeat split; try by rewrite (bind_Ok _ _ _ _ _ Hx).
    + by rewrite (bind_Ok _ _ _ _ _ (bind_Ok _ _ _ _ _ Hx)).
    + by rewrite (bind_Ok _ _ _ _ _ (bind_Ok _ _ _ _ _ Hx)).
  - intros xfrm Hx.
    unfold BaseShapeElement.x, BaseShapeElement.y, BaseShapeElement.cx,
      BaseShapeElement.cy, BaseShapeElement.rot, BaseShapeElement.flipH,
      BaseShapeElement.flipV, BaseShapeElement._get_xfrm_attr.
    split; [|split; [|split; [|split]]].
    + intros Hoff. split.
      * rewrite (bind_Ok _ _ _ _ _ Hx). cbn.
        unfold CT_Transform2D.x. by rewrite (bind_Ok _ _ _ _ _ Hoff).
      * rewrite (bind_Ok _ _ _ _ _ Hx). cbn.
        unfold CT_Transform2D.y. by rewrite (bind_Ok _ _ _ _ _ Hoff).
    + intros Hext. split.
      * rewrite (bind_Ok _ _ _ _ _ Hx). cbn.
        unfold CT_Transform2D.cx. by rewrite (bind_Ok _ _ _ _ _ Hext).
      * rewrite (bind_Ok _ _ _ _ _ Hx). cbn.
        unfold CT_Transform2D.cy. by rewrite (bind_Ok _ _ _ _ _ Hext).
    + intros Hr. rewrite (bind_Ok _ _ _ _ _ Hx).
      unfold CT_Transform2D.rot.
      rewrite (bind_Ok _ _ _ _ _ (optional_attr_absent _ _ _ _ _ Hr)).
      by apply optional_attr_absent.
    + intros Hr.
      assert (CT_Transform2D.getattr xfrm "flipH" σ = Ok (Some (VBool false), σ)) as Hg.
      { cbn. by apply optional_attr_absent. }
      rewrite (bind_Ok _ _ _ _ _ (eq_trans (bind_Ok _ _ _ _ _ Hx) Hg)). done.
    + intros Hr.
      assert (CT_Transform2D.getattr xfrm "flipV" σ = Ok (Some (VBool false), σ)) as Hg.
      { cbn. by apply optional_attr_absent. }
      rewrite (bind_Ok _ _ _ _ _ (eq_trans (bind_Ok _ _ _ _ _ Hx) Hg)). done.
Qed.

(** C6. The typed placeholder accessors.  When the path
    [./*[1]/p:nvPr/p:ph] finds no element, each of [ph_type], [ph_orient],
    [ph_sz] and [ph_idx] raises [ValueError("not a placeholder shape")];
    when it finds the [p:ph] element, each returns what the attribute of
    that name reads on it. *)
Theorem placeholder_accessors self σ :
  (BaseShapeElement.ph self σ = Ok (None, σ) →
   BaseShapeElement.ph_type self σ = Raise (ValueError "not a placeholder shape") ∧
   BaseShapeElement.ph_orient self σ = Raise (ValueError "not a placeholder shape") ∧
   BaseShapeElement.ph_sz self σ = Raise (ValueError "not a placeholder shape") ∧
   BaseShapeElement.ph_idx self σ = Raise (ValueError "not a placeholder shape")) ∧
  (∀ ph, BaseShapeElement.ph self σ = Ok (Some ph, σ) →
   BaseShapeElement.ph_type self σ = attr_get CT_Placeholder.type ph σ ∧
   BaseShapeElement.ph_orient self σ = attr_get CT_Placeholder.orient ph σ ∧
   BaseShapeElement.ph_sz self σ = attr_get CT_Placeholder.sz ph σ ∧
   BaseShapeElement.ph_idx self σ = attr_get CT_Placeholder.idx ph σ).
Proof.
  unfold BaseShapeElement.ph_type, BaseShapeElement.ph_orient,
    BaseShapeElement.ph_sz, BaseShapeElement.ph_idx.
  split.
  - intros Hph. by rewrite !(bind_Ok _ _ _ _ _ Hph).
  - intros ph Hph. by rewrite !(bind_Ok _ _ _ _ _ Hph).
Qed.

(** C7. On a shape whose [p:ph] element has no [idx] attribute, [ph_idx]
    returns 0, the default of the attribute, and does not raise. *)
Theorem placeholder_idx_default self ph σ :
  BaseShapeElement.ph self σ = Ok (Some ph, σ) →
  get ph "idx" σ = Ok (None, σ) →
  BaseShapeElement.ph_idx self σ = Ok (Some (VInt 0), σ).
Proof.
  intros Hph Hidx. unfold BaseShapeElement.ph_idx.
  rewrite (bind_Ok _ _ _ _ _ Hph).
  by apply optional_attr_absent.
Qed.

End reads.

(** ** Writing through a shape element *)

Lemma first_child_found_in_allocated q ts σ c :
  closed σ → first_child_found_in q ts σ = Ok (Some c, σ) → is_Some (σ !! c).
Proof.
  intros Hcl Hq. apply first_child_found_in_inv in Hq as (_ & nd & Hq & Hfind).
  symmetry in Hfind. apply find_first_Some in Hfind as (l1 & l2 & Hcs & _).
  apply lookup_lt_is_Some. eapply closed_lookup; [done..|].
  rewrite Hcs. set_solver.
Qed.

Lemma OneAndOnlyOne_inv t p σ c σ' :
  OneAndOnlyOne t p σ = Ok (c, σ') →
  σ' = σ ∧ first_child_found_in p [t] σ = Ok (Some c, σ).
Proof.
  unfold OneAndOnlyOne, find. intros Hr.
  apply bind_Ok_inv in Hr as (o & σ1 & Hq & Hr).
  pose proof (first_child_found_in_inv _ _ _ _ _ Hq) as [-> _].
  destruct o as [c'|]; [|done]. by injection Hr as <- <-.
Qed.

Lemma OneAndOnlyOne_Ok t p σ c :
  first_child_found_in p [t] σ = Ok (Some c, σ) → OneAndOnlyOne t p σ = Ok (c, σ).
Proof. intros Hq. unfold OneAndOnlyOne, find. by rewrite (bind_Ok _ _ _ _ _ Hq). Qed.

(** A structural query for other tags than the one asked for is not
    disturbed by a [get_or_add] followed by attribute writes. *)
Lemma first_child_found_in_stable s t p c σ σ1 σ2 q ts o :
  closed σ → get_or_add_effect s t p c σ σ1 → skeleton σ1 = skeleton σ2 →
  t ∉ ts →
  first_child_found_in q ts σ = Ok (o, σ) →
  first_child_found_in q ts σ2 = Ok (o, σ2).
Proof.
  intros Hcl Heff Hsk Ht Hq.
  apply (first_child_found_in_skeleton q ts σ1 σ2 o Hsk).
  by apply (first_child_found_in_effect s t p c σ σ1).
Qed.

(** [get_or_add] on a slot followed by a write of an attribute of the
    element it returns. *)
Lemma get_or_add_then_set s new t a p v σ :
  closed σ → is_Some (σ !! p) → constructs t new → t ∈ candidates s →
  ∃ c ndc σ1 σ2,
    slot_get_or_add s new p σ = Ok (c, σ1) ∧ closed σ1 ∧
    get_or_add_effect s t p c σ σ1 ∧ σ1 !! c = Some ndc ∧
    (c ← slot_get_or_add s new p; attr_set a c v) σ = Ok (tt, σ2) ∧
    closed σ2 ∧ skeleton σ1 = skeleton σ2 ∧
    slot_get s p σ2 = Ok (Some c, σ2) ∧
    σ2 !! c = Some (with_attrib ndc (attr_write a v (attrib ndc))).
Proof.
  intros Hcl Hp Hnew Ht.
  destruct (slot_get_or_add_spec s new t p σ Hcl Hp Hnew Ht)
    as (c & σ1 & Hrun & Hcl1 & Hget & Heff).
  destruct (first_child_found_in_allocated _ _ _ _ Hcl1 Hget) as [ndc Hc].
  set (σ2 := <[c := with_attrib ndc (attr_write a v (attrib ndc))]> σ1).
  assert (Hsk : skeleton σ1 = skeleton σ2).
  { symmetry. by apply skeleton_with_attrib. }
  exists c, ndc, σ1, σ2. repeat split; try done.
  - rewrite (bind_Ok _ _ _ _ _ Hrun). by apply attr_set_eval.
  - by apply (skeleton_closed σ1).
  - by apply (first_child_found_in_skeleton p _ σ1 σ2).
  - apply list_lookup_insert_eq. by eapply lookup_lt_Some.
Qed.

Lemma slot_get_no_children s p σ nd :
  σ !! p = Some nd → children nd = [] → slot_get s p σ = Ok (None, σ).
Proof. intros Hp Hc. rewrite (slot_get_eval s p σ nd Hp). by rewrite Hc. Qed.

Section writes.
Context `{Collaborators}.

Lemma shape_xfrm_eval self sp σ o :
  first_child_found_in self ["p:spPr"] σ = Ok (Some sp, σ) →
  first_child_found_in sp ["a:xfrm"] σ = Ok (o, σ) →
  BaseShapeElement.xfrm self σ = Ok (o, σ).
Proof.
  intros Hsp Hx. unfold BaseShapeElement.xfrm.
  by rewrite (bind_Ok _ _ _ _ _ (OneAndOnlyOne_Ok _ _ _ _ Hsp)).
Qed.

Lemma shape_xfrm_inv self σ o :
  BaseShapeElement.xfrm self σ = Ok (o, σ) →
  ∃ sp, first_child_found_in self ["p:spPr"] σ = Ok (Some sp, σ) ∧
    first_child_found_in sp ["a:xfrm"] σ = Ok (o, σ).
Proof.
  unfold BaseShapeElement.xfrm. intros Hx.
  apply bind_Ok_inv in Hx as (sp & σ1 & Hsp & Hx).
  apply OneAndOnlyOne_inv in Hsp as [-> Hsp]. by exists sp.
Qed.

(** [get_or_add_xfrm] on a shape: the transform is there afterwards; it is
    the one that was there, or a new [a:xfrm] without children. *)
Lemma shape_get_or_add_xfrm self σ o :
  closed σ → BaseShapeElement.xfrm self σ = Ok (o, σ) →
  ∃ sp xfrm σ1,
    BaseShapeElement.get_or_add_xfrm self σ = Ok (xfrm, σ1) ∧ closed σ1 ∧
    get_or_add_effect CT_ShapeProperties.xfrm_slot "a:xfrm" sp xfrm σ σ1 ∧
    first_child_found_in self ["p:spPr"] σ1 = Ok (Some sp, σ1) ∧
    first_child_found_in sp ["a:xfrm"] σ1 = Ok (Some xfrm, σ1) ∧
    match o with
    | Some xfrm0 => xfrm = xfrm0 ∧ σ1 = σ
    | None => length σ ≤ xfrm ∧ σ1 !! xfrm = Some (Node "a:xfrm" ∅ [])
    end.
Proof.
  intros Hcl Hx. apply shape_xfrm_inv in Hx as (sp & Hsp & Hx).
  assert (is_Some (σ !! sp)) as Hsp' by (by eapply first_child_found_in_allocated).
  destruct (slot_get_or_add_spec CT_ShapeProperties.xfrm_slot (OxmlElement "a:xfrm")
              "a:xfrm" sp σ Hcl Hsp' (OxmlElement_constructs _))
    as (xfrm & σ1 & Hrun & Hcl1 & Hget & Heff).
  { apply list_elem_of_singleton. done. }
  exists sp, xfrm, σ1. repeat split; try done.
  - unfold BaseShapeElement.get_or_add_xfrm.
    by rewrite (bind_Ok _ _ _ _ _ (OneAndOnlyOne_Ok _ _ _ _ Hsp)).
  - apply (first_child_found_in_effect _ _ _ _ _ _ _ _ _ Hcl Heff); [|done].
    rewrite list_elem_of_singleton. done.
  - destruct o as [xfrm0|].
    + pose proof (slot_get_or_add_present CT_ShapeProperties.xfrm_slot
                    (OxmlElement "a:xfrm") sp σ xfrm0 Hx) as Hrun'.
      rewrite Hrun in Hrun'. by injection Hrun' as -> ->.
    + assert (OxmlElement "a:xfrm" σ = Ok (length σ, σ ++ [Node "a:xfrm" ∅ []])) as Hn
        by done.
      destruct (slot_get_or_add_fresh CT_ShapeProperties.xfrm_slot _ _ sp σ _ _ _ _
                  (OxmlElement_constructs "a:xfrm") Hx Hn Hrun) as [-> Hsame].
      split; [done|]. rewrite Hsame. by apply list_lookup_middle.
Qed.

Lemma children_of_skeleton σ σ' p :
  skeleton σ = skeleton σ' → children_of σ' p = children_of σ p.
Proof.
  intros Hsk. unfold children_of.
  assert (snd <$> skeleton σ' !! p = snd <$> skeleton σ !! p) as Hl by (by rewrite Hsk).
  unfold skeleton in Hl. rewrite !list_lookup_fmap in Hl.
  destruct (σ' !! p), (σ !! p); simpl in Hl; congruence.
Qed.

(** Writing an attribute of the transform through a shape: [rot], [flipH],
    [flipV]. *)
Lemma shape_set_xfrm_attr a self v σ o :
  closed σ → BaseShapeElement.xfrm self σ = Ok (o, σ) →
  ∃ xfrm σ',
    (xfrm ← BaseShapeElement.get_or_add_xfrm self; attr_set a xfrm v) σ
      = Ok (tt, σ') ∧
    BaseShapeElement.xfrm self σ' = Ok (Some xfrm, σ') ∧
    (o = None → length σ ≤ xfrm).
Proof.
  intros Hcl Hx.
  destruct (shape_get_or_add_xfrm self σ o Hcl Hx)
    as (sp & xfrm & σ1 & Hrun & Hcl1 & Heff & Hsp1 & Hx1 & Ho).
  destruct (first_child_found_in_allocated _ _ _ _ Hcl1 Hx1) as [ndx Hndx].
  exists xfrm, (<[xfrm := with_attrib ndx (attr_write a v (attrib ndx))]> σ1).
  pose proof (skeleton_with_attrib σ1 xfrm ndx (attr_write a v (attrib ndx)) Hndx) as Hsk.
  symmetry in Hsk. repeat split.
  - rewrite (bind_Ok _ _ _ _ _ Hrun). by apply attr_set_eval.
  - apply shape_xfrm_eval with sp;
      by apply (first_child_found_in_skeleton _ _ σ1).
  - intros ->. by destruct Ho.
Qed.

(** Writing an attribute of a child of the transform through a shape: [x]
    and [y] on [a:off], [cx] and [cy] on [a:ext]. *)
Lemma shape_set_child_attr s new t a self v σ o :
  closed σ → BaseShapeElement.xfrm self σ = Ok (o, σ) →
  constructs t new → t ∈ candidates s → t ≠ "p:spPr" → t ≠ "a:xfrm" →
  ∃ xfrm c ndc σ1 σ',
    (xfrm ← BaseShapeElement.get_or_add_xfrm self;
     c ← slot_get_or_add s new xfrm; attr_set a c v) σ = Ok (tt, σ') ∧
    BaseShapeElement.get_or_add_xfrm self σ = Ok (xfrm, σ1) ∧
    match o with
    | Some xfrm0 => xfrm = xfrm0 ∧ σ1 = σ
    | None => length σ ≤ xfrm ∧ σ1 !! xfrm = Some (Node "a:xfrm" ∅ [])
    end ∧
    closed σ' ∧
    BaseShapeElement.xfrm self σ' = Ok (Some xfrm, σ') ∧
    slot_get s xfrm σ' = Ok (Some c, σ') ∧
    σ' !! c = Some (with_attrib ndc (attr_write a v (attrib ndc))) ∧
    (slot_get s xfrm σ1 = Ok (None, σ1) →
     placed_before_first (has_tag σ1 (successors s)) c
       (children_of σ1 xfrm) (children_of σ' xfrm) ∧
     ∃ σn, new σ1 = Ok (c, σn) ∧ σn !! c = Some ndc).
Proof.
  intros Hcl Hx Hnew Ht Hsp Hxf.
  destruct (shape_get_or_add_xfrm self σ o Hcl Hx)
    as (sp & xfrm & σ1 & Hrun & Hcl1 & Heff & Hsp1 & Hx1 & Ho).
  pose proof (first_child_found_in_allocated _ _ _ _ Hcl1 Hx1) as Hndx.
  destruct (get_or_add_then_set s new t a xfrm v σ1 Hcl1 Hndx Hnew Ht)
    as (c & ndc & σ2 & σ3 & Hrun2 & Hcl2 & Heff2 & Hc & Hset & Hcl3 & Hsk & Hget3 & Hc3).
  exists xfrm, c, ndc, σ1, σ3.
  split; [by rewrite (bind_Ok _ _ _ _ _ Hrun)|].
  do 3 (split; [done|]). split; [|split; [done|split; [done|]]].
  - apply shape_xfrm_eval with sp.
    + apply (first_child_found_in_stable _ _ _ _ _ _ _ _ _ _ Hcl1 Heff2 Hsk); [|done].
      by rewrite list_elem_of_singleton.
    + apply (first_child_found_in_stable _ _ _ _ _ _ _ _ _ _ Hcl1 Heff2 Hsk); [|done].
      by rewrite list_elem_of_singleton.
  - intros Hnone. split.
    + rewrite (children_of_skeleton σ2 σ3) by done.
      destruct Heff2 as [[Hocc _]|Heff2]; [congruence|].
      by destruct Heff2 as (_ & _ & _ & Hplaced & _).
    + destruct (Hnew σ1) as (n & σn & Hn & _).
      destruct (slot_get_or_add_fresh s new t xfrm σ1 n σn c σ2 Hnew Hnone Hn Hrun2)
        as [-> Hsame].
      exists σn. split; [done|]. by rewrite <- Hsame.
Qed.

(** The same when the slot under the transform is empty (no transform, or a
    transform without that child) and the constructor allocates the one
    element [nd0]: the new child is [nd0] with the attribute written, placed
    by the ordering algorithm. *)
Lemma shape_add_child_set s new t nd0 a self v σ o :
  closed σ → BaseShapeElement.xfrm self σ = Ok (o, σ) →
  constructs t new → (∀ σ, new σ = Ok (length σ, σ ++ [nd0])) →
  t ∈ candidates s → t ≠ "p:spPr" → t ≠ "a:xfrm" →
  match o with
  | Some xfrm0 => slot_get s xfrm0 σ = Ok (None, σ)
  | None => True
  end →
  ∃ xfrm c σ1 σ',
    (xfrm ← BaseShapeElement.get_or_add_xfrm self;
     c ← slot_get_or_add s new xfrm; attr_set a c v) σ = Ok (tt, σ') ∧
    BaseShapeElement.get_or_add_xfrm self σ = Ok (xfrm, σ1) ∧
    match o with
    | Some xfrm0 => xfrm = xfrm0 ∧ σ1 = σ
    | None => length σ ≤ xfrm ∧ σ1 !! xfrm = Some (Node "a:xfrm" ∅ [])
    end ∧
    closed σ' ∧
    BaseShapeElement.xfrm self σ' = Ok (Some xfrm, σ') ∧
    slot_get s xfrm σ' = Ok (Some c, σ') ∧
    σ' !! c = Some (with_attrib nd0 (attr_write a v (attrib nd0))) ∧
    placed_before_first (has_tag σ1 (successors s)) c
      (children_of σ1 xfrm) (children_of σ' xfrm) ∧
    c = length σ1 ∧ length σ ≤ length σ1.
Proof.
  intros Hcl Hx Hnew Heval Ht Hsp Hxf Hempty.
  destruct (shape_set_child_attr s new t a self v σ o Hcl Hx Hnew Ht Hsp Hxf)
    as (xfrm & c & ndc & σ1 & σ' & Hrun & Hga & Ho & Hcl' & Hx' & Hget' & Hc' & Hadd).
  assert (slot_get s xfrm σ1 = Ok (None, σ1)) as Hnone.
  { destruct o as [xfrm0|].
    - by destruct Ho as [-> ->].
    - destruct Ho as [_ Hndx]. by apply slot_get_no_children with (Node "a:xfrm" ∅ []). }
  destruct (Hadd Hnone) as (Hplaced & σn & Hn & Hndc).
  rewrite Heval in Hn. injection Hn as <- <-.
  rewrite list_lookup_middle in Hndc by done. injection Hndc as <-.
  exists xfrm, (length σ1), σ1, σ'. repeat split; try done.
  destruct o as [xfrm0|].
  - by destruct Ho as [_ ->].
  - destruct Ho as [Hfresh Hndx]. apply lookup_lt_Some in Hndx. lia.
Qed.

(** What the getters of a shape read, given where the path leads. *)
Lemma shape_read_via s a self xfrm c nd σ (getter : loc → M (option value)) :
  (∀ xfrm, getter xfrm = (c ← slot_get s xfrm;
                          match c with
                          | None => mret None
                          | Some c => attr_get a c
                          end)) →
  BaseShapeElement.xfrm self σ = Ok (Some xfrm, σ) →
  slot_get s xfrm σ = Ok (Some c, σ) → σ !! c = Some nd →
  (xfrm ← BaseShapeElement.xfrm self;
   match xfrm with
   | None => mret None
   | Some xfrm => getter xfrm
   end) σ = match attr_read a nd with
            | Ok v => Ok (v, σ)
            | Raise e => Raise e
            end.
Proof.
  intros Hgetter Hx Hc Hnd. rewrite (bind_Ok _ _ _ _ _ Hx), Hgetter.
  rewrite (bind_Ok _ _ _ _ _ Hc). by apply attr_get_eval.
Qed.

Lemma shape_x_read self xfrm c nd σ :
  BaseShapeElement.xfrm self σ = Ok (Some xfrm, σ) →
  CT_Transform2D.off xfrm σ = Ok (Some c, σ) → σ !! c = Some nd →
  BaseShapeElement.x self σ = match attr_read CT_Point2D.x nd with
                              | Ok v => Ok (v, σ)
                              | Raise e => Raise e
                              end.
Proof. by apply (shape_read_via CT_Transform2D.off_slot CT_Point2D.x). Qed.

Lemma shape_y_read self xfrm c nd σ :
  BaseShapeElement.xfrm self σ = Ok (Some xfrm, σ) →
  CT_Transform2D.off xfrm σ = Ok (Some c, σ) → σ !! c = Some nd →
  BaseShapeElement.y self σ = match attr_read CT_Point2D.y nd with
                              | Ok v => Ok (v, σ)
                              | Raise e => Raise e
                              end.
Proof. by apply (shape_read_via CT_Transform2D.off_slot CT_Point2D.y). Qed.

Lemma shape_cx_read self xfrm c nd σ :
  BaseShapeElement.xfrm self σ = Ok (Some xfrm, σ) →
  CT_Transform2D.ext xfrm σ = Ok (Some c, σ) → σ !! c = Some nd →
  BaseShapeElement.cx self σ = match attr_read CT_PositiveSize2D.cx nd with
                               | Ok v => Ok (v, σ)
                               | Raise e => Raise e
                               end.
Proof. by apply (shape_read_via CT_Transform2D.ext_slot CT_PositiveSize2D.cx). Qed.

Lemma shape_cy_read self xfrm c nd σ :
  BaseShapeElement.xfrm self σ = Ok (Some xfrm, σ) →
  CT_Transform2D.ext xfrm σ = Ok (Some c, σ) → σ !! c = Some nd →
  BaseShapeElement.cy self σ = match attr_read CT_PositiveSize2D.cy nd with
                               | Ok v => Ok (v, σ)
                               | Raise e => Raise e
                               end.
Proof. by apply (shape_read_via CT_Transform2D.ext_slot CT_PositiveSize2D.cy). Qed.

(** C10. On a shape without [a:xfrm], each of the setters [rot], [flipH],
    [flipV], [x], [y], [cx], [cy] succeeds for every value, also the default
    of the attribute, and leaves the shape with a newly made [a:xfrm]. *)
Theorem setters_materialize_xfrm self v σ set :
  closed σ → BaseShapeElement.xfrm self σ = Ok (None, σ) →
  set ∈ [BaseShapeElement.set_rot; BaseShapeElement.set_flipH;
         BaseShapeElement.set_flipV; BaseShapeElement.set_x;
         BaseShapeElement.set_y; BaseShapeElement.set_cx;
         BaseShapeElement.set_cy] →
  ∃ xfrm σ', set self v σ = Ok (tt, σ') ∧ length σ ≤ xfrm ∧
    BaseShapeElement.xfrm self σ' = Ok (Some xfrm, σ').
Proof.
  intros Hcl Hx Hset.
  assert (Hattr : ∀ a, ∃ xfrm σ',
    (xfrm ← BaseShapeElement.get_or_add_xfrm self; attr_set a xfrm v) σ
      = Ok (tt, σ') ∧ length σ ≤ xfrm ∧
    BaseShapeElement.xfrm self σ' = Ok (Some xfrm, σ')).
  { intros a. destruct (shape_set_xfrm_attr a self v σ None Hcl Hx)
      as (xfrm & σ' & Hrun & Hx' & Hfresh).
    exists xfrm, σ'. auto. }
  assert (Hchild : ∀ s new t a, constructs t new → t ∈ candidates s →
    t ≠ "p:spPr" → t ≠ "a:xfrm" → ∃ xfrm σ',
    (xfrm ← BaseShapeElement.get_or_add_xfrm self;
     c ← slot_get_or_add s new xfrm; attr_set a c v) σ = Ok (tt, σ') ∧
    length σ ≤ xfrm ∧ BaseShapeElement.xfrm self σ' = Ok (Some xfrm, σ')).
  { intros s new t a Hnew Ht Hsp Hxf.
    destruct (shape_set_child_attr s new t a self v σ None Hcl Hx Hnew Ht Hsp Hxf)
      as (xfrm & c & ndc & σ1 & σ' & Hrun & _ & [Hfresh _] & _ & Hx' & _).
    exists xfrm, σ'. auto. }
  repeat (apply elem_of_cons in Hset as [->|Hset]); [..|by inversion Hset].
  - apply (Hattr CT_Transform2D.rot).
  - apply (Hattr CT_Transform2D.flipH).
  - apply (Hattr CT_Transform2D.flipV).
  - apply (Hchild CT_Transform2D.off_slot _ "a:off" CT_Point2D.x _new_off_constructs);
      [by apply list_elem_of_singleton|done..].
  - apply (Hchild CT_Transform2D.off_slot _ "a:off" CT_Point2D.y _new_off_constructs);
      [by apply list_elem_of_singleton|done..].
  - apply (Hchild CT_Transform2D.ext_slot _ "a:ext" CT_PositiveSize2D.cx
             _new_ext_constructs); [by apply list_elem_of_singleton|done..].
  - apply (Hchild CT_Transform2D.ext_slot _ "a:ext" CT_PositiveSize2D.cy
             _new_ext_constructs); [by apply list_elem_of_singleton|done..].
Qed.

Lemma _new_off_node σ :
  CT_Transform2D._new_off σ = Ok (length σ, σ ++ [new_off_node]).
Proof. apply _new_off_eval. Qed.

Lemma _new_ext_node σ :
  CT_Transform2D._new_ext σ = Ok (length σ, σ ++ [new_ext_node]).
Proof. apply _new_ext_eval. Qed.

Lemma child_tags_singleton σ p c t :
  children_of σ p = [c] → tag_of σ c = Some t → child_tags σ p = [t].
Proof.
  unfold children_of, child_tags. destruct (σ !! p) as [nd|]; [|done].
  intros -> Ht. csimpl. by rewrite Ht.
Qed.

Lemma placed_before_first_nil f n cs' : placed_before_first f n [] cs' → cs' = [n].
Proof.
  intros (l1 & l2 & Hcs & -> & _). symmetry in Hcs.
  apply app_eq_nil in Hcs as [-> ->]. done.
Qed.

(** C4. On a shape whose [p:spPr] has no [a:xfrm], [x] reads [None];
    setting [x] to a value [v] the codec round-trips makes a new [a:xfrm]
    with a new [a:off] as its only child, and [x] then reads [v].  On a
    shape whose [a:xfrm] is there without [a:off], setting [x] places the
    new [a:off] before the first [a:ext], [a:chOff] or [a:chExt] child, and
    [x] then reads [v]. *)
Theorem set_x_creates_transform_and_offset self v σ :
  closed σ → round_trips CT_Point2D.x v →
  (BaseShapeElement.xfrm self σ = Ok (None, σ) →
   BaseShapeElement.x self σ = Ok (None, σ) ∧
   ∃ xfrm off σ',
     BaseShapeElement.set_x self v σ = Ok (tt, σ') ∧
     length σ ≤ xfrm ∧ length σ ≤ off ∧
     BaseShapeElement.xfrm self σ' = Ok (Some xfrm, σ') ∧
     CT_Transform2D.off xfrm σ' = Ok (Some off, σ') ∧
     child_tags σ' xfrm = ["a:off"] ∧
     BaseShapeElement.x self σ' = Ok (Some v, σ')) ∧
  (∀ xfrm, BaseShapeElement.xfrm self σ = Ok (Some xfrm, σ) →
   CT_Transform2D.off xfrm σ = Ok (None, σ) →
   ∃ off σ',
     BaseShapeElement.set_x self v σ = Ok (tt, σ') ∧
     BaseShapeElement.xfrm self σ' = Ok (Some xfrm, σ') ∧
     CT_Transform2D.off xfrm σ' = Ok (Some off, σ') ∧
     placed_before_first (has_tag σ ["a:ext"; "a:chOff"; "a:chExt"]) off
       (children_of σ xfrm) (children_of σ' xfrm) ∧
     BaseShapeElement.x self σ' = Ok (Some v, σ')).
Proof.
  intros Hcl Hv.
  assert (Hread : ∀ xfrm off σ',
    BaseShapeElement.xfrm self σ' = Ok (Some xfrm, σ') →
    CT_Transform2D.off xfrm σ' = Ok (Some off, σ') →
    σ' !! off = Some (with_attrib new_off_node
                        (attr_write CT_Point2D.x v (attrib new_off_node))) →
    BaseShapeElement.x self σ' = Ok (Some v, σ')).
  { intros xfrm off σ' Hx' Hoff' Hnd.
    rewrite (shape_x_read self xfrm off _ σ' Hx' Hoff' Hnd).
    by rewrite attr_read_write. }
  split.
  - intros Hx.
    split.
    { unfold BaseShapeElement.x, BaseShapeElement._get_xfrm_attr.
      by rewrite (bind_Ok _ _ _ _ _ Hx). }
    destruct (shape_add_child_set CT_Transform2D.off_slot CT_Transform2D._new_off
                "a:off" new_off_node CT_Point2D.x self v σ None Hcl Hx
                _new_off_constructs _new_off_node)
      as (xfrm & off & σ1 & σ' & Hrun & Hga & [Hfresh Hndx] & Hcl' & Hx' & Hoff' & Hnd
          & Hplaced & Hoff & Hlen);
      [by apply list_elem_of_singleton|done..|].
    assert (children_of σ1 xfrm = []) as Hnil by (unfold children_of; by rewrite Hndx).
    rewrite Hnil in Hplaced. apply placed_before_first_nil in Hplaced.
    exists xfrm, off, σ'. repeat split; try done.
    + lia.
    + apply child_tags_singleton with off; [done|].
      unfold tag_of. by rewrite Hnd.
    + by apply (Hread xfrm off σ').
  - intros xfrm Hx Hoff.
    destruct (shape_add_child_set CT_Transform2D.off_slot CT_Transform2D._new_off
                "a:off" new_off_node CT_Point2D.x self v σ (Some xfrm) Hcl Hx
                _new_off_constructs _new_off_node)
      as (xfrm' & off & σ1 & σ' & Hrun & Hga & [-> ->] & Hcl' & Hx' & Hoff' & Hnd
          & Hplaced & _ & _);
      [by apply list_elem_of_singleton|done..|].
    exists off, σ'. repeat split; try done.
    by apply (Hread xfrm off σ').
Qed.

(** An element made with two attributes at 0, of which one is then
    written: the other one reads 0. *)
Lemma read_second_of_new a b t v :
  slot_name a ≠ slot_name b → round_trips b (VInt 0) →
  let nd := Node t (attr_write b (VInt 0) (attr_write a (VInt 0) ∅)) [] in
  attr_read b (with_attrib nd (attr_write a v (attrib nd))) = Ok (Some (VInt 0)).
Proof.
  intros Hne Hb nd. rewrite attr_read_write_other by done.
  by apply (attr_read_write b (VInt 0) (Node t (attr_write a (VInt 0) ∅) [])).
Qed.

Lemma read_first_of_new a b t v :
  slot_name a ≠ slot_name b → round_trips a (VInt 0) →
  let nd := Node t (attr_write b (VInt 0) (attr_write a (VInt 0) ∅)) [] in
  attr_read a (with_attrib nd (attr_write b v (attrib nd))) = Ok (Some (VInt 0)).
Proof.
  intros Hne Ha nd. rewrite attr_read_write_other by done.
  transitivity (attr_read a (Node t (attr_write a (VInt 0) ∅) [])).
  - by apply (attr_read_write_other b a (VInt 0) (Node t (attr_write a (VInt 0) ∅) [])).
  - by apply (attr_read_write a (VInt 0) (Node t ∅ [])).
Qed.

(** C9. On a shape without [a:off] (no [a:xfrm], or an [a:xfrm] without
    [a:off]), after setting [x] the read of [y] gives 0, and after setting
    [y] the read of [x] gives 0; on a shape without [a:ext], after setting
    [cx] the read of [cy] gives 0, and after setting [cy] the read of [cx]
    gives 0.  The codec is to round-trip at 0. *)
Theorem new_offset_and_extent_read_zero self v σ o :
  closed σ → BaseShapeElement.xfrm self σ = Ok (o, σ) →
  (match o with
   | Some xfrm => CT_Transform2D.off xfrm σ = Ok (None, σ)
   | None => True
   end →
   round_trips CT_Point2D.x (VInt 0) →
   (∃ σ', BaseShapeElement.set_x self v σ = Ok (tt, σ') ∧
      BaseShapeElement.y self σ' = Ok (Some (VInt 0), σ')) ∧
   (∃ σ', BaseShapeElement.set_y self v σ = Ok (tt, σ') ∧
      BaseShapeElement.x self σ' = Ok (Some (VInt 0), σ'))) ∧
  (match o with
   | Some xfrm => CT_Transform2D.ext xfrm σ = Ok (None, σ)
   | None => True
   end →
   round_trips CT_PositiveSize2D.cx (VInt 0) →
   (∃ σ', BaseShapeElement.set_cx self v σ = Ok (tt, σ') ∧
      BaseShapeElement.cy self σ' = Ok (Some (VInt 0), σ')) ∧
   (∃ σ', BaseShapeElement.set_cy self v σ = Ok (tt, σ') ∧
      BaseShapeElement.cx self σ' = Ok (Some (VInt 0), σ'))).
Proof.
  intros Hcl Hx. split; intros Hempty Hzero; split.
  - destruct (shape_add_child_set CT_Transform2D.off_slot CT_Transform2D._new_off
                "a:off" new_off_node CT_Point2D.x self v σ o Hcl Hx
                _new_off_constructs _new_off_node)
      as (xfrm & off & σ1 & σ' & Hrun & _ & _ & _ & Hx' & Hoff' & Hnd & _);
      [by apply list_elem_of_singleton|done..|].
    exists σ'. split; [done|].
    rewrite (shape_y_read self xfrm off _ σ' Hx' Hoff' Hnd).
    assert (attr_read CT_Point2D.y
              (with_attrib new_off_node
                 (attr_write CT_Point2D.x v (attrib new_off_node)))
            = Ok (Some (VInt 0))) as ->; [|done].
    apply (read_second_of_new CT_Point2D.x CT_Point2D.y "a:off" v); [done|exact Hzero].
  - destruct (shape_add_child_set CT_Transform2D.off_slot CT_Transform2D._new_off
                "a:off" new_off_node CT_Point2D.y self v σ o Hcl Hx
                _new_off_constructs _new_off_node)
      as (xfrm & off & σ1 & σ' & Hrun & _ & _ & _ & Hx' & Hoff' & Hnd & _);
      [by apply list_elem_of_singleton|done..|].
    exists σ'. split; [done|].
    rewrite (shape_x_read self xfrm off _ σ' Hx' Hoff' Hnd).
    assert (attr_read CT_Point2D.x
              (with_attrib new_off_node
                 (attr_write CT_Point2D.y v (attrib new_off_node)))
            = Ok (Some (VInt 0))) as ->; [|done].
    apply (read_first_of_new CT_Point2D.x CT_Point2D.y "a:off" v); [done|exact Hzero].
  - destruct (shape_add_child_set CT_Transform2D.ext_slot CT_Transform2D._new_ext
                "a:ext" new_ext_node CT_PositiveSize2D.cx self v σ o Hcl Hx
                _new_ext_constructs _new_ext_node)
      as (xfrm & ext & σ1 & σ' & Hrun & _ & _ & _ & Hx' & Hext' & Hnd & _);
      [by apply list_elem_of_singleton|done..|].
    exists σ'. split; [done|].
    rewrite (shape_cy_read self xfrm ext _ σ' Hx' Hext' Hnd).
    assert (attr_read CT_PositiveSize2D.cy
              (with_attrib new_ext_node
                 (attr_write CT_PositiveSize2D.cx v (attrib new_ext_node)))
            = Ok (Some (VInt 0))) as ->; [|done].
    apply (read_second_of_new CT_PositiveSize2D.cx CT_PositiveSize2D.cy "a:ext" v);
      [done|exact Hzero].
  - destruct (shape_add_child_set CT_Transform2D.ext_slot CT_Transform2D._new_ext
                "a:ext" new_ext_node CT_PositiveSize2D.cy self v σ o Hcl Hx
                _new_ext_constructs _new_ext_node)
      as (xfrm & ext & σ1 & σ' & Hrun & _ & _ & _ & Hx' & Hext' & Hnd & _);
      [by apply list_elem_of_singleton|done..|].
    exists σ'. split; [done|].
    rewrite (shape_cx_read self xfrm ext _ σ' Hx' Hext' Hnd).
    assert (attr_read CT_PositiveSize2D.cx
              (with_attrib new_ext_node
                 (attr_write CT_PositiveSize2D.cy v (attrib new_ext_node)))
            = Ok (Some (VInt 0))) as ->; [|done].
    apply (read_first_of_new CT_PositiveSize2D.cx CT_PositiveSize2D.cy "a:ext" v);
      [done|exact Hzero].
Qed.

(** [BaseShapeElement.get_or_add_xfrm] twice in a row: the same element, the
    same store. *)
Lemma shape_get_or_add_xfrm_twice self σ o :
  closed σ → BaseShapeElement.xfrm self σ = Ok (o, σ) →
  ∃ xfrm σ',
    BaseShapeElement.get_or_add_xfrm self σ = Ok (xfrm, σ') ∧
    BaseShapeElement.get_or_add_xfrm self σ' = Ok (xfrm, σ').
Proof.
  intros Hcl Hx.
  destruct (shape_get_or_add_xfrm self σ o Hcl Hx)
    as (sp & xfrm & σ1 & Hrun & _ & _ & Hsp1 & Hx1 & _).
  exists xfrm, σ1. split; [done|].
  unfold BaseShapeElement.get_or_add_xfrm.
  rewrite (bind_Ok _ _ _ _ _ (OneAndOnlyOne_Ok _ _ _ _ Hsp1)).
  by apply slot_get_or_add_present.
Qed.

End writes.

(** ** Removing the occupants of a slot *)

Lemma find_first_filter_other (f g : loc → bool) cs :
  Forall (λ c, f c = true → g c = false) cs →
  find_first f (List.filter (λ c, negb (g c)) cs) = find_first f cs.
Proof.
  induction 1 as [|c cs Hc _ IH]; simpl; [done|].
  destruct (g c) eqn:Hg; simpl.
  - destruct (f c) eqn:Hf; [|done]. specialize (Hc eq_refl). congruence.
  - by rewrite IH.
Qed.

Lemma find_first_filter_same (g : loc → bool) cs :
  find_first g (List.filter (λ c, negb (g c)) cs) = None.
Proof.
  induction cs as [|c cs IH]; simpl; [done|].
  destruct (g c) eqn:Hg; simpl; [done|]. by rewrite Hg.
Qed.

Lemma Forall_filter_bool (P : loc → Prop) (f : loc → bool) cs :
  Forall P cs → Forall P (List.filter f cs).
Proof.
  induction 1 as [|c cs Hc _ IH]; simpl; [constructor|].
  destruct (f c); [by constructor|done].
Qed.

(** [remove()] succeeds on an allocated element, empties the slot, and
    leaves the occupants of slots with other tags where they are. *)
Lemma slot_remove_spec s p σ :
  closed σ → is_Some (σ !! p) →
  ∃ σ', slot_remove s p σ = Ok (tt, σ') ∧ closed σ' ∧ is_Some (σ' !! p) ∧
    slot_get s p σ' = Ok (None, σ') ∧
    (∀ s' o, (∀ t, t ∈ candidates s' → t ∉ candidates s) →
       slot_get s' p σ = Ok (o, σ) → slot_get s' p σ' = Ok (o, σ')).
Proof.
  intros Hcl [nd Hp].
  set (cs' := List.filter (λ c, negb (has_tag σ (candidates s) c)) (children nd)).
  set (σ' := <[p := with_children nd cs']> σ).
  assert (Hp' : σ' !! p = Some (with_children nd cs')).
  { apply list_lookup_insert_eq. by eapply lookup_lt_Some. }
  assert (Htag : ∀ ts c, has_tag σ' ts c = has_tag σ ts c).
  { intros ts c. by apply has_tag_insert with nd. }
  exists σ'. repeat split.
  - unfold slot_remove. rewrite (bind_Ok _ _ _ _ _ (get_node_Ok _ _ _ Hp)).
    by apply put_node_Ok with nd.
  - apply closed_insert; [done|]. simpl. apply Forall_filter_bool.
    apply Forall_forall. intros c Hc. by eapply closed_lookup.
  - by eexists.
  - rewrite (slot_get_eval s p σ' _ Hp'). simpl. f_equal. f_equal.
    rewrite (find_first_ext _ (has_tag σ (candidates s))).
    + apply find_first_filter_same.
    + apply Forall_forall. intros c _. apply Htag.
  - intros s' o Hdisj Hget.
    rewrite (slot_get_eval s' p σ nd Hp) in Hget. injection Hget as <-.
    rewrite (slot_get_eval s' p σ' _ Hp'). simpl. f_equal. f_equal.
    rewrite (find_first_ext _ (has_tag σ (candidates s'))).
    + apply find_first_filter_other. apply Forall_forall. intros c _.
      unfold has_tag. destruct (tag_of σ c) as [t|]; [|done].
      intros Ht%bool_decide_eq_true. apply bool_decide_eq_false. by apply Hdisj.
    + apply Forall_forall. intros c _. apply Htag.
Qed.

Section dash.
Context `{Collaborators}.

(** C8. Setting the preset dash of a line-properties element, with a value
    the [val] attribute round-trips: the [a:custDash] children are removed
    first, then [a:prstDash] is added, or the one that is there is reused,
    and its [val] is written; afterwards there is no [a:custDash], there is
    an [a:prstDash], and [prstDash_val] reads the value. *)
Theorem set_prstDash_val_replaces_custDash self val σ :
  closed σ → is_Some (σ !! self) → round_trips prstDash_val_attr val →
  ∃ σ1 σ' prstDash,
    CT_LineProperties._remove_custDash self σ = Ok (tt, σ1) ∧
    CT_LineProperties.custDash self σ1 = Ok (None, σ1) ∧
    (prstDash ← CT_LineProperties.get_or_add_prstDash self;
     attr_set prstDash_val_attr prstDash val) σ1 = Ok (tt, σ') ∧
    CT_LineProperties.set_prstDash_val self val σ = Ok (tt, σ') ∧
    CT_LineProperties.custDash self σ' = Ok (None, σ') ∧
    CT_LineProperties.prstDash self σ' = Ok (Some prstDash, σ') ∧
    CT_LineProperties.prstDash_val self σ' = Ok (Some val, σ') ∧
    (∀ p0, CT_LineProperties.prstDash self σ = Ok (Some p0, σ) → prstDash = p0).
Proof.
  intros Hcl Hself Hval.
  destruct (slot_remove_spec CT_LineProperties.custDash_slot self σ Hcl Hself)
    as (σ1 & Hrm & Hcl1 & Hself1 & Hnone1 & Hother).
  destruct (get_or_add_then_set CT_LineProperties.prstDash_slot
              (OxmlElement "a:prstDash") "a:prstDash" prstDash_val_attr self val σ1
              Hcl1 Hself1 (OxmlElement_constructs _))
    as (c & ndc & σ2 & σ3 & Hrun & Hcl2 & Heff & Hc & Hset & Hcl3 & Hsk & Hget3 & Hc3).
  { by apply list_elem_of_singleton. }
  exists σ1, σ3, c. repeat split; try done.
  - unfold CT_LineProperties.set_prstDash_val.
    by rewrite (bind_Ok _ _ _ _ _ Hrm).
  - apply (first_child_found_in_stable _ _ _ _ _ _ _ _ _ _ Hcl1 Heff Hsk); [|done].
    cbn. by rewrite list_elem_of_singleton.
  - unfold CT_LineProperties.prstDash_val.
    rewrite (bind_Ok _ _ _ _ _ Hget3).
    rewrite (attr_get_eval _ _ _ _ Hc3). by rewrite attr_read_write.
  - intros p0 Hp0.
    assert (slot_get CT_LineProperties.prstDash_slot self σ1 = Ok (Some p0, σ1)) as Hp1.
    { apply Hother; [|done]. cbn. intros t Ht%list_elem_of_singleton.
      subst t. by rewrite list_elem_of_singleton. }
    pose proof (slot_get_or_add_present CT_LineProperties.prstDash_slot
                  (OxmlElement "a:prstDash") self σ1 p0 Hp1) as Hrun'.
    unfold CT_LineProperties.get_or_add_prstDash in Hrun.
    rewrite Hrun in Hrun'. by injection Hrun' as ->.
Qed.

End dash.

(** ** The plain codecs meet the contract *)

Lemma Plain_int_codec_round_trips z :
  decode Plain.int_codec (encode Plain.int_codec (VInt z)) = Some (VInt z).
Proof.
  simpl. rewrite NilZero.isi.
  - simpl. f_equal. f_equal. apply DecimalZ.of_to.
  - destruct z; simpl; try discriminate.
    intros [= Hp]. by apply (DecimalPos.Unsigned.to_uint_nonnil p).
  - destruct z; simpl; try discriminate.
    intros [= Hp]. by apply (DecimalPos.Unsigned.to_uint_nonnil p).
Qed.

Lemma Plain_bool_codec_round_trips b :
  decode Plain.bool_codec (encode Plain.bool_codec (VBool b)) = Some (VBool b).
Proof. by destruct b. Qed.


(** * Further properties of [shared.py] *)

(** ** What a [get_or_add] leaves alone *)

Lemma found_has_tag q ts σ c :
  first_child_found_in q ts σ = Ok (Some c, σ) →
  ∃ nd, σ !! c = Some nd ∧ tag nd ∈ ts.
Proof.
  intros Hq. apply first_child_found_in_inv in Hq as (_ & ndq & Hq & Hfind).
  symmetry in Hfind. apply find_first_Some in Hfind as (l1 & l2 & _ & Hc & _).
  unfold has_tag, tag_of in Hc. destruct (σ !! c) as [nd|]; [|done].
  exists nd. split; [done|]. by apply bool_decide_eq_true in Hc.
Qed.

Lemma get_or_add_effect_other s t p c σ σ' e nd :
  get_or_add_effect s t p c σ σ' → σ !! e = Some nd → e ≠ p → σ' !! e = Some nd.
Proof.
  intros [[_ ->]|(_ & _ & _ & _ & _ & Hother & _)] He Hne; [done|].
  rewrite Hother; [done| by eapply lookup_lt_Some | done].
Qed.

Lemma get_or_add_effect_parent s t p c σ σ' nd :
  get_or_add_effect s t p c σ σ' → σ !! p = Some nd →
  ∃ nd', σ' !! p = Some nd' ∧ tag nd' = tag nd ∧ attrib nd' = attrib nd.
Proof.
  intros [[_ ->]|(_ & _ & _ & _ & _ & _ & nd0 & nd' & Hp & Hp' & Ht & Ha)] Hnd.
  - by exists nd.
  - exists nd'. assert (nd0 = nd) as -> by congruence. done.
Qed.

Lemma get_or_add_effect_tag s t p c σ σ' :
  candidates s = [t] → get_or_add_effect s t p c σ σ' → tag_of σ' c = Some t.
Proof.
  intros Hs [[Hget ->]|(_ & _ & Htag & _)]; [|done].
  apply found_has_tag in Hget as (nd & Hc & Ht). rewrite Hs in Ht.
  apply list_elem_of_singleton in Ht. unfold tag_of. rewrite Hc. simpl. by f_equal.
Qed.

Lemma get_or_add_effect_length s t p c σ σ' :
  get_or_add_effect s t p c σ σ' → length σ ≤ length σ'.
Proof.
  intros [[_ ->]|(_ & _ & _ & _ & _ & Hother & nd & nd' & Hp & Hp' & _)]; [done|].
  destruct (decide (length σ ≤ length σ')) as [|Hlt]; [done|]. exfalso.
  destruct σ as [|nd0 σ0] eqn:Hσ; [simpl in Hlt; lia|]. rewrite <- Hσ in *.
  assert (length σ - 1 < length σ) as Hlast by (rewrite Hσ; simpl; lia).
  destruct (decide (length σ - 1 = p)) as [Heq|Hne].
  - apply lookup_lt_Some in Hp'. lia.
  - destruct (lookup_lt_is_Some_2 σ (length σ - 1) Hlast) as [ndl Hl].
    pose proof (Hother _ Hlast Hne) as Hl'. rewrite Hl in Hl'.
    apply lookup_lt_Some in Hl'. lia.
Qed.


(** ** The steps of a setter *)

Section setter_steps.
Context `{Collaborators}.

(** The first step of every setter, [get_or_add_xfrm], with the [p:spPr] it
    goes through. *)
Lemma get_or_add_xfrm_trace self σ o :
  closed σ → BaseShapeElement.xfrm self σ = Ok (o, σ) →
  ∃ sp xfrm σ1,
    first_child_found_in self ["p:spPr"] σ = Ok (Some sp, σ) ∧
    BaseShapeElement.get_or_add_xfrm self σ = Ok (xfrm, σ1) ∧
    closed σ1 ∧
    get_or_add_effect CT_ShapeProperties.xfrm_slot "a:xfrm" sp xfrm σ σ1 ∧
    first_child_found_in self ["p:spPr"] σ1 = Ok (Some sp, σ1) ∧
    first_child_found_in sp ["a:xfrm"] σ1 = Ok (Some xfrm, σ1) ∧
    match o with
    | Some xfrm0 => xfrm = xfrm0 ∧ σ1 = σ
    | None => length σ ≤ xfrm ∧ σ1 !! xfrm = Some (Node "a:xfrm" ∅ [])
    end.
Proof.
  intros Hcl Hx.
  destruct (shape_get_or_add_xfrm self σ o Hcl Hx)
    as (sp & xfrm & σ1 & Hrun & Hcl1 & Heff & Hsp1 & Hx1 & Ho).
  destruct (shape_xfrm_inv self σ o Hx) as (sp0 & Hsp0 & _).
  assert (sp0 = sp) as ->.
  { assert (first_child_found_in self ["p:spPr"] σ1 = Ok (Some sp0, σ1)) as Hsp0'.
    { apply (first_child_found_in_effect _ _ _ _ _ _ _ _ _ Hcl Heff); [|done].
      by rewrite list_elem_of_singleton. }
    rewrite Hsp1 in Hsp0'. by injection Hsp0' as ->. }
  by exists sp, xfrm, σ1.
Qed.

(** The steps of [rot], [flipH] and [flipV]: [get_or_add_xfrm], then one
    attribute of the transform written. *)
Lemma write_xattr_trace a self v σ o :
  closed σ → BaseShapeElement.xfrm self σ = Ok (o, σ) →
  ∃ sp xfrm ndx σ1,
    first_child_found_in self ["p:spPr"] σ = Ok (Some sp, σ) ∧
    closed σ1 ∧
    get_or_add_effect CT_ShapeProperties.xfrm_slot "a:xfrm" sp xfrm σ σ1 ∧
    first_child_found_in self ["p:spPr"] σ1 = Ok (Some sp, σ1) ∧
    first_child_found_in sp ["a:xfrm"] σ1 = Ok (Some xfrm, σ1) ∧
    match o with
    | Some xfrm0 => xfrm = xfrm0 ∧ σ1 = σ
    | None => length σ ≤ xfrm ∧ σ1 !! xfrm = Some (Node "a:xfrm" ∅ [])
    end ∧
    σ1 !! xfrm = Some ndx ∧
    (xfrm ← BaseShapeElement.get_or_add_xfrm self; attr_set a xfrm v) σ
      = Ok (tt, <[xfrm := with_attrib ndx (attr_write a v (attrib ndx))]> σ1).
Proof.
  intros Hcl Hx.
  destruct (get_or_add_xfrm_trace self σ o Hcl Hx)
    as (sp & xfrm & σ1 & Hsp & Hrun & Hcl1 & Heff & Hsp1 & Hx1 & Ho).
  destruct (first_child_found_in_allocated _ _ _ _ Hcl1 Hx1) as [ndx Hndx].
  exists sp, xfrm, ndx, σ1. do 7 (split; [done|]).
  rewrite (bind_Ok _ _ _ _ _ Hrun). by apply attr_set_eval.
Qed.

(** The steps of [x], [y], [cx] and [cy]: [get_or_add_xfrm], then
    [get_or_add] of the child of the transform, then one attribute of that
    child written. *)
Lemma write_child_trace s new t a self v σ o :
  closed σ → BaseShapeElement.xfrm self σ = Ok (o, σ) →
  constructs t new → candidates s = [t] →
  ∃ sp xfrm c ndc σ1 σ2,
    first_child_found_in self ["p:spPr"] σ = Ok (Some sp, σ) ∧
    closed σ1 ∧
    get_or_add_effect CT_ShapeProperties.xfrm_slot "a:xfrm" sp xfrm σ σ1 ∧
    first_child_found_in self ["p:spPr"] σ1 = Ok (Some sp, σ1) ∧
    first_child_found_in sp ["a:xfrm"] σ1 = Ok (Some xfrm, σ1) ∧
    match o with
    | Some xfrm0 => xfrm = xfrm0 ∧ σ1 = σ
    | None => length σ ≤ xfrm ∧ σ1 !! xfrm = Some (Node "a:xfrm" ∅ [])
    end ∧
    slot_get_or_add s new xfrm σ1 = Ok (c, σ2) ∧
    closed σ2 ∧ get_or_add_effect s t xfrm c σ1 σ2 ∧
    slot_get s xfrm σ2 = Ok (Some c, σ2) ∧ σ2 !! c = Some ndc ∧
    (xfrm ← BaseShapeElement.get_or_add_xfrm self;
     c ← slot_get_or_add s new xfrm; attr_set a c v) σ
      = Ok (tt, <[c := with_attrib ndc (attr_write a v (attrib ndc))]> σ2).
Proof.
  intros Hcl Hx Hnew Hs.
  destruct (get_or_add_xfrm_trace self σ o Hcl Hx)
    as (sp & xfrm & σ1 & Hsp & Hrun & Hcl1 & Heff & Hsp1 & Hx1 & Ho).
  pose proof (first_child_found_in_allocated _ _ _ _ Hcl1 Hx1) as Hx1'.
  destruct (slot_get_or_add_spec s new t xfrm σ1 Hcl1 Hx1' Hnew)
    as (c & σ2 & Hrun2 & Hcl2 & Hget2 & Heff2).
  { rewrite Hs. by apply list_elem_of_singleton. }
  destruct (first_child_found_in_allocated _ _ _ _ Hcl2 Hget2) as [ndc Hndc].
  exists sp, xfrm, c, ndc, σ1, σ2. do 11 (split; [done|]).
  rewrite (bind_Ok _ _ _ _ _ Hrun), (bind_Ok _ _ _ _ _ Hrun2).
  by apply attr_set_eval.
Qed.

End setter_steps.


(** ** Getters never write *)

Lemma read_only_ret {A} (a : A) : read_only (mret a : M A).
Proof. intros σ a' σ' Hr. by injection Hr as _ <-. Qed.

Lemma read_only_raise {A} e : read_only (raise e : M A).
Proof. intros σ a' σ' Hr. done. Qed.

Lemma read_only_bind {A B} (m : M A) (f : A → M B) :
  read_only m → (∀ a, read_only (f a)) → read_only (m ≫= f).
Proof.
  intros Hm Hf σ b σ' Hr. apply bind_Ok_inv in Hr as (a & σ1 & Hma & Hfa).
  apply Hm in Hma as ->. by apply Hf in Hfa.
Qed.

Lemma read_only_get_node l : read_only (get_node l).
Proof.
  intros σ nd σ' Hr. unfold get_node in Hr.
  destruct (σ !! l); [|done]. by injection Hr as _ <-.
Qed.

Lemma read_only_first_child_found_in p ts : read_only (first_child_found_in p ts).
Proof. intros σ o σ' Hr. by apply first_child_found_in_inv in Hr as [-> _]. Qed.

Lemma read_only_OneAndOnlyOne t p : read_only (OneAndOnlyOne t p).
Proof. intros σ c σ' Hr. by apply OneAndOnlyOne_inv in Hr as [-> _]. Qed.

Lemma read_only_attr_get a l : read_only (attr_get a l).
Proof.
  intros σ v σ' Hr.
  destruct (σ !! l) as [nd|] eqn:Hl.
  - rewrite (attr_get_eval a l σ nd Hl) in Hr.
    destruct (attr_read a nd); [|done]. by injection Hr as _ <-.
  - destruct a; unfold attr_get, get in Hr;
      apply bind_Ok_inv in Hr as (? & ? & Hr & _);
      apply bind_Ok_inv in Hr as (? & ? & Hr & _);
      unfold get_node in Hr; by rewrite Hl in Hr.
Qed.

Lemma read_only_xfrm self : read_only (BaseShapeElement.xfrm self).
Proof.
  apply read_only_bind; [apply read_only_OneAndOnlyOne|].
  intros sp. apply read_only_first_child_found_in.
Qed.

Lemma read_only_ph self : read_only (BaseShapeElement.ph self).
Proof.
  intros σ o σ' Hr. unfold BaseShapeElement.ph in Hr.
  apply bind_Ok_inv in Hr as (nd & σ1 & Hn & Hr).
  apply read_only_get_node in Hn as ->.
  destruct (xpath_step σ (Some "p:ph") _); by injection Hr as _ <-.
Qed.

Lemma value_of_read_only {A} (m : M A) σ a :
  read_only m → value_of (m σ) = Ok a → m σ = Ok (a, σ).
Proof.
  intros Hm Hv. destruct (m σ) as [[a' σ']|e] eqn:Hr; [|done].
  injection Hv as ->. by rewrite (Hm _ _ _ Hr).
Qed.


Lemma attr_get_unallocated a l σ :
  σ !! l = None → attr_get a l σ = Raise ReferenceError.
Proof.
  intros Hl. destruct a; unfold attr_get, get, get_node, mbind, M_bind;
    by rewrite Hl.
Qed.

Lemma attr_of_attrib a nd : attr_of a (attrib nd) = attr_read a nd.
Proof. by destruct a. Qed.

Lemma value_of_attr_get a l σ :
  value_of (attr_get a l σ) = match σ !! l with
                              | Some nd => attr_of a (attrib nd)
                              | None => Raise ReferenceError
                              end.
Proof.
  destruct (σ !! l) as [nd|] eqn:Hl.
  - rewrite (attr_get_eval a l σ nd Hl), attr_of_attrib.
    by destruct (attr_read a nd).
  - by rewrite attr_get_unallocated.
Qed.

Section geometry_view.
Context `{Collaborators}.

Lemma read_only_getattr xfrm name : read_only (CT_Transform2D.getattr xfrm name).
Proof.
  unfold CT_Transform2D.getattr.
  repeat (destruct (String.eqb name _);
          [first [ apply read_only_attr_get
                 | apply read_only_bind;
                   [apply read_only_first_child_found_in|];
                   intros [c|]; [apply read_only_attr_get|apply read_only_ret] ]|]).
  apply read_only_raise.
Qed.

Lemma read_only_get_xfrm_attr self name :
  read_only (BaseShapeElement._get_xfrm_attr self name).
Proof.
  apply read_only_bind; [apply read_only_xfrm|].
  intros [xfrm|]; [apply read_only_getattr|apply read_only_ret].
Qed.

(** What a getter of the shape [x], [y], [cx], [cy] returns, from the
    attributes of the child it reads. *)
Lemma get_child_eval s a self σ (getter : loc → M (option value)) :
  (∀ xfrm, getter xfrm = (c ← slot_get s xfrm;
                          match c with
                          | None => mret None
                          | Some c => attr_get a c
                          end)) →
  value_of ((xfrm ← BaseShapeElement.xfrm self;
             match xfrm with
             | None => mret None
             | Some xfrm => getter xfrm
             end) σ)
  = match child_attrib s self σ with
    | Raise e => Raise e
    | Ok None => Ok None
    | Ok (Some m) => attr_of a m
    end.
Proof.
  intros Hgetter. unfold child_attrib.
  destruct (BaseShapeElement.xfrm self σ) as [[o σ1]|e] eqn:Hx;
    [|by rewrite (bind_Raise _ _ _ _ Hx)].
  pose proof (read_only_xfrm self _ _ _ Hx) as ->.
  rewrite (bind_Ok _ _ _ _ _ Hx). destruct o as [xfrm|]; [|done].
  rewrite Hgetter.
  destruct (slot_get s xfrm σ) as [[oc σ1]|e] eqn:Hc;
    [|by rewrite (bind_Raise _ _ _ _ Hc)].
  pose proof (read_only_first_child_found_in _ _ _ _ _ Hc) as ->.
  rewrite (bind_Ok _ _ _ _ _ Hc). destruct oc as [c|]; [|done].
  rewrite value_of_attr_get. by destruct (σ !! c).
Qed.

Lemma x_eval self σ :
  value_of (BaseShapeElement.x self σ)
  = match child_attrib CT_Transform2D.off_slot self σ with
    | Raise e => Raise e
    | Ok None => Ok None
    | Ok (Some m) => attr_of CT_Point2D.x m
    end.
Proof. by apply (get_child_eval CT_Transform2D.off_slot CT_Point2D.x). Qed.

Lemma y_eval self σ :
  value_of (BaseShapeElement.y self σ)
  = match child_attrib CT_Transform2D.off_slot self σ with
    | Raise e => Raise e
    | Ok None => Ok None
    | Ok (Some m) => attr_of CT_Point2D.y m
    end.
Proof. by apply (get_child_eval CT_Transform2D.off_slot CT_Point2D.y). Qed.

Lemma cx_eval self σ :
  value_of (BaseShapeElement.cx self σ)
  = match child_attrib CT_Transform2D.ext_slot self σ with
    | Raise e => Raise e
    | Ok None => Ok None
    | Ok (Some m) => attr_of CT_PositiveSize2D.cx m
    end.
Proof. by apply (get_child_eval CT_Transform2D.ext_slot CT_PositiveSize2D.cx). Qed.

Lemma cy_eval self σ :
  value_of (BaseShapeElement.cy self σ)
  = match child_attrib CT_Transform2D.ext_slot self σ with
    | Raise e => Raise e
    | Ok None => Ok None
    | Ok (Some m) => attr_of CT_PositiveSize2D.cy m
    end.
Proof. by apply (get_child_eval CT_Transform2D.ext_slot CT_PositiveSize2D.cy). Qed.

(** [rot] reads the [rot] attribute of the transform; an absent transform
    reads like one without attributes. *)
Lemma rot_eval self σ :
  value_of (BaseShapeElement.rot self σ)
  = match xfrm_attrib self σ with
    | Raise e => Raise e
    | Ok m => attr_of CT_Transform2D.rot m
    end.
Proof.
  unfold xfrm_attrib, BaseShapeElement.rot.
  destruct (BaseShapeElement.xfrm self σ) as [[o σ1]|e] eqn:Hx;
    [|by rewrite (bind_Raise _ _ _ _ Hx)].
  pose proof (read_only_xfrm self _ _ _ Hx) as ->.
  rewrite (bind_Ok _ _ _ _ _ Hx). destruct o as [xfrm|]; [|done].
  destruct (σ !! xfrm) as [nd|] eqn:Hnd.
  - rewrite attr_of_attrib.
    pose proof (attr_get_eval CT_Transform2D.rot xfrm σ nd Hnd) as Hr.
    destruct (attr_read CT_Transform2D.rot nd) as [[r|]|e] eqn:Hread.
    + rewrite (bind_Ok _ _ _ _ _ Hr), Hr. done.
    + exfalso. unfold CT_Transform2D.rot, attr_read in Hread.
      destruct (attrib nd !! "rot") as [s|]; [|done].
      by destruct (decode ST_Angle s).
    + by rewrite (bind_Raise _ _ _ _ Hr).
  - by rewrite (bind_Raise _ _ _ _ (attr_get_unallocated _ _ _ Hnd)).
Qed.

Lemma flip_eval a name self σ :
  (∀ xfrm, CT_Transform2D.getattr xfrm name = attr_get a xfrm) →
  attr_of a ∅ = Ok (Some (VBool false)) →
  value_of ((v ← BaseShapeElement._get_xfrm_attr self name; mret (py_bool v)) σ)
  = match xfrm_attrib self σ with
    | Raise e => Raise e
    | Ok m => match attr_of a m with
              | Ok v => Ok (py_bool v)
              | Raise e => Raise e
              end
    end.
Proof.
  intros Hname Hdefault. unfold xfrm_attrib, BaseShapeElement._get_xfrm_attr.
  destruct (BaseShapeElement.xfrm self σ) as [[o σ1]|e] eqn:Hx.
  2:{ by rewrite (bind_Raise _ _ _ _ (bind_Raise _ _ _ _ Hx)). }
  pose proof (read_only_xfrm self _ _ _ Hx) as ->.
  destruct o as [xfrm|].
  - pose proof (value_of_attr_get a xfrm σ) as Hv.
    destruct (attr_get a xfrm σ) as [[v σ1]|e] eqn:Hr.
    + pose proof (read_only_attr_get _ _ _ _ _ Hr) as ->.
      assert ((xfrm0 ← BaseShapeElement.xfrm self;
               match xfrm0 with
               | Some xfrm1 => CT_Transform2D.getattr xfrm1 name
               | None => mret None
               end) σ = Ok (v, σ)) as Hg.
      { by rewrite (bind_Ok _ _ _ _ _ Hx), Hname. }
      rewrite (bind_Ok _ _ _ _ _ Hg). simpl in Hv |- *.
      destruct (σ !! xfrm) as [nd|]; [|done]. by rewrite <- Hv.
    + assert ((xfrm0 ← BaseShapeElement.xfrm self;
               match xfrm0 with
               | Some xfrm1 => CT_Transform2D.getattr xfrm1 name
               | None => mret None
               end) σ = Raise e) as Hg.
      { by rewrite (bind_Ok _ _ _ _ _ Hx), Hname. }
      rewrite (bind_Raise _ _ _ _ Hg). simpl in Hv |- *.
      destruct (σ !! xfrm) as [nd|]; [by rewrite <- Hv|by injection Hv as ->].
  - assert ((xfrm0 ← BaseShapeElement.xfrm self;
             match xfrm0 with
             | Some xfrm1 => CT_Transform2D.getattr xfrm1 name
             | None => mret None
             end) σ = Ok (None, σ)) as Hg.
    { by rewrite (bind_Ok _ _ _ _ _ Hx). }
    rewrite (bind_Ok _ _ _ _ _ Hg). by rewrite Hdefault.
Qed.

Lemma flipH_eval self σ :
  value_of (BaseShapeElement.flipH self σ)
  = match xfrm_attrib self σ with
    | Raise e => Raise e
    | Ok m => match attr_of CT_Transform2D.flipH m with
              | Ok v => Ok (py_bool v)
              | Raise e => Raise e
              end
    end.
Proof. by apply (flip_eval CT_Transform2D.flipH "flipH"). Qed.

Lemma flipV_eval self σ :
  value_of (BaseShapeElement.flipV self σ)
  = match xfrm_attrib self σ with
    | Raise e => Raise e
    | Ok m => match attr_of CT_Transform2D.flipV m with
              | Ok v => Ok (py_bool v)
              | Raise e => Raise e
              end
    end.
Proof. by apply (flip_eval CT_Transform2D.flipV "flipV"). Qed.

End geometry_view.


(** ** What the setters do to the geometry *)

Section setter_effects.
Context `{Collaborators}.

Lemma xfrm_attrib_Some self σ xfrm nd :
  BaseShapeElement.xfrm self σ = Ok (Some xfrm, σ) → σ !! xfrm = Some nd →
  xfrm_attrib self σ = Ok (attrib nd).
Proof. intros Hx Hnd. unfold xfrm_attrib. by rewrite Hx, Hnd. Qed.

Lemma child_attrib_None_xfrm s self σ :
  BaseShapeElement.xfrm self σ = Ok (None, σ) → child_attrib s self σ = Ok None.
Proof. intros Hx. unfold child_attrib. by rewrite Hx. Qed.

Lemma child_attrib_None s self σ xfrm :
  BaseShapeElement.xfrm self σ = Ok (Some xfrm, σ) →
  slot_get s xfrm σ = Ok (None, σ) → child_attrib s self σ = Ok None.
Proof. intros Hx Hc. unfold child_attrib. by rewrite Hx, Hc. Qed.

Lemma child_attrib_Some s self σ xfrm c nd :
  BaseShapeElement.xfrm self σ = Ok (Some xfrm, σ) →
  slot_get s xfrm σ = Ok (Some c, σ) → σ !! c = Some nd →
  child_attrib s self σ = Ok (Some (attrib nd)).
Proof. intros Hx Hc Hnd. unfold child_attrib. by rewrite Hx, Hc, Hnd. Qed.

Lemma shape_xfrm_allocated self σ xfrm :
  closed σ → BaseShapeElement.xfrm self σ = Ok (Some xfrm, σ) →
  ∃ nd, σ !! xfrm = Some nd ∧ tag nd = "a:xfrm".
Proof.
  intros Hcl Hx. apply shape_xfrm_inv in Hx as (sp & _ & Hx).
  apply found_has_tag in Hx as (nd & Hnd & Ht).
  exists nd. split; [done|]. by apply list_elem_of_singleton in Ht.
Qed.

(** A child of the transform that a write does not reach reads as
    before. *)
Lemma child_attrib_frame s' t' self xfrm σ σ' :
  closed σ → candidates s' = [t'] →
  BaseShapeElement.xfrm self σ = Ok (Some xfrm, σ) →
  BaseShapeElement.xfrm self σ' = Ok (Some xfrm, σ') →
  (∀ r, slot_get s' xfrm σ = Ok (r, σ) → slot_get s' xfrm σ' = Ok (r, σ')) →
  (∀ e nd, σ !! e = Some nd → tag nd = t' → σ' !! e = Some nd) →
  child_attrib s' self σ' = child_attrib s' self σ.
Proof.
  intros Hcl Hs' Hx Hx' Hq Hframe.
  destruct (shape_xfrm_allocated self σ xfrm Hcl Hx) as (ndx & Hndx & _).
  pose proof (slot_get_eval s' xfrm σ ndx Hndx) as Hget.
  pose proof (Hq _ Hget) as Hget'.
  destruct (find_first (has_tag σ (candidates s')) (children ndx)) as [e|].
  - destruct (found_has_tag _ _ _ _ Hget) as (nde & Hnde & Ht).
    rewrite Hs' in Ht. apply list_elem_of_singleton in Ht.
    rewrite (child_attrib_Some s' self σ xfrm e nde Hx Hget Hnde).
    by apply (child_attrib_Some s' self σ' xfrm e nde Hx' Hget'), Hframe.
  - rewrite (child_attrib_None s' self σ xfrm Hx Hget).
    by apply (child_attrib_None s' self σ' xfrm Hx' Hget').
Qed.

(** The effect of [rot], [flipH] and [flipV] on the geometry: one attribute
    of the transform is written, on the attributes it had (none when there
    was no transform); the children of the transform read as before. *)
Lemma set_xfrm_attr_view a self v σ o :
  closed σ → BaseShapeElement.xfrm self σ = Ok (o, σ) →
  ∃ σ' m xfrm,
    set_xfrm_attr a self v σ = Ok (tt, σ') ∧ closed σ' ∧
    BaseShapeElement.xfrm self σ' = Ok (Some xfrm, σ') ∧
    xfrm_attrib self σ = Ok m ∧
    xfrm_attrib self σ' = Ok (attr_write a v m) ∧
    (∀ s' t', candidates s' = [t'] → t' ≠ "a:xfrm" →
       child_attrib s' self σ' = child_attrib s' self σ).
Proof.
  intros Hcl Hx.
  destruct (write_xattr_trace a self v σ o Hcl Hx)
    as (sp & xfrm & ndx & σ1 & Hsp & Hcl1 & Heff & Hsp1 & Hx1 & Ho & Hndx & Hrun).
  set (σ' := <[xfrm := with_attrib ndx (attr_write a v (attrib ndx))]> σ1) in *.
  assert (Hsk : skeleton σ1 = skeleton σ').
  { symmetry. by apply skeleton_with_attrib. }
  assert (Hx' : BaseShapeElement.xfrm self σ' = Ok (Some xfrm, σ')).
  { apply shape_xfrm_eval with sp; by apply (first_child_found_in_skeleton _ _ σ1). }
  assert (Hndx' : σ' !! xfrm
                  = Some (with_attrib ndx (attr_write a v (attrib ndx)))).
  { apply list_lookup_insert_eq. by eapply lookup_lt_Some. }
  assert (Hx1' : BaseShapeElement.xfrm self σ1 = Ok (Some xfrm, σ1))
    by (by apply shape_xfrm_eval with sp).
  exists σ', (attrib ndx), xfrm. split; [done|].
  split; [by apply (skeleton_closed σ1)|]. split; [done|]. split; [|split].
  - destruct o as [xfrm0|].
    + destruct Ho as [-> ->]. by eapply xfrm_attrib_Some.
    + destruct Ho as [_ Hnew]. rewrite Hndx in Hnew. injection Hnew as ->.
      unfold xfrm_attrib. by rewrite Hx.
  - by rewrite (xfrm_attrib_Some self σ' xfrm _ Hx' Hndx').
  - intros s' t' Hs' Ht'.
    assert (child_attrib s' self σ' = child_attrib s' self σ1) as ->.
    { apply (child_attrib_frame s' t' self xfrm σ1 σ'); try done.
      - intros r Hr. by apply (first_child_found_in_skeleton _ _ σ1).
      - intros e nd He Ht. subst σ'. rewrite list_lookup_insert_ne; [done|].
        intros <-. destruct (shape_xfrm_allocated self σ1 xfrm Hcl1 Hx1')
          as (ndx' & Hndx'' & Htag). congruence. }
    destruct o as [xfrm0|].
    + by destruct Ho as [-> ->].
    + destruct Ho as [_ Hnew]. rewrite (child_attrib_None_xfrm s' self σ Hx).
      apply (child_attrib_None s' self σ1 xfrm Hx1').
      by apply slot_get_no_children with (Node "a:xfrm" ∅ []).
Qed.


(** The effect of [x], [y], [cx] and [cy] on the geometry: one attribute of
    the child is written, on the attributes the child had, or on those of
    the element [nd0] the constructor makes when there was no child; the
    attributes of the transform and its other children read as before. *)
Lemma set_child_attr_view s new t nd0 a self v σ o :
  closed σ → BaseShapeElement.xfrm self σ = Ok (o, σ) →
  constructs t new → (∀ σ, new σ = Ok (length σ, σ ++ [nd0])) →
  candidates s = [t] → t ≠ "p:spPr" → t ≠ "a:xfrm" →
  ∃ σ' m0 xfrm,
    set_child_attr s new a self v σ = Ok (tt, σ') ∧ closed σ' ∧
    BaseShapeElement.xfrm self σ' = Ok (Some xfrm, σ') ∧
    (child_attrib s self σ = Ok (Some m0) ∨
     child_attrib s self σ = Ok None ∧ m0 = attrib nd0) ∧
    child_attrib s self σ' = Ok (Some (attr_write a v m0)) ∧
    xfrm_attrib self σ' = xfrm_attrib self σ ∧
    (∀ s' t', candidates s' = [t'] → t' ≠ t → t' ≠ "a:xfrm" →
       child_attrib s' self σ' = child_attrib s' self σ).
Proof.
  intros Hcl Hx Hnew Heval Hs Hsp_ne Hxf_ne.
  destruct (write_child_trace s new t a self v σ o Hcl Hx Hnew Hs)
    as (sp & xfrm & c & ndc & σ1 & σ2 & Hsp & Hcl1 & Heff1 & Hsp1 & Hx1 & Ho
        & Hrun2 & Hcl2 & Heff2 & Hget2 & Hndc & Hrun).
  set (σ' := <[c := with_attrib ndc (attr_write a v (attrib ndc))]> σ2) in *.
  assert (Hsk : skeleton σ2 = skeleton σ').
  { symmetry. by apply skeleton_with_attrib. }
  assert (Hx1' : BaseShapeElement.xfrm self σ1 = Ok (Some xfrm, σ1))
    by (by apply shape_xfrm_eval with sp).
  assert (Hx' : BaseShapeElement.xfrm self σ' = Ok (Some xfrm, σ')).
  { apply shape_xfrm_eval with sp.
    - apply (first_child_found_in_stable _ _ _ _ _ _ _ _ _ _ Hcl1 Heff2 Hsk); [|done].
      by rewrite list_elem_of_singleton.
    - apply (first_child_found_in_stable _ _ _ _ _ _ _ _ _ _ Hcl1 Heff2 Hsk); [|done].
      by rewrite list_elem_of_singleton. }
  assert (Hc' : σ' !! c = Some (with_attrib ndc (attr_write a v (attrib ndc)))).
  { apply list_lookup_insert_eq. by eapply lookup_lt_Some. }
  assert (Htagc : tag_of σ2 c = Some t) by (by eapply get_or_add_effect_tag).
  destruct (shape_xfrm_allocated self σ1 xfrm Hcl1 Hx1') as (ndx & Hndx & Htagx).
  assert (Hne : c ≠ xfrm).
  { intros ->.
    destruct (get_or_add_effect_parent _ _ _ _ _ _ _ Heff2 Hndx) as (nd' & Hnd' & Ht' & _).
    unfold tag_of in Htagc. rewrite Hnd' in Htagc. simpl in Htagc. congruence. }
  assert (Hframe1 : child_attrib s self σ1 = child_attrib s self σ ∧
                    xfrm_attrib self σ1 = xfrm_attrib self σ ∧
                    ∀ s', child_attrib s' self σ1 = child_attrib s' self σ).
  { destruct o as [xfrm0|].
    - by destruct Ho as [-> ->].
    - destruct Ho as [_ Hnew1].
      assert (∀ s', child_attrib s' self σ1 = child_attrib s' self σ) as Hall.
      { intros s'. rewrite (child_attrib_None_xfrm s' self σ Hx).
        apply (child_attrib_None s' self σ1 xfrm Hx1').
        by apply slot_get_no_children with (Node "a:xfrm" ∅ []). }
      split; [done|]. split; [|done].
      rewrite (xfrm_attrib_Some self σ1 xfrm _ Hx1' Hnew1).
      unfold xfrm_attrib. by rewrite Hx. }
  destruct Hframe1 as (Hchild1 & Hattr1 & Hother1).
  exists σ', (attrib ndc), xfrm. split; [done|].
  split; [by apply (skeleton_closed σ2)|]. split; [done|].
  split; [|split; [|split]].
  - rewrite <- Hchild1. destruct Heff2 as [[Hocc ->]|(Hnone & _)].
    + left. by apply (child_attrib_Some s self σ1 xfrm c ndc).
    + right. split; [by apply (child_attrib_None s self σ1 xfrm)|].
      destruct (slot_get_or_add_fresh s new t xfrm σ1 _ _ c σ2 Hnew Hnone
                  (Heval σ1) Hrun2) as [-> Hsame].
      rewrite list_lookup_middle in Hsame by done. congruence.
  - apply (child_attrib_Some s self σ' xfrm c
             (with_attrib ndc (attr_write a v (attrib ndc))) Hx'); [|done].
    by apply (first_child_found_in_skeleton _ _ σ2).
  - rewrite <- Hattr1.
    destruct (get_or_add_effect_parent _ _ _ _ _ _ _ Heff2 Hndx) as (nd' & Hnd' & _ & Ha').
    rewrite (xfrm_attrib_Some self σ1 xfrm ndx Hx1' Hndx).
    rewrite (xfrm_attrib_Some self σ' xfrm nd' Hx'); [by rewrite Ha'|].
    subst σ'. by rewrite list_lookup_insert_ne.
  - intros s' t' Hs' Ht' Hxf'. rewrite <- Hother1.
    apply (child_attrib_frame s' t' self xfrm σ1 σ'); try done.
    + intros r Hr.
      apply (first_child_found_in_stable _ _ _ _ _ _ _ _ _ _ Hcl1 Heff2 Hsk); [|done].
      rewrite Hs', list_elem_of_singleton. congruence.
    + intros e nd He Ht.
      assert (σ2 !! e = Some nd) as He2.
      { apply (get_or_add_effect_other _ _ _ _ _ _ _ _ Heff2 He). congruence. }
      subst σ'. rewrite list_lookup_insert_ne; [done|].
      intros <-. unfold tag_of in Htagc. rewrite He2 in Htagc. simpl in Htagc.
      congruence.
Qed.

End setter_effects.


Lemma attr_of_write a v m :
  round_trips a v → attr_of a (attr_write a v m) = Ok (Some v).
Proof. intros Hv. by apply (attr_read_write a v (Node "" m [])). Qed.

Lemma attr_of_write_other a b v m :
  slot_name a ≠ slot_name b → attr_of b (attr_write a v m) = attr_of b m.
Proof. intros Hne. by apply (attr_read_write_other a b v (Node "" m [])). Qed.

Lemma attr_write_idemp a v m : attr_write a v (attr_write a v m) = attr_write a v m.
Proof.
  destruct a as [name c|name c d]; simpl.
  - apply insert_insert_eq.
  - case_bool_decide; [apply delete_delete_eq|apply insert_insert_eq].
Qed.

(** ** Setters and getters of the geometry *)

Section geometry.
Context `{Collaborators}.

Lemma set_x_view self v σ o :
  closed σ → BaseShapeElement.xfrm self σ = Ok (o, σ) →
  ∃ σ' m0 xfrm,
    BaseShapeElement.set_x self v σ = Ok (tt, σ') ∧ closed σ' ∧
    BaseShapeElement.xfrm self σ' = Ok (Some xfrm, σ') ∧
    (child_attrib CT_Transform2D.off_slot self σ = Ok (Some m0) ∨
     child_attrib CT_Transform2D.off_slot self σ = Ok None ∧
     m0 = attrib new_off_node) ∧
    child_attrib CT_Transform2D.off_slot self σ'
      = Ok (Some (attr_write CT_Point2D.x v m0)) ∧
    xfrm_attrib self σ' = xfrm_attrib self σ ∧
    child_attrib CT_Transform2D.ext_slot self σ'
      = child_attrib CT_Transform2D.ext_slot self σ.
Proof.
  intros Hcl Hx.
  destruct (set_child_attr_view CT_Transform2D.off_slot CT_Transform2D._new_off
              "a:off" new_off_node CT_Point2D.x self v σ o Hcl Hx
              _new_off_constructs _new_off_node eq_refl)
    as (σ' & m0 & xfrm & Hrun & Hcl' & Hx' & Hm0 & Hchild & Hattr & Hother);
    [done..|].
  exists σ', m0, xfrm. do 6 (split; [done|]).
  by apply (Hother CT_Transform2D.ext_slot "a:ext").
Qed.

Lemma set_y_view self v σ o :
  closed σ → BaseShapeElement.xfrm self σ = Ok (o, σ) →
  ∃ σ' m0 xfrm,
    BaseShapeElement.set_y self v σ = Ok (tt, σ') ∧ closed σ' ∧
    BaseShapeElement.xfrm self σ' = Ok (Some xfrm, σ') ∧
    (child_attrib CT_Transform2D.off_slot self σ = Ok (Some m0) ∨
     child_attrib CT_Transform2D.off_slot self σ = Ok None ∧
     m0 = attrib new_off_node) ∧
    child_attrib CT_Transform2D.off_slot self σ'
      = Ok (Some (attr_write CT_Point2D.y v m0)) ∧
    xfrm_attrib self σ' = xfrm_attrib self σ ∧
    child_attrib CT_Transform2D.ext_slot self σ'
      = child_attrib CT_Transform2D.ext_slot self σ.
Proof.
  intros Hcl Hx.
  destruct (set_child_attr_view CT_Transform2D.off_slot CT_Transform2D._new_off
              "a:off" new_off_node CT_Point2D.y self v σ o Hcl Hx
              _new_off_constructs _new_off_node eq_refl)
    as (σ' & m0 & xfrm & Hrun & Hcl' & Hx' & Hm0 & Hchild & Hattr & Hother);
    [done..|].
  exists σ', m0, xfrm. do 6 (split; [done|]).
  by apply (Hother CT_Transform2D.ext_slot "a:ext").
Qed.

Lemma set_cx_view self v σ o :
  closed σ → BaseShapeElement.xfrm self σ = Ok (o, σ) →
  ∃ σ' m0 xfrm,
    BaseShapeElement.set_cx self v σ = Ok (tt, σ') ∧ closed σ' ∧
    BaseShapeElement.xfrm self σ' = Ok (Some xfrm, σ') ∧
    (child_attrib CT_Transform2D.ext_slot self σ = Ok (Some m0) ∨
     child_attrib CT_Transform2D.ext_slot self σ = Ok None ∧
     m0 = attrib new_ext_node) ∧
    child_attrib CT_Transform2D.ext_slot self σ'
      = Ok (Some (attr_write CT_PositiveSize2D.cx v m0)) ∧
    xfrm_attrib self σ' = xfrm_attrib self σ ∧
    child_attrib CT_Transform2D.off_slot self σ'
      = child_attrib CT_Transform2D.off_slot self σ.
Proof.
  intros Hcl Hx.
  destruct (set_child_attr_view CT_Transform2D.ext_slot CT_Transform2D._new_ext
              "a:ext" new_ext_node CT_PositiveSize2D.cx self v σ o Hcl Hx
              _new_ext_constructs _new_ext_node eq_refl)
    as (σ' & m0 & xfrm & Hrun & Hcl' & Hx' & Hm0 & Hchild & Hattr & Hother);
    [done..|].
  exists σ', m0, xfrm. do 6 (split; [done|]).
  by apply (Hother CT_Transform2D.off_slot "a:off").
Qed.

Lemma set_cy_view self v σ o :
  closed σ → BaseShapeElement.xfrm self σ = Ok (o, σ) →
  ∃ σ' m0 xfrm,
    BaseShapeElement.set_cy self v σ = Ok (tt, σ') ∧ closed σ' ∧
    BaseShapeElement.xfrm self σ' = Ok (Some xfrm, σ') ∧
    (child_attrib CT_Transform2D.ext_slot self σ = Ok (Some m0) ∨
     child_attrib CT_Transform2D.ext_slot self σ = Ok None ∧
     m0 = attrib new_ext_node) ∧
    child_attrib CT_Transform2D.ext_slot self σ'
      = Ok (Some (attr_write CT_PositiveSize2D.cy v m0)) ∧
    xfrm_attrib self σ' = xfrm_attrib self σ ∧
    child_attrib CT_Transform2D.off_slot self σ'
      = child_attrib CT_Transform2D.off_slot self σ.
Proof.
  intros Hcl Hx.
  destruct (set_child_attr_view CT_Transform2D.ext_slot CT_Transform2D._new_ext
              "a:ext" new_ext_node CT_PositiveSize2D.cy self v σ o Hcl Hx
              _new_ext_constructs _new_ext_node eq_refl)
    as (σ' & m0 & xfrm & Hrun & Hcl' & Hx' & Hm0 & Hchild & Hattr & Hother);
    [done..|].
  exists σ', m0, xfrm. do 6 (split; [done|]).
  by apply (Hother CT_Transform2D.off_slot "a:off").
Qed.

Lemma read_only_x self : read_only (BaseShapeElement.x self).
Proof. apply read_only_get_xfrm_attr. Qed.
Lemma read_only_y self : read_only (BaseShapeElement.y self).
Proof. apply read_only_get_xfrm_attr. Qed.
Lemma read_only_cx self : read_only (BaseShapeElement.cx self).
Proof. apply read_only_get_xfrm_attr. Qed.
Lemma read_only_cy self : read_only (BaseShapeElement.cy self).
Proof. apply read_only_get_xfrm_attr. Qed.

Lemma read_only_rot self : read_only (BaseShapeElement.rot self).
Proof.
  apply read_only_bind; [apply read_only_xfrm|].
  intros [xfrm|]; [|apply read_only_ret].
  apply read_only_bind; [apply read_only_attr_get|].
  intros [r|]; [apply read_only_attr_get|apply read_only_ret].
Qed.

Lemma read_only_flipH self : read_only (BaseShapeElement.flipH self).
Proof.
  apply read_only_bind; [apply read_only_get_xfrm_attr|].
  intros v. apply read_only_ret.
Qed.

Lemma read_only_flipV self : read_only (BaseShapeElement.flipV self).
Proof.
  apply read_only_bind; [apply read_only_get_xfrm_attr|].
  intros v. apply read_only_ret.
Qed.

(** X1. On every shape with a [p:spPr], whatever is there of the transform
    and its children, each of [x], [y], [cx], [cy] reads back the value that
    has just been set, when the codec round-trips at it. *)
Theorem position_and_size_set_then_get self v σ o :
  closed σ → BaseShapeElement.xfrm self σ = Ok (o, σ) →
  (round_trips CT_Point2D.x v →
   ∃ σ', BaseShapeElement.set_x self v σ = Ok (tt, σ') ∧
     BaseShapeElement.x self σ' = Ok (Some v, σ')) ∧
  (round_trips CT_Point2D.y v →
   ∃ σ', BaseShapeElement.set_y self v σ = Ok (tt, σ') ∧
     BaseShapeElement.y self σ' = Ok (Some v, σ')) ∧
  (round_trips CT_PositiveSize2D.cx v →
   ∃ σ', BaseShapeElement.set_cx self v σ = Ok (tt, σ') ∧
     BaseShapeElement.cx self σ' = Ok (Some v, σ')) ∧
  (round_trips CT_PositiveSize2D.cy v →
   ∃ σ', BaseShapeElement.set_cy self v σ = Ok (tt, σ') ∧
     BaseShapeElement.cy self σ' = Ok (Some v, σ')).
Proof.
  intros Hcl Hx. split; [|split; [|split]]; intros Hv.
  - destruct (set_x_view self v σ o Hcl Hx)
      as (σ' & m0 & xfrm & Hrun & _ & _ & _ & Hchild & _).
    exists σ'. split; [done|].
    apply value_of_read_only; [apply read_only_x|].
    by rewrite x_eval, Hchild, attr_of_write.
  - destruct (set_y_view self v σ o Hcl Hx)
      as (σ' & m0 & xfrm & Hrun & _ & _ & _ & Hchild & _).
    exists σ'. split; [done|].
    apply value_of_read_only; [apply read_only_y|].
    by rewrite y_eval, Hchild, attr_of_write.
  - destruct (set_cx_view self v σ o Hcl Hx)
      as (σ' & m0 & xfrm & Hrun & _ & _ & _ & Hchild & _).
    exists σ'. split; [done|].
    apply value_of_read_only; [apply read_only_cx|].
    by rewrite cx_eval, Hchild, attr_of_write.
  - destruct (set_cy_view self v σ o Hcl Hx)
      as (σ' & m0 & xfrm & Hrun & _ & _ & _ & Hchild & _).
    exists σ'. split; [done|].
    apply value_of_read_only; [apply read_only_cy|].
    by rewrite cy_eval, Hchild, attr_of_write.
Qed.


(** X2. On every shape with a [p:spPr], [rot] reads back the angle that has
    just been set and [flipH], [flipV] read back the boolean that has just
    been set, when the codec round-trips at the value (and at the default of
    the attribute). *)
Theorem rot_and_flip_set_then_get self σ o :
  closed σ → BaseShapeElement.xfrm self σ = Ok (o, σ) →
  (∀ v, round_trips CT_Transform2D.rot v →
   ∃ σ', BaseShapeElement.set_rot self v σ = Ok (tt, σ') ∧
     BaseShapeElement.rot self σ' = Ok (Some v, σ')) ∧
  (∀ b, round_trips CT_Transform2D.flipH (VBool b) →
   ∃ σ', BaseShapeElement.set_flipH self (VBool b) σ = Ok (tt, σ') ∧
     BaseShapeElement.flipH self σ' = Ok (b, σ')) ∧
  (∀ b, round_trips CT_Transform2D.flipV (VBool b) →
   ∃ σ', BaseShapeElement.set_flipV self (VBool b) σ = Ok (tt, σ') ∧
     BaseShapeElement.flipV self σ' = Ok (b, σ')).
Proof.
  intros Hcl Hx. split; [|split].
  - intros v Hv.
    destruct (set_xfrm_attr_view CT_Transform2D.rot self v σ o Hcl Hx)
      as (σ' & m & xfrm & Hrun & _ & _ & _ & Hattr & _).
    exists σ'. split; [done|].
    apply value_of_read_only; [apply read_only_rot|].
    by rewrite rot_eval, Hattr, attr_of_write.
  - intros b Hv.
    destruct (set_xfrm_attr_view CT_Transform2D.flipH self (VBool b) σ o Hcl Hx)
      as (σ' & m & xfrm & Hrun & _ & _ & _ & Hattr & _).
    exists σ'. split; [done|].
    apply value_of_read_only; [apply read_only_flipH|].
    by rewrite flipH_eval, Hattr, attr_of_write.
  - intros b Hv.
    destruct (set_xfrm_attr_view CT_Transform2D.flipV self (VBool b) σ o Hcl Hx)
      as (σ' & m & xfrm & Hrun & _ & _ & _ & Hattr & _).
    exists σ'. split; [done|].
    apply value_of_read_only; [apply read_only_flipV|].
    by rewrite flipV_eval, Hattr, attr_of_write.
Qed.

Lemma same_xfrm_attrib_reads self σ σ' :
  xfrm_attrib self σ' = xfrm_attrib self σ →
  same_read BaseShapeElement.rot self σ σ' ∧
  same_read BaseShapeElement.flipH self σ σ' ∧
  same_read BaseShapeElement.flipV self σ σ'.
Proof.
  intros Hattr. unfold same_read.
  by rewrite !rot_eval, !flipH_eval, !flipV_eval, Hattr.
Qed.

Lemma same_off_reads self σ σ' :
  child_attrib CT_Transform2D.off_slot self σ'
    = child_attrib CT_Transform2D.off_slot self σ →
  same_read BaseShapeElement.x self σ σ' ∧ same_read BaseShapeElement.y self σ σ'.
Proof. intros Hc. unfold same_read. by rewrite !x_eval, !y_eval, Hc. Qed.

Lemma same_ext_reads self σ σ' :
  child_attrib CT_Transform2D.ext_slot self σ'
    = child_attrib CT_Transform2D.ext_slot self σ →
  same_read BaseShapeElement.cx self σ σ' ∧ same_read BaseShapeElement.cy self σ σ'.
Proof. intros Hc. unfold same_read. by rewrite !cx_eval, !cy_eval, Hc. Qed.

Lemma child_attrib_of_present s self σ xfrm c :
  closed σ → BaseShapeElement.xfrm self σ = Ok (Some xfrm, σ) →
  slot_get s xfrm σ = Ok (Some c, σ) →
  ∃ m, child_attrib s self σ = Ok (Some m).
Proof.
  intros Hcl Hx Hc.
  destruct (first_child_found_in_allocated _ _ _ _ Hcl Hc) as [nd Hnd].
  exists (attrib nd). by apply (child_attrib_Some s self σ xfrm c nd).
Qed.

(** X3. Setting [x] or [y] succeeds on every shape with a [p:spPr] and
    leaves what [cx], [cy], [rot], [flipH] and [flipV] read as it was; on a
    shape that has its [a:off], the other coordinate reads as it did too. *)
Theorem position_setters_change_position_only self v σ o :
  closed σ → BaseShapeElement.xfrm self σ = Ok (o, σ) →
  (∃ σ', BaseShapeElement.set_x self v σ = Ok (tt, σ') ∧
     same_read BaseShapeElement.cx self σ σ' ∧
     same_read BaseShapeElement.cy self σ σ' ∧
     same_read BaseShapeElement.rot self σ σ' ∧
     same_read BaseShapeElement.flipH self σ σ' ∧
     same_read BaseShapeElement.flipV self σ σ' ∧
     (∀ xfrm off, o = Some xfrm →
        CT_Transform2D.off xfrm σ = Ok (Some off, σ) →
        same_read BaseShapeElement.y self σ σ')) ∧
  (∃ σ', BaseShapeElement.set_y self v σ = Ok (tt, σ') ∧
     same_read BaseShapeElement.cx self σ σ' ∧
     same_read BaseShapeElement.cy self σ σ' ∧
     same_read BaseShapeElement.rot self σ σ' ∧
     same_read BaseShapeElement.flipH self σ σ' ∧
     same_read BaseShapeElement.flipV self σ σ' ∧
     (∀ xfrm off, o = Some xfrm →
        CT_Transform2D.off xfrm σ = Ok (Some off, σ) →
        same_read BaseShapeElement.x self σ σ')).
Proof.
  intros Hcl Hx. split.
  - destruct (set_x_view self v σ o Hcl Hx)
      as (σ' & m0 & xfrm & Hrun & _ & _ & Hm0 & Hchild & Hattr & Hext).
    exists σ'. split; [done|].
    destruct (same_ext_reads self σ σ' Hext) as [Hcx Hcy].
    destruct (same_xfrm_attrib_reads self σ σ' Hattr) as (Hrot & HflipH & HflipV).
    do 5 (split; [done|]).
    intros xfrm0 off -> Hoff.
    destruct (child_attrib_of_present _ self σ xfrm0 off Hcl Hx Hoff) as [m Hm].
    destruct Hm0 as [Hm0|[Hm0 _]]; [|congruence].
    unfold same_read. rewrite !y_eval, Hchild, Hm0.
    by apply attr_of_write_other.
  - destruct (set_y_view self v σ o Hcl Hx)
      as (σ' & m0 & xfrm & Hrun & _ & _ & Hm0 & Hchild & Hattr & Hext).
    exists σ'. split; [done|].
    destruct (same_ext_reads self σ σ' Hext) as [Hcx Hcy].
    destruct (same_xfrm_attrib_reads self σ σ' Hattr) as (Hrot & HflipH & HflipV).
    do 5 (split; [done|]).
    intros xfrm0 off -> Hoff.
    destruct (child_attrib_of_present _ self σ xfrm0 off Hcl Hx Hoff) as [m Hm].
    destruct Hm0 as [Hm0|[Hm0 _]]; [|congruence].
    unfold same_read. rewrite !x_eval, Hchild, Hm0.
    by apply attr_of_write_other.
Qed.

(** X4. Setting [cx] or [cy] succeeds on every shape with a [p:spPr] and
    leaves what [x], [y], [rot], [flipH] and [flipV] read as it was; on a
    shape that has its [a:ext], the other extent reads as it did too. *)
Theorem size_setters_change_size_only self v σ o :
  closed σ → BaseShapeElement.xfrm self σ = Ok (o, σ) →
  (∃ σ', BaseShapeElement.set_cx self v σ = Ok (tt, σ') ∧
     same_read BaseShapeElement.x self σ σ' ∧
     same_read BaseShapeElement.y self σ σ' ∧
     same_read BaseShapeElement.rot self σ σ' ∧
     same_read BaseShapeElement.flipH self σ σ' ∧
     same_read BaseShapeElement.flipV self σ σ' ∧
     (∀ xfrm ext, o = Some xfrm →
        CT_Transform2D.ext xfrm σ = Ok (Some ext, σ) →
        same_read BaseShapeElement.cy self σ σ')) ∧
  (∃ σ', BaseShapeElement.set_cy self v σ = Ok (tt, σ') ∧
     same_read BaseShapeElement.x self σ σ' ∧
     same_read BaseShapeElement.y self σ σ' ∧
     same_read BaseShapeElement.rot self σ σ' ∧
     same_read BaseShapeElement.flipH self σ σ' ∧
     same_read BaseShapeElement.flipV self σ σ' ∧
     (∀ xfrm ext, o = Some xfrm →
        CT_Transform2D.ext xfrm σ = Ok (Some ext, σ) →
        same_read BaseShapeElement.cx self σ σ')).
Proof.
  intros Hcl Hx. split.
  - destruct (set_cx_view self v σ o Hcl Hx)
      as (σ' & m0 & xfrm & Hrun & _ & _ & Hm0 & Hchild & Hattr & Hoff).
    exists σ'. split; [done|].
    destruct (same_off_reads self σ σ' Hoff) as [Hrx Hry].
    destruct (same_xfrm_attrib_reads self σ σ' Hattr) as (Hrot & HflipH & HflipV).
    do 5 (split; [done|]).
    intros xfrm0 ext -> Hext.
    destruct (child_attrib_of_present _ self σ xfrm0 ext Hcl Hx Hext) as [m Hm].
    destruct Hm0 as [Hm0|[Hm0 _]]; [|congruence].
    unfold same_read. rewrite !cy_eval, Hchild, Hm0.
    by apply attr_of_write_other.
  - destruct (set_cy_view self v σ o Hcl Hx)
      as (σ' & m0 & xfrm & Hrun & _ & _ & Hm0 & Hchild & Hattr & Hoff).
    exists σ'. split; [done|].
    destruct (same_off_reads self σ σ' Hoff) as [Hrx Hry].
    destruct (same_xfrm_attrib_reads self σ σ' Hattr) as (Hrot & HflipH & HflipV).
    do 5 (split; [done|]).
    intros xfrm0 ext -> Hext.
    destruct (child_attrib_of_present _ self σ xfrm0 ext Hcl Hx Hext) as [m Hm].
    destruct Hm0 as [Hm0|[Hm0 _]]; [|congruence].
    unfold same_read. rewrite !cx_eval, Hchild, Hm0.
    by apply attr_of_write_other.
Qed.

(** X5. Setting [rot], [flipH] or [flipV] succeeds on every shape with a
    [p:spPr] and leaves what [x], [y], [cx], [cy] and the two other
    attributes of the transform read as it was. *)
Theorem rot_and_flip_setters_change_one_attribute self v σ o :
  closed σ → BaseShapeElement.xfrm self σ = Ok (o, σ) →
  (∃ σ', BaseShapeElement.set_rot self v σ = Ok (tt, σ') ∧
     same_read BaseShapeElement.x self σ σ' ∧
     same_read BaseShapeElement.y self σ σ' ∧
     same_read BaseShapeElement.cx self σ σ' ∧
     same_read BaseShapeElement.cy self σ σ' ∧
     same_read BaseShapeElement.flipH self σ σ' ∧
     same_read BaseShapeElement.flipV self σ σ') ∧
  (∃ σ', BaseShapeElement.set_flipH self v σ = Ok (tt, σ') ∧
     same_read BaseShapeElement.x self σ σ' ∧
     same_read BaseShapeElement.y self σ σ' ∧
     same_read BaseShapeElement.cx self σ σ' ∧
     same_read BaseShapeElement.cy self σ σ' ∧
     same_read BaseShapeElement.rot self σ σ' ∧
     same_read BaseShapeElement.flipV self σ σ') ∧
  (∃ σ', BaseShapeElement.set_flipV self v σ = Ok (tt, σ') ∧
     same_read BaseShapeElement.x self σ σ' ∧
     same_read BaseShapeElement.y self σ σ' ∧
     same_read BaseShapeElement.cx self σ σ' ∧
     same_read BaseShapeElement.cy self σ σ' ∧
     same_read BaseShapeElement.rot self σ σ' ∧
     same_read BaseShapeElement.flipH self σ σ').
Proof.
  intros Hcl Hx.
  assert (Hgen : ∀ a, ∃ σ' m,
    set_xfrm_attr a self v σ = Ok (tt, σ') ∧
    xfrm_attrib self σ = Ok m ∧ xfrm_attrib self σ' = Ok (attr_write a v m) ∧
    same_read BaseShapeElement.x self σ σ' ∧
    same_read BaseShapeElement.y self σ σ' ∧
    same_read BaseShapeElement.cx self σ σ' ∧
    same_read BaseShapeElement.cy self σ σ').
  { intros a.
    destruct (set_xfrm_attr_view a self v σ o Hcl Hx)
      as (σ' & m & xfrm & Hrun & _ & _ & Hm & Hattr & Hother).
    exists σ', m.
    destruct (same_off_reads self σ σ' (Hother CT_Transform2D.off_slot "a:off"
                                          eq_refl ltac:(done))) as [Hrx Hry].
    destruct (same_ext_reads self σ σ' (Hother CT_Transform2D.ext_slot "a:ext"
                                          eq_refl ltac:(done))) as [Hrcx Hrcy].
    done. }
  split; [|split].
  - destruct (Hgen CT_Transform2D.rot) as (σ' & m & Hrun & Hm & Hm' & Hx' & Hy' & Hcx' & Hcy').
    exists σ'. do 5 (split; [done|]). unfold same_read.
    by rewrite !flipH_eval, !flipV_eval, Hm, Hm', !attr_of_write_other.
  - destruct (Hgen CT_Transform2D.flipH) as (σ' & m & Hrun & Hm & Hm' & Hx' & Hy' & Hcx' & Hcy').
    exists σ'. do 5 (split; [done|]). unfold same_read.
    by rewrite !rot_eval, !flipV_eval, Hm, Hm', !attr_of_write_other.
  - destruct (Hgen CT_Transform2D.flipV) as (σ' & m & Hrun & Hm & Hm' & Hx' & Hy' & Hcx' & Hcy').
    exists σ'. do 5 (split; [done|]). unfold same_read.
    by rewrite !rot_eval, !flipH_eval, Hm, Hm', !attr_of_write_other.
Qed.

End geometry.


(** ** Reading never writes *)

Section getters.
Context `{Collaborators}.

Lemma read_only_ph_attr a self :
  read_only (ph ← BaseShapeElement.ph self;
             match ph with
             | None => raise (ValueError "not a placeholder shape")
             | Some ph => attr_get a ph
             end).
Proof.
  apply read_only_bind; [apply read_only_ph|].
  intros [ph|]; [apply read_only_attr_get|apply read_only_raise].
Qed.

Lemma read_only_child_attr s a self :
  read_only (c ← slot_get s self;
             match c with
             | None => mret None
             | Some c => attr_get a c
             end).
Proof.
  apply read_only_bind; [apply read_only_first_child_found_in|].
  intros [c|]; [apply read_only_attr_get|apply read_only_ret].
Qed.

(** X6. No getter of [shared.py] changes the document: whenever one returns,
    the store is the one it was called on.  In particular reading a geometry
    property of a shape without [a:xfrm] does not create one. *)
Theorem getters_never_write self :
  (read_only (BaseShapeElement.x self) ∧ read_only (BaseShapeElement.y self) ∧
   read_only (BaseShapeElement.cx self) ∧ read_only (BaseShapeElement.cy self) ∧
   read_only (BaseShapeElement.rot self) ∧
   read_only (BaseShapeElement.flipH self) ∧
   read_only (BaseShapeElement.flipV self)) ∧
  (read_only (BaseShapeElement.xfrm self) ∧
   read_only (BaseShapeElement.txBody self) ∧
   read_only (BaseShapeElement.ph self) ∧
   read_only (BaseShapeElement.has_ph_elm self) ∧
   read_only (BaseShapeElement.ph_idx self) ∧
   read_only (BaseShapeElement.ph_orient self) ∧
   read_only (BaseShapeElement.ph_sz self) ∧
   read_only (BaseShapeElement.ph_type self)) ∧
  (read_only (CT_Transform2D.x self) ∧ read_only (CT_Transform2D.y self) ∧
   read_only (CT_Transform2D.cx self) ∧ read_only (CT_Transform2D.cy self)) ∧
  (read_only (CT_LineProperties.prstDash_val self) ∧
   read_only (CT_LineProperties.eg_fillProperties self)).
Proof.
  split; [|split; [|split]].
  - repeat split.
    + apply read_only_x.
    + apply read_only_y.
    + apply read_only_cx.
    + apply read_only_cy.
    + apply read_only_rot.
    + apply read_only_flipH.
    + apply read_only_flipV.
  - repeat split.
    + apply read_only_xfrm.
    + apply read_only_first_child_found_in.
    + apply read_only_ph.
    + apply read_only_bind; [apply read_only_ph|]. intros ph. apply read_only_ret.
    + apply read_only_ph_attr.
    + apply read_only_ph_attr.
    + apply read_only_ph_attr.
    + apply read_only_ph_attr.
  - repeat split; apply read_only_child_attr.
  - split; [apply read_only_child_attr|apply read_only_first_child_found_in].
Qed.

End getters.

(** ** Setting twice *)

Section twice.
Context `{Collaborators}.

Lemma insert_written_again a v (σ : store) l nd :
  σ !! l = Some (with_attrib nd (attr_write a v (attrib nd))) →
  <[l := with_attrib (with_attrib nd (attr_write a v (attrib nd)))
           (attr_write a v (attrib (with_attrib nd (attr_write a v (attrib nd)))))]> σ
  = σ.
Proof.
  intros Hl. apply list_insert_id. rewrite Hl. f_equal.
  unfold with_attrib. simpl. by rewrite attr_write_idemp.
Qed.

Lemma set_xfrm_attr_twice a self v σ o :
  closed σ → BaseShapeElement.xfrm self σ = Ok (o, σ) →
  ∃ σ', set_xfrm_attr a self v σ = Ok (tt, σ') ∧
    set_xfrm_attr a self v σ' = Ok (tt, σ').
Proof.
  intros Hcl Hx.
  destruct (write_xattr_trace a self v σ o Hcl Hx)
    as (sp & xfrm & ndx & σ1 & Hsp & Hcl1 & Heff & Hsp1 & Hx1 & Ho & Hndx & Hrun).
  set (nd' := with_attrib ndx (attr_write a v (attrib ndx))) in *.
  set (σ' := <[xfrm := nd']> σ1) in *.
  assert (Hsk : skeleton σ1 = skeleton σ').
  { symmetry. by apply skeleton_with_attrib. }
  assert (Hcl' : closed σ') by (by apply (skeleton_closed σ1)).
  assert (Hx' : BaseShapeElement.xfrm self σ' = Ok (Some xfrm, σ')).
  { apply shape_xfrm_eval with sp; by apply (first_child_found_in_skeleton _ _ σ1). }
  assert (Hndx' : σ' !! xfrm = Some nd').
  { apply list_lookup_insert_eq. by eapply lookup_lt_Some. }
  exists σ'. split; [done|].
  destruct (get_or_add_xfrm_trace self σ' (Some xfrm) Hcl' Hx')
    as (sp' & xfrm' & σ1' & _ & Hrun' & _ & _ & _ & _ & [-> ->]).
  unfold set_xfrm_attr. rewrite (bind_Ok _ _ _ _ _ Hrun').
  rewrite (attr_set_eval a xfrm v σ' nd' Hndx'). do 2 f_equal.
  by apply insert_written_again.
Qed.

Lemma set_child_attr_twice s new t a self v σ o :
  closed σ → BaseShapeElement.xfrm self σ = Ok (o, σ) →
  constructs t new → candidates s = [t] → t ≠ "p:spPr" → t ≠ "a:xfrm" →
  ∃ σ', set_child_attr s new a self v σ = Ok (tt, σ') ∧
    set_child_attr s new a self v σ' = Ok (tt, σ').
Proof.
  intros Hcl Hx Hnew Hs Hsp_ne Hxf_ne.
  destruct (write_child_trace s new t a self v σ o Hcl Hx Hnew Hs)
    as (sp & xfrm & c & ndc & σ1 & σ2 & Hsp & Hcl1 & Heff1 & Hsp1 & Hx1 & Ho
        & Hrun2 & Hcl2 & Heff2 & Hget2 & Hndc & Hrun).
  set (nd' := with_attrib ndc (attr_write a v (attrib ndc))) in *.
  set (σ' := <[c := nd']> σ2) in *.
  assert (Hsk : skeleton σ2 = skeleton σ').
  { symmetry. by apply skeleton_with_attrib. }
  assert (Hcl' : closed σ') by (by apply (skeleton_closed σ2)).
  assert (Hx' : BaseShapeElement.xfrm self σ' = Ok (Some xfrm, σ')).
  { apply shape_xfrm_eval with sp.
    - apply (first_child_found_in_stable _ _ _ _ _ _ _ _ _ _ Hcl1 Heff2 Hsk); [|done].
      by rewrite list_elem_of_singleton.
    - apply (first_child_found_in_stable _ _ _ _ _ _ _ _ _ _ Hcl1 Heff2 Hsk); [|done].
      by rewrite list_elem_of_singleton. }
  assert (Hc' : σ' !! c = Some nd').
  { apply list_lookup_insert_eq. by eapply lookup_lt_Some. }
  assert (Hget' : slot_get s xfrm σ' = Ok (Some c, σ'))
    by (by apply (first_child_found_in_skeleton _ _ σ2)).
  exists σ'. split; [done|].
  destruct (get_or_add_xfrm_trace self σ' (Some xfrm) Hcl' Hx')
    as (sp' & xfrm' & σ1' & _ & Hrun' & _ & _ & _ & _ & [-> ->]).
  unfold set_child_attr. rewrite (bind_Ok _ _ _ _ _ Hrun').
  rewrite (bind_Ok _ _ _ _ _ (slot_get_or_add_present s new xfrm σ' c Hget')).
  rewrite (attr_set_eval a c v σ' nd' Hc'). do 2 f_equal.
  by apply insert_written_again.
Qed.

(** X7. Every geometry setter is idempotent: assigning the same value a
    second time succeeds and leaves the document exactly as the first
    assignment left it (no second [a:xfrm], [a:off] or [a:ext]). *)
Theorem setters_idempotent self v σ o set :
  closed σ → BaseShapeElement.xfrm self σ = Ok (o, σ) →
  set ∈ [BaseShapeElement.set_rot; BaseShapeElement.set_flipH;
         BaseShapeElement.set_flipV; BaseShapeElement.set_x;
         BaseShapeElement.set_y; BaseShapeElement.set_cx;
         BaseShapeElement.set_cy] →
  ∃ σ', set self v σ = Ok (tt, σ') ∧ set self v σ' = Ok (tt, σ').
Proof.
  intros Hcl Hx Hset.
  repeat (apply elem_of_cons in Hset as [->|Hset]); [..|by inversion Hset].
  - apply (set_xfrm_attr_twice CT_Transform2D.rot self v σ o Hcl Hx).
  - apply (set_xfrm_attr_twice CT_Transform2D.flipH self v σ o Hcl Hx).
  - apply (set_xfrm_attr_twice CT_Transform2D.flipV self v σ o Hcl Hx).
  - by apply (set_child_attr_twice CT_Transform2D.off_slot CT_Transform2D._new_off
                "a:off" CT_Point2D.x self v σ o Hcl Hx _new_off_constructs).
  - by apply (set_child_attr_twice CT_Transform2D.off_slot CT_Transform2D._new_off
                "a:off" CT_Point2D.y self v σ o Hcl Hx _new_off_constructs).
  - by apply (set_child_attr_twice CT_Transform2D.ext_slot CT_Transform2D._new_ext
                "a:ext" CT_PositiveSize2D.cx self v σ o Hcl Hx _new_ext_constructs).
  - by apply (set_child_attr_twice CT_Transform2D.ext_slot CT_Transform2D._new_ext
                "a:ext" CT_PositiveSize2D.cy self v σ o Hcl Hx _new_ext_constructs).
Qed.

End twice.


(** ** Schema order under the setters *)

Lemma child_tags_skeleton σ σ' p :
  skeleton σ = skeleton σ' → child_tags σ' p = child_tags σ p.
Proof.
  intros Hsk. unfold child_tags.
  destruct (σ !! p) as [nd|] eqn:Hp.
  - destruct (skeleton_lookup σ σ' p nd Hsk Hp) as (nd' & -> & _ & ->).
    apply omap_tag_of_ext, Forall_forall. intros c _. by apply skeleton_tag_of.
  - destruct (σ' !! p) as [nd'|] eqn:Hp'; [|done].
    symmetry in Hsk.
    destruct (skeleton_lookup σ' σ p nd' Hsk Hp') as (nd & Hnd & _). congruence.
Qed.

Lemma child_tags_effect_other s t p c σ σ' q :
  closed σ → get_or_add_effect s t p c σ σ' → is_Some (σ !! q) → q ≠ p →
  child_tags σ' q = child_tags σ q.
Proof.
  intros Hcl [[_ ->]|(_ & _ & _ & _ & Htags & Hother & _)] [nd Hq] Hne; [done|].
  unfold child_tags. rewrite Hother; [|by eapply lookup_lt_Some|done].
  rewrite Hq. apply omap_tag_of_ext, Forall_forall. intros c' Hc'.
  apply Htags. by eapply closed_lookup.
Qed.

Lemma schema_ordered_nil seq : schema_ordered seq [].
Proof. unfold schema_ordered. simpl. constructor. Qed.

Section order.
Context `{Collaborators}.

Lemma spPr_inv self σ sp :
  BaseShapeElement.spPr self σ = Ok (sp, σ) →
  first_child_found_in self ["p:spPr"] σ = Ok (Some sp, σ).
Proof. intros Hsp. by apply OneAndOnlyOne_inv in Hsp as [_ Hsp]. Qed.

Lemma set_xfrm_attr_ordered a self v σ o sp :
  closed σ → BaseShapeElement.xfrm self σ = Ok (o, σ) →
  BaseShapeElement.spPr self σ = Ok (sp, σ) →
  schema_ordered CT_ShapeProperties._tag_seq (child_tags σ sp) →
  (∀ xfrm, o = Some xfrm →
     schema_ordered CT_Transform2D._tag_seq (child_tags σ xfrm)) →
  ∃ σ' xfrm, set_xfrm_attr a self v σ = Ok (tt, σ') ∧
    BaseShapeElement.xfrm self σ' = Ok (Some xfrm, σ') ∧
    BaseShapeElement.spPr self σ' = Ok (sp, σ') ∧
    schema_ordered CT_ShapeProperties._tag_seq (child_tags σ' sp) ∧
    schema_ordered CT_Transform2D._tag_seq (child_tags σ' xfrm).
Proof.
  intros Hcl Hx Hsp0 Hord_sp Hord_x. apply spPr_inv in Hsp0.
  destruct (write_xattr_trace a self v σ o Hcl Hx)
    as (sp' & xfrm & ndx & σ1 & Hsp & Hcl1 & Heff & Hsp1 & Hx1 & Ho & Hndx & Hrun).
  assert (sp' = sp) as -> by congruence.
  set (σ' := <[xfrm := with_attrib ndx (attr_write a v (attrib ndx))]> σ1) in *.
  assert (Hsk : skeleton σ1 = skeleton σ').
  { symmetry. by apply skeleton_with_attrib. }
  exists σ', xfrm. split; [done|]. split; [|split; [|split]].
  - apply shape_xfrm_eval with sp; by apply (first_child_found_in_skeleton _ _ σ1).
  - apply OneAndOnlyOne_Ok. by apply (first_child_found_in_skeleton _ _ σ1).
  - rewrite (child_tags_skeleton σ1 σ' sp Hsk).
    apply (get_or_add_effect_ordered _ CT_ShapeProperties.xfrm_slot "a:xfrm"
             sp xfrm σ σ1 Hcl); try done.
    + apply declared_inb_correct. vm_compute. reflexivity.
    + by apply list_elem_of_singleton.
  - rewrite (child_tags_skeleton σ1 σ' xfrm Hsk).
    destruct o as [xfrm0|].
    + destruct Ho as [-> ->]. by apply Hord_x.
    + destruct Ho as [_ Hnew]. unfold child_tags. rewrite Hnew. simpl.
      apply schema_ordered_nil.
Qed.

Lemma set_child_attr_ordered s new t a self v σ o sp :
  closed σ → BaseShapeElement.xfrm self σ = Ok (o, σ) →
  constructs t new → candidates s = [t] →
  declared_in CT_Transform2D._tag_seq s →
  BaseShapeElement.spPr self σ = Ok (sp, σ) →
  schema_ordered CT_ShapeProperties._tag_seq (child_tags σ sp) →
  (∀ xfrm, o = Some xfrm →
     schema_ordered CT_Transform2D._tag_seq (child_tags σ xfrm)) →
  ∃ σ' xfrm, set_child_attr s new a self v σ = Ok (tt, σ') ∧
    BaseShapeElement.xfrm self σ' = Ok (Some xfrm, σ') ∧
    BaseShapeElement.spPr self σ' = Ok (sp, σ') ∧
    schema_ordered CT_ShapeProperties._tag_seq (child_tags σ' sp) ∧
    schema_ordered CT_Transform2D._tag_seq (child_tags σ' xfrm).
Proof.
  intros Hcl Hx Hnew Hs Hdecl Hsp0 Hord_sp Hord_x. apply spPr_inv in Hsp0.
  destruct (write_child_trace s new t a self v σ o Hcl Hx Hnew Hs)
    as (sp' & xfrm & c & ndc & σ1 & σ2 & Hsp & Hcl1 & Heff1 & Hsp1 & Hx1 & Ho
        & Hrun2 & Hcl2 & Heff2 & Hget2 & Hndc & Hrun).
  assert (sp' = sp) as -> by congruence.
  set (σ' := <[c := with_attrib ndc (attr_write a v (attrib ndc))]> σ2) in *.
  assert (Hsk : skeleton σ2 = skeleton σ').
  { symmetry. by apply skeleton_with_attrib. }
  assert (Ht : t ∈ candidates s) by (rewrite Hs; by apply list_elem_of_singleton).
  destruct (found_has_tag _ _ _ _ Hsp1) as (ndsp & Hndsp & Htsp).
  destruct (found_has_tag _ _ _ _ Hx1) as (ndx & Hndx & Htx).
  apply list_elem_of_singleton in Htsp, Htx.
  assert (Hne : sp ≠ xfrm) by (intros ->; congruence).
  assert (Hdecl_sp : declared_in CT_ShapeProperties._tag_seq
                       CT_ShapeProperties.xfrm_slot).
  { apply declared_inb_correct. vm_compute. reflexivity. }
  assert (Hsp2 : first_child_found_in self ["p:spPr"] σ2 = Ok (Some sp, σ2)).
  { apply (first_child_found_in_effect _ _ _ _ _ _ _ _ _ Hcl1 Heff2); [|done].
    rewrite list_elem_of_singleton. intros ->.
    destruct Hdecl as [Hnd [pre Hseq]]. rewrite Hs in Hseq.
    assert ("p:spPr" ∈ CT_Transform2D._tag_seq) as Hin.
    { rewrite Hseq. apply elem_of_app. right. apply elem_of_app. left.
      by apply list_elem_of_singleton. }
    vm_compute in Hin. by repeat (apply elem_of_cons in Hin as [?|Hin]; [done|]);
      inversion Hin. }
  assert (Hx2 : first_child_found_in sp ["a:xfrm"] σ2 = Ok (Some xfrm, σ2)).
  { apply (first_child_found_in_effect _ _ _ _ _ _ _ _ _ Hcl1 Heff2); [|done].
    rewrite list_elem_of_singleton. intros ->.
    destruct Hdecl as [Hnd [pre Hseq]]. rewrite Hs in Hseq.
    assert ("a:xfrm" ∈ CT_Transform2D._tag_seq) as Hin.
    { rewrite Hseq. apply elem_of_app. right. apply elem_of_app. left.
      by apply list_elem_of_singleton. }
    vm_compute in Hin. by repeat (apply elem_of_cons in Hin as [?|Hin]; [done|]);
      inversion Hin. }
  exists σ', xfrm. split; [done|]. split; [|split; [|split]].
  - apply shape_xfrm_eval with sp; by apply (first_child_found_in_skeleton _ _ σ2).
  - apply OneAndOnlyOne_Ok. by apply (first_child_found_in_skeleton _ _ σ2).
  - rewrite (child_tags_skeleton σ2 σ' sp Hsk).
    rewrite (child_tags_effect_other _ _ _ _ _ _ sp Hcl1 Heff2); [|by eexists|done].
    apply (get_or_add_effect_ordered _ CT_ShapeProperties.xfrm_slot "a:xfrm"
             sp xfrm σ σ1 Hcl); try done.
    by apply list_elem_of_singleton.
  - rewrite (child_tags_skeleton σ2 σ' xfrm Hsk).
    apply (get_or_add_effect_ordered _ s t xfrm c σ1 σ2 Hcl1); try done.
    destruct o as [xfrm0|].
    + destruct Ho as [-> ->]. by apply Hord_x.
    + destruct Ho as [_ Hfresh]. unfold child_tags. rewrite Hfresh. simpl.
      apply schema_ordered_nil.
Qed.

(** X8. The geometry setters keep the schema order: on a shape whose
    [p:spPr] children, and [a:xfrm] children if there is an [a:xfrm], are in
    schema order, every setter succeeds and leaves both in schema order,
    whatever it had to add. *)
Theorem setters_keep_schema_order self v σ o sp set :
  closed σ → BaseShapeElement.xfrm self σ = Ok (o, σ) →
  BaseShapeElement.spPr self σ = Ok (sp, σ) →
  schema_ordered CT_ShapeProperties._tag_seq (child_tags σ sp) →
  (∀ xfrm, o = Some xfrm →
     schema_ordered CT_Transform2D._tag_seq (child_tags σ xfrm)) →
  set ∈ [BaseShapeElement.set_rot; BaseShapeElement.set_flipH;
         BaseShapeElement.set_flipV; BaseShapeElement.set_x;
         BaseShapeElement.set_y; BaseShapeElement.set_cx;
         BaseShapeElement.set_cy] →
  ∃ σ' xfrm, set self v σ = Ok (tt, σ') ∧
    BaseShapeElement.xfrm self σ' = Ok (Some xfrm, σ') ∧
    BaseShapeElement.spPr self σ' = Ok (sp, σ') ∧
    schema_ordered CT_ShapeProperties._tag_seq (child_tags σ' sp) ∧
    schema_ordered CT_Transform2D._tag_seq (child_tags σ' xfrm).
Proof.
  intros Hcl Hx Hsp Hord_sp Hord_x Hset.
  assert (Hoff : declared_in CT_Transform2D._tag_seq CT_Transform2D.off_slot).
  { apply declared_inb_correct. vm_compute. reflexivity. }
  assert (Hext : declared_in CT_Transform2D._tag_seq CT_Transform2D.ext_slot).
  { apply declared_inb_correct. vm_compute. reflexivity. }
  repeat (apply elem_of_cons in Hset as [->|Hset]); [..|by inversion Hset].
  - by apply (set_xfrm_attr_ordered CT_Transform2D.rot self v σ o sp).
  - by apply (set_xfrm_attr_ordered CT_Transform2D.flipH self v σ o sp).
  - by apply (set_xfrm_attr_ordered CT_Transform2D.flipV self v σ o sp).
  - by apply (set_child_attr_ordered CT_Transform2D.off_slot CT_Transform2D._new_off
                "a:off" CT_Point2D.x self v σ o sp Hcl Hx _new_off_constructs).
  - by apply (set_child_attr_ordered CT_Transform2D.off_slot CT_Transform2D._new_off
                "a:off" CT_Point2D.y self v σ o sp Hcl Hx _new_off_constructs).
  - by apply (set_child_attr_ordered CT_Transform2D.ext_slot CT_Transform2D._new_ext
                "a:ext" CT_PositiveSize2D.cx self v σ o sp Hcl Hx _new_ext_constructs).
  - by apply (set_child_attr_ordered CT_Transform2D.ext_slot CT_Transform2D._new_ext
                "a:ext" CT_PositiveSize2D.cy self v σ o sp Hcl Hx _new_ext_constructs).
Qed.

End order.


(** ** What the setters leave in place *)

Lemma grows_within_trans ts σ σ1 σ2 :
  grows_within ts σ σ1 → grows_within ts σ1 σ2 → grows_within ts σ σ2.
Proof.
  intros H1 H2 e nd He.
  destruct (H1 e nd He) as (nd1 & He1 & Ht1 & Hs1 & Hu1).
  destruct (H2 e nd1 He1) as (nd2 & He2 & Ht2 & Hs2 & Hu2).
  exists nd2. split; [done|]. split; [congruence|]. split; [by etrans|].
  intros Hn. rewrite Hu2; [by apply Hu1|by rewrite Ht1].
Qed.

Lemma grows_within_weaken ts ts' σ σ' :
  ts ⊆ ts' → grows_within ts σ σ' → grows_within ts' σ σ'.
Proof.
  intros Hsub Hg e nd He. destruct (Hg e nd He) as (nd' & He' & Ht & Hs & Hu).
  exists nd'. do 3 (split; [done|]). intros Hn. apply Hu. intros Hin.
  by apply Hn, Hsub.
Qed.

Lemma get_or_add_effect_grows s t p c σ σ' ndp ts :
  get_or_add_effect s t p c σ σ' → σ !! p = Some ndp → tag ndp ∈ ts →
  grows_within ts σ σ'.
Proof.
  intros Heff Hp Ht e nd He. destruct (decide (e = p)) as [->|Hne].
  - assert (nd = ndp) as -> by congruence.
    destruct Heff as [[_ ->]|(_ & _ & _ & Hplaced & _ & _ & nd0 & nd' & Hp0 & Hp'
                              & Htag & Hattr)].
    + by exists ndp.
    + exists nd'. assert (nd0 = ndp) as -> by congruence.
      split; [done|]. split; [done|]. split; [|done].
      unfold children_of in Hplaced. rewrite Hp, Hp' in Hplaced.
      destruct Hplaced as (l1 & l2 & -> & -> & _).
      apply sublist_app; [done|]. by apply sublist_cons.
  - exists nd. split; [by eapply get_or_add_effect_other|]. done.
Qed.

Lemma attr_write_grows (σ : store) l nd m ts :
  σ !! l = Some nd → tag nd ∈ ts → grows_within ts σ (<[l := with_attrib nd m]> σ).
Proof.
  intros Hl Ht e nd0 He. destruct (decide (e = l)) as [->|Hne].
  - assert (nd0 = nd) as -> by congruence.
    exists (with_attrib nd m).
    split; [apply list_lookup_insert_eq; by eapply lookup_lt_Some|]. done.
  - exists nd0. by rewrite list_lookup_insert_ne.
Qed.

Lemma grows_tag_of ts σ σ' c :
  grows_within ts σ σ' → c < length σ → tag_of σ' c = tag_of σ c.
Proof.
  intros Hg Hc. destruct (lookup_lt_is_Some_2 σ c Hc) as [nd Hnd].
  destruct (Hg c nd Hnd) as (nd' & Hnd' & Ht & _).
  unfold tag_of. rewrite Hnd, Hnd'. simpl. by f_equal.
Qed.

Section frame.
Context `{Collaborators}.

Lemma txBody_kept self σ σ' r :
  first_child_found_in self ["p:txBody"] σ = Ok (r, σ) →
  first_child_found_in self ["p:txBody"] σ' = Ok (r, σ') →
  same_read BaseShapeElement.txBody self σ σ'.
Proof.
  intros Hr Hr'. unfold same_read, BaseShapeElement.txBody, find.
  by rewrite Hr, Hr'.
Qed.

Lemma set_xfrm_attr_frame a self v σ o :
  closed σ → BaseShapeElement.xfrm self σ = Ok (o, σ) →
  ∃ σ', set_xfrm_attr a self v σ = Ok (tt, σ') ∧
    grows_within ["p:spPr"; "a:xfrm"] σ σ' ∧
    same_read BaseShapeElement.txBody self σ σ'.
Proof.
  intros Hcl Hx.
  destruct (write_xattr_trace a self v σ o Hcl Hx)
    as (sp & xfrm & ndx & σ1 & Hsp & Hcl1 & Heff & Hsp1 & Hx1 & Ho & Hndx & Hrun).
  set (σ' := <[xfrm := with_attrib ndx (attr_write a v (attrib ndx))]> σ1) in *.
  assert (Hsk : skeleton σ1 = skeleton σ').
  { symmetry. by apply skeleton_with_attrib. }
  destruct (found_has_tag _ _ _ _ Hsp) as (ndsp & Hndsp & Htsp).
  destruct (found_has_tag _ _ _ _ Hx1) as (ndx' & Hndx' & Htx).
  assert (ndx' = ndx) as -> by congruence.
  apply list_elem_of_singleton in Htsp, Htx.
  exists σ'. split; [done|]. split.
  - apply grows_within_trans with σ1.
    + apply (get_or_add_effect_grows _ _ _ _ _ _ ndsp _ Heff Hndsp).
      rewrite Htsp. set_solver.
    + apply attr_write_grows; [done|]. rewrite Htx. set_solver.
  - destruct (first_child_found_in_inv _ _ _ _ _ Hsp) as (_ & nds & Hself & _).
    pose proof (first_child_found_in_eval self ["p:txBody"] σ nds Hself) as Hr.
    apply (txBody_kept self σ σ' _ Hr).
    apply (first_child_found_in_stable _ _ _ _ _ _ _ _ _ _ Hcl Heff Hsk); [|done].
    by rewrite list_elem_of_singleton.
Qed.

Lemma set_child_attr_frame s new t a self v σ o :
  closed σ → BaseShapeElement.xfrm self σ = Ok (o, σ) →
  constructs t new → candidates s = [t] → t ≠ "p:txBody" →
  ∃ σ', set_child_attr s new a self v σ = Ok (tt, σ') ∧
    grows_within ["p:spPr"; "a:xfrm"; t] σ σ' ∧
    same_read BaseShapeElement.txBody self σ σ'.
Proof.
  intros Hcl Hx Hnew Hs Hne_body.
  destruct (write_child_trace s new t a self v σ o Hcl Hx Hnew Hs)
    as (sp & xfrm & c & ndc & σ1 & σ2 & Hsp & Hcl1 & Heff1 & Hsp1 & Hx1 & Ho
        & Hrun2 & Hcl2 & Heff2 & Hget2 & Hndc & Hrun).
  set (σ' := <[c := with_attrib ndc (attr_write a v (attrib ndc))]> σ2) in *.
  assert (Hsk : skeleton σ2 = skeleton σ').
  { symmetry. by apply skeleton_with_attrib. }
  destruct (found_has_tag _ _ _ _ Hsp) as (ndsp & Hndsp & Htsp).
  destruct (found_has_tag _ _ _ _ Hx1) as (ndx & Hndx & Htx).
  apply list_elem_of_singleton in Htsp, Htx.
  assert (Htagc : tag ndc = t).
  { pose proof (get_or_add_effect_tag _ _ _ _ _ _ Hs Heff2) as Htc.
    unfold tag_of in Htc. rewrite Hndc in Htc. simpl in Htc. congruence. }
  exists σ'. split; [done|]. split.
  - apply grows_within_trans with σ1.
    { apply (get_or_add_effect_grows _ _ _ _ _ _ ndsp _ Heff1 Hndsp).
      rewrite Htsp. set_solver. }
    apply grows_within_trans with σ2.
    { apply (get_or_add_effect_grows _ _ _ _ _ _ ndx _ Heff2 Hndx).
      rewrite Htx. set_solver. }
    apply attr_write_grows; [done|]. rewrite Htagc. set_solver.
  - destruct (first_child_found_in_inv _ _ _ _ _ Hsp) as (_ & nds & Hself & _).
    pose proof (first_child_found_in_eval self ["p:txBody"] σ nds Hself) as Hr.
    apply (txBody_kept self σ σ' _ Hr).
    apply (first_child_found_in_stable _ _ _ _ _ _ _ _ _ _ Hcl1 Heff2 Hsk).
    { rewrite list_elem_of_singleton. congruence. }
    apply (first_child_found_in_effect _ _ _ _ _ _ _ _ _ Hcl Heff1); [|done].
    by rewrite list_elem_of_singleton.
Qed.

(** X9. A geometry setter touches the geometry only.  It removes no element,
    retags none, and detaches or reorders no child; [rot], [flipH] and
    [flipV] leave every element that is not a [p:spPr] or an [a:xfrm] exactly
    as it was, [x] and [y] every element that is not one of these or an
    [a:off], [cx] and [cy] every element that is not one of these or an
    [a:ext]; and the text body of the shape is the one it was. *)
Theorem setters_touch_geometry_only self v σ o :
  closed σ → BaseShapeElement.xfrm self σ = Ok (o, σ) →
  (∀ set, set ∈ [BaseShapeElement.set_rot; BaseShapeElement.set_flipH;
                 BaseShapeElement.set_flipV] →
     ∃ σ', set self v σ = Ok (tt, σ') ∧
       grows_within ["p:spPr"; "a:xfrm"] σ σ' ∧
       same_read BaseShapeElement.txBody self σ σ') ∧
  (∀ set, set ∈ [BaseShapeElement.set_x; BaseShapeElement.set_y] →
     ∃ σ', set self v σ = Ok (tt, σ') ∧
       grows_within ["p:spPr"; "a:xfrm"; "a:off"] σ σ' ∧
       same_read BaseShapeElement.txBody self σ σ') ∧
  (∀ set, set ∈ [BaseShapeElement.set_cx; BaseShapeElement.set_cy] →
     ∃ σ', set self v σ = Ok (tt, σ') ∧
       grows_within ["p:spPr"; "a:xfrm"; "a:ext"] σ σ' ∧
       same_read BaseShapeElement.txBody self σ σ').
Proof.
  intros Hcl Hx. split; [|split]; intros set Hset;
    repeat (apply elem_of_cons in Hset as [->|Hset]); try (by inversion Hset).
  - apply (set_xfrm_attr_frame CT_Transform2D.rot self v σ o Hcl Hx).
  - apply (set_xfrm_attr_frame CT_Transform2D.flipH self v σ o Hcl Hx).
  - apply (set_xfrm_attr_frame CT_Transform2D.flipV self v σ o Hcl Hx).
  - by apply (set_child_attr_frame CT_Transform2D.off_slot CT_Transform2D._new_off
                "a:off" CT_Point2D.x self v σ o Hcl Hx _new_off_constructs).
  - by apply (set_child_attr_frame CT_Transform2D.off_slot CT_Transform2D._new_off
                "a:off" CT_Point2D.y self v σ o Hcl Hx _new_off_constructs).
  - by apply (set_child_attr_frame CT_Transform2D.ext_slot CT_Transform2D._new_ext
                "a:ext" CT_PositiveSize2D.cx self v σ o Hcl Hx _new_ext_constructs).
  - by apply (set_child_attr_frame CT_Transform2D.ext_slot CT_Transform2D._new_ext
                "a:ext" CT_PositiveSize2D.cy self v σ o Hcl Hx _new_ext_constructs).
Qed.

End frame.


(** ** The placeholder marker *)

Lemma filter_all (cs : list loc) : List.filter (λ _, true) cs = cs.
Proof. induction cs as [|c cs IH]; simpl; congruence. Qed.

Lemma xpath_step_all σ l : xpath_step σ None [l] = children_of σ l.
Proof. unfold xpath_step. simpl. by rewrite app_nil_r, filter_all. Qed.

Lemma xpath_step_tagged σ t ctx c :
  c ∈ xpath_step σ (Some t) ctx → ∃ nd, σ !! c = Some nd ∧ tag nd = t.
Proof.
  unfold xpath_step. rewrite list_elem_of_In, in_flat_map.
  intros (l & _ & Hc). apply filter_In in Hc as [_ Hc].
  unfold has_tag, tag_of in Hc. destruct (σ !! c) as [nd|]; [|done].
  exists nd. split; [done|]. apply bool_decide_eq_true in Hc.
  by apply list_elem_of_singleton in Hc.
Qed.

(** A location step from elements that a write left as they were selects
    what it selected. *)
Lemma xpath_step_stable ts σ σ' t ctx :
  closed σ → grows_within ts σ σ' →
  Forall (λ l, ∃ nd, σ !! l = Some nd ∧ tag nd ∉ ts) ctx →
  xpath_step σ' t ctx = xpath_step σ t ctx.
Proof.
  intros Hcl Hg Hctx. unfold xpath_step.
  induction Hctx as [|l ctx (nd & Hl & Ht) _ IH]; [done|].
  simpl. rewrite IH. f_equal.
  destruct (Hg l nd Hl) as (nd' & Hl' & _ & _ & Hsame).
  rewrite (Hsame Ht) in Hl'. unfold children_of. rewrite Hl, Hl'.
  apply filter_ext_in. intros c Hc. destruct t as [t|]; [|done].
  unfold has_tag. rewrite (grows_tag_of ts σ σ' c Hg); [done|].
  apply (closed_lookup σ l nd c Hcl Hl). by apply list_elem_of_In.
Qed.

Lemma ph_eval self σ nd :
  σ !! self = Some nd →
  BaseShapeElement.ph self σ
  = Ok (head (xpath_step σ (Some "p:ph")
                (xpath_step σ (Some "p:nvPr") (take 1 (children_of σ self)))), σ).
Proof.
  intros Hs. unfold BaseShapeElement.ph.
  rewrite (bind_Ok _ _ _ _ _ (get_node_Ok _ _ _ Hs)). rewrite xpath_step_all.
  by destruct (xpath_step σ (Some "p:ph") _).
Qed.

Lemma ph_kept ts self σ σ' nds :
  closed σ → grows_within ts σ σ' → "p:nvPr" ∉ ts → σ !! self = Some nds →
  (∀ e nd, e ∈ self :: take 1 (children_of σ self) →
     σ !! e = Some nd → tag nd ∉ ts) →
  ∃ r, BaseShapeElement.ph self σ = Ok (r, σ) ∧
    BaseShapeElement.ph self σ' = Ok (r, σ') ∧
    ∀ p, r = Some p → ∃ nd, σ !! p = Some nd ∧ tag nd = "p:ph".
Proof.
  intros Hcl Hg Hnv Hs Hout.
  assert (Hs' : σ' !! self = Some nds).
  { destruct (Hg self nds Hs) as (nd' & Hnd' & _ & _ & Hu).
    rewrite Hu in Hnd'; [done|]. apply (Hout self); [left|done]. }
  assert (Hkids : children_of σ' self = children_of σ self).
  { unfold children_of. by rewrite Hs, Hs'. }
  set (ctx1 := take 1 (children_of σ self)) in *.
  assert (H1 : Forall (λ l, ∃ nd, σ !! l = Some nd ∧ tag nd ∉ ts) ctx1).
  { apply Forall_forall. intros c Hc.
    assert (c < length σ) as Hlt.
    { apply (closed_lookup σ self nds c Hcl Hs).
      pose proof (subseteq_take 1 _ c Hc) as Hin.
      unfold children_of in Hin. by rewrite Hs in Hin. }
    destruct (lookup_lt_is_Some_2 σ c Hlt) as [nd Hnd].
    exists nd. split; [done|]. apply (Hout c); [by right|done]. }
  set (ctx2 := xpath_step σ (Some "p:nvPr") ctx1) in *.
  assert (H2 : Forall (λ l, ∃ nd, σ !! l = Some nd ∧ tag nd ∉ ts) ctx2).
  { apply Forall_forall. intros c Hc.
    apply xpath_step_tagged in Hc as (nd & Hnd & Ht).
    exists nd. split; [done|]. by rewrite Ht. }
  exists (head (xpath_step σ (Some "p:ph") ctx2)).
  split; [by apply (ph_eval self σ nds)|]. split.
  - rewrite (ph_eval self σ' nds Hs'), Hkids. fold ctx1.
    rewrite (xpath_step_stable ts σ σ' _ ctx1 Hcl Hg H1). fold ctx2.
    by rewrite (xpath_step_stable ts σ σ' _ ctx2 Hcl Hg H2).
  - intros p Hp. apply head_Some_elem_of in Hp. by apply xpath_step_tagged in Hp.
Qed.

Lemma attr_get_not_ValueError a l σ msg : attr_get a l σ ≠ Raise (ValueError msg).
Proof.
  destruct (σ !! l) as [nd|] eqn:Hl.
  - rewrite (attr_get_eval a l σ nd Hl).
    destruct a as [name c|name c d]; simpl;
      destruct (attrib nd !! name) as [s|]; try done;
      by destruct (decode c s).
  - by rewrite attr_get_unallocated.
Qed.

Section placeholder.
Context `{Collaborators}.

Lemma ph_attr_kept ts a self σ σ' r :
  grows_within ts σ σ' → "p:ph" ∉ ts →
  BaseShapeElement.ph self σ = Ok (r, σ) →
  BaseShapeElement.ph self σ' = Ok (r, σ') →
  (∀ p, r = Some p → ∃ nd, σ !! p = Some nd ∧ tag nd = "p:ph") →
  value_of ((ph ← BaseShapeElement.ph self;
             match ph with
             | None => raise (ValueError "not a placeholder shape")
             | Some ph => attr_get a ph
             end) σ')
  = value_of ((ph ← BaseShapeElement.ph self;
               match ph with
               | None => raise (ValueError "not a placeholder shape")
               | Some ph => attr_get a ph
               end) σ).
Proof.
  intros Hg Hph Hr Hr' Htag.
  rewrite (bind_Ok _ _ _ _ _ Hr), (bind_Ok _ _ _ _ _ Hr').
  destruct r as [p|]; [|done]. rewrite !value_of_attr_get.
  destruct (Htag p eq_refl) as (nd & Hnd & Ht).
  destruct (Hg p nd Hnd) as (nd' & Hnd' & _ & _ & Hu).
  rewrite Hu in Hnd' by (by rewrite Ht). by rewrite Hnd, Hnd'.
Qed.

Lemma setter_grows self v σ o set :
  closed σ → BaseShapeElement.xfrm self σ = Ok (o, σ) →
  set ∈ [BaseShapeElement.set_rot; BaseShapeElement.set_flipH;
         BaseShapeElement.set_flipV; BaseShapeElement.set_x;
         BaseShapeElement.set_y; BaseShapeElement.set_cx;
         BaseShapeElement.set_cy] →
  ∃ σ', set self v σ = Ok (tt, σ') ∧ grows_within geometry_tags σ σ'.
Proof.
  intros Hcl Hx Hset.
  assert (Hattr : ∀ a, ∃ σ', set_xfrm_attr a self v σ = Ok (tt, σ') ∧
                    grows_within geometry_tags σ σ').
  { intros a. destruct (set_xfrm_attr_frame a self v σ o Hcl Hx) as (σ' & Hrun & Hg & _).
    exists σ'. split; [done|].
    apply (grows_within_weaken ["p:spPr"; "a:xfrm"]); [|done].
    apply (bool_decide_unpack _). vm_compute. exact I. }
  assert (Hchild : ∀ s new t a, constructs t new → candidates s = [t] →
                     t ∈ ["a:off"; "a:ext"] →
                     ∃ σ', set_child_attr s new a self v σ = Ok (tt, σ') ∧
                       grows_within geometry_tags σ σ').
  { intros s new t a Hnew Hs Ht.
    destruct (set_child_attr_frame s new t a self v σ o Hcl Hx Hnew Hs)
      as (σ' & Hrun & Hg & _).
    { intros ->. by apply (bool_decide_pack _) in Ht. }
    exists σ'. split; [done|].
    apply (grows_within_weaken ["p:spPr"; "a:xfrm"; t]); [|done].
    apply elem_of_cons in Ht as [->|Ht];
      [|apply list_elem_of_singleton in Ht as ->];
      apply (bool_decide_unpack _); vm_compute; exact I. }
  repeat (apply elem_of_cons in Hset as [->|Hset]); [..|by inversion Hset].
  - apply (Hattr CT_Transform2D.rot).
  - apply (Hattr CT_Transform2D.flipH).
  - apply (Hattr CT_Transform2D.flipV).
  - apply (Hchild CT_Transform2D.off_slot _ "a:off" CT_Point2D.x _new_off_constructs);
      [done|apply (bool_decide_unpack _); vm_compute; exact I].
  - apply (Hchild CT_Transform2D.off_slot _ "a:off" CT_Point2D.y _new_off_constructs);
      [done|apply (bool_decide_unpack _); vm_compute; exact I].
  - apply (Hchild CT_Transform2D.ext_slot _ "a:ext" CT_PositiveSize2D.cx
             _new_ext_constructs);
      [done|apply (bool_decide_unpack _); vm_compute; exact I].
  - apply (Hchild CT_Transform2D.ext_slot _ "a:ext" CT_PositiveSize2D.cy
             _new_ext_constructs);
      [done|apply (bool_decide_unpack _); vm_compute; exact I].
Qed.

(** X10. Setting the geometry of a shape does not change what it is a
    placeholder of: on a shape whose own element and first child are not
    geometry elements (every [p:sp], [p:pic] and [p:cxnSp], whose first child
    holds the non-visual properties), after any geometry setter [ph],
    [has_ph_elm], [ph_type], [ph_orient], [ph_sz] and [ph_idx] return, or
    raise, what they did. *)
Theorem geometry_setters_keep_placeholder self v σ o set :
  closed σ → BaseShapeElement.xfrm self σ = Ok (o, σ) →
  (∀ e nd, e ∈ self :: take 1 (children_of σ self) →
     σ !! e = Some nd → tag nd ∉ geometry_tags) →
  set ∈ [BaseShapeElement.set_rot; BaseShapeElement.set_flipH;
         BaseShapeElement.set_flipV; BaseShapeElement.set_x;
         BaseShapeElement.set_y; BaseShapeElement.set_cx;
         BaseShapeElement.set_cy] →
  ∃ σ', set self v σ = Ok (tt, σ') ∧
    same_read BaseShapeElement.ph self σ σ' ∧
    same_read BaseShapeElement.has_ph_elm self σ σ' ∧
    same_read BaseShapeElement.ph_type self σ σ' ∧
    same_read BaseShapeElement.ph_orient self σ σ' ∧
    same_read BaseShapeElement.ph_sz self σ σ' ∧
    same_read BaseShapeElement.ph_idx self σ σ'.
Proof.
  intros Hcl Hx Hout Hset.
  destruct (setter_grows self v σ o set Hcl Hx Hset) as (σ' & Hrun & Hg).
  destruct (shape_xfrm_inv self σ o Hx) as (sp & Hsp & _).
  destruct (first_child_found_in_inv _ _ _ _ _ Hsp) as (_ & nds & Hself & _).
  destruct (ph_kept geometry_tags self σ σ' nds Hcl Hg) as (r & Hr & Hr' & Htag);
    [apply (bool_decide_unpack _); vm_compute; exact I|done|done|].
  assert (Hph : "p:ph" ∉ geometry_tags)
    by (apply (bool_decide_unpack _); vm_compute; exact I).
  exists σ'. split; [done|]. unfold same_read. split; [|split; [|split; [|split; [|split]]]].
  - by rewrite Hr, Hr'.
  - unfold BaseShapeElement.has_ph_elm.
    by rewrite (bind_Ok _ _ _ _ _ Hr), (bind_Ok _ _ _ _ _ Hr').
  - by apply (ph_attr_kept geometry_tags CT_Placeholder.type self σ σ' r).
  - by apply (ph_attr_kept geometry_tags CT_Placeholder.orient self σ σ' r).
  - by apply (ph_attr_kept geometry_tags CT_Placeholder.sz self σ σ' r).
  - by apply (ph_attr_kept geometry_tags CT_Placeholder.idx self σ σ' r).
Qed.

(** X11. A placeholder marker without [type], [orient] or [sz] attribute
    reads as the declared default of each: an object placeholder, horizontal,
    full size. *)
Theorem placeholder_defaults self ph σ :
  BaseShapeElement.ph self σ = Ok (Some ph, σ) →
  (get ph "type" σ = Ok (None, σ) →
   BaseShapeElement.ph_type self σ
     = Ok (Some (VEnum "PP_PLACEHOLDER" "OBJECT"), σ)) ∧
  (get ph "orient" σ = Ok (None, σ) →
   BaseShapeElement.ph_orient self σ = Ok (Some (VEnum "ST_Direction" "HORZ"), σ)) ∧
  (get ph "sz" σ = Ok (None, σ) →
   BaseShapeElement.ph_sz self σ
     = Ok (Some (VEnum "ST_PlaceholderSize" "FULL"), σ)).
Proof.
  intros Hph. split; [|split]; intros Hget.
  - unfold BaseShapeElement.ph_type. rewrite (bind_Ok _ _ _ _ _ Hph).
    by apply optional_attr_absent.
  - unfold BaseShapeElement.ph_orient. rewrite (bind_Ok _ _ _ _ _ Hph).
    by apply optional_attr_absent.
  - unfold BaseShapeElement.ph_sz. rewrite (bind_Ok _ _ _ _ _ Hph).
    by apply optional_attr_absent.
Qed.

Lemma ph_attr_guard a self σ b :
  BaseShapeElement.has_ph_elm self σ = Ok (b, σ) →
  b = false ↔
  (ph ← BaseShapeElement.ph self;
   match ph with
   | None => raise (ValueError "not a placeholder shape")
   | Some ph => attr_get a ph
   end) σ = Raise (ValueError "not a placeholder shape").
Proof.
  intros Hb. unfold BaseShapeElement.has_ph_elm in Hb.
  apply bind_Ok_inv in Hb as (r & σ1 & Hr & Hb).
  pose proof (read_only_ph self _ _ _ Hr) as ->.
  injection Hb as <-. rewrite (bind_Ok _ _ _ _ _ Hr).
  destruct r as [p|].
  - split.
    + intros Hb. apply bool_decide_eq_false in Hb. exfalso. by apply Hb.
    + intros Hraise. by apply attr_get_not_ValueError in Hraise.
  - split; [done|]. intros _. apply bool_decide_eq_false. intros Hn. by apply Hn.
Qed.

(** X12. [has_ph_elm] tells exactly when the placeholder accessors can be
    called: it is false if and only if [ph_type], [ph_orient], [ph_sz] and
    [ph_idx] raise the "not a placeholder shape" [ValueError], which a shape
    with a placeholder marker never raises. *)
Theorem has_ph_elm_guards_accessors self σ b :
  BaseShapeElement.has_ph_elm self σ = Ok (b, σ) →
  (b = false ↔ BaseShapeElement.ph_type self σ
                 = Raise (ValueError "not a placeholder shape")) ∧
  (b = false ↔ BaseShapeElement.ph_orient self σ
                 = Raise (ValueError "not a placeholder shape")) ∧
  (b = false ↔ BaseShapeElement.ph_sz self σ
                 = Raise (ValueError "not a placeholder shape")) ∧
  (b = false ↔ BaseShapeElement.ph_idx self σ
                 = Raise (ValueError "not a placeholder shape")).
Proof.
  intros Hb. repeat split; by apply (ph_attr_guard _ self σ b Hb).
Qed.

End placeholder.


(** ** The dash style of a line *)

Lemma slot_remove_eval s p σ nd :
  σ !! p = Some nd →
  slot_remove s p σ
  = Ok (tt, <[p := with_children nd
                     (List.filter (λ c, negb (has_tag σ (candidates s) c))
                                  (children nd))]> σ).
Proof.
  intros Hp. unfold slot_remove.
  rewrite (bind_Ok _ _ _ _ _ (get_node_Ok _ _ _ Hp)). by apply put_node_Ok with nd.
Qed.

Lemma filter_none (f : loc → bool) cs :
  Forall (λ c, f c = false) cs → List.filter (λ c, negb (f c)) cs = cs.
Proof.
  induction 1 as [|c cs Hc _ IH]; simpl; [done|]. rewrite Hc. simpl. by f_equal.
Qed.

(** The tags left when the occupants of a slot are removed. *)
Lemma omap_tag_of_filter σ ts cs :
  omap (tag_of σ) (List.filter (λ c, negb (has_tag σ ts c)) cs)
  = List.filter (λ t, negb (bool_decide (t ∈ ts))) (omap (tag_of σ) cs).
Proof.
  induction cs as [|c cs IH]; [done|]. simpl. csimpl. unfold has_tag at 1.
  destruct (tag_of σ c) as [t|] eqn:Ht; simpl.
  - destruct (bool_decide (t ∈ ts)); simpl; csimpl; [done|].
    rewrite Ht. simpl. by f_equal.
  - csimpl. by rewrite Ht.
Qed.

Lemma schema_ordered_filter seq (P : string → bool) tags :
  schema_ordered seq tags → schema_ordered seq (List.filter P tags).
Proof.
  unfold schema_ordered. induction tags as [|t tags IH]; [done|]. simpl. csimpl.
  destruct (tag_rank seq t) as [r|] eqn:Hr; simpl.
  - rewrite StronglySorted_cons. intros [Hle Hss].
    destruct (P t); [|by apply IH]. csimpl. rewrite Hr. simpl.
    apply StronglySorted_cons. split; [|by apply IH].
    rewrite Forall_forall in Hle. apply Forall_forall. intros r' Hr'.
    apply list_elem_of_omap in Hr' as (t' & Ht' & Hrank).
    apply Hle. apply list_elem_of_omap. exists t'. split; [|done].
    apply list_elem_of_In in Ht'. apply filter_In in Ht' as [Ht' _].
    by apply list_elem_of_In.
  - intros Hss. destruct (P t); [|by apply IH]. csimpl. rewrite Hr. simpl.
    by apply IH.
Qed.

Section dash_frame.
Context `{Collaborators}.

(** The steps of the [prstDash_val] setter on an [a:ln] element. *)
Lemma set_prstDash_val_trace self val σ nd :
  closed σ → σ !! self = Some nd →
  ∃ σ1 c ndc σ2,
    σ1 = <[self := with_children nd
                     (List.filter
                        (λ c, negb (has_tag σ
                                      (candidates CT_LineProperties.custDash_slot) c))
                        (children nd))]> σ ∧
    closed σ1 ∧
    CT_LineProperties.custDash self σ1 = Ok (None, σ1) ∧
    (∀ s' o, (∀ t, t ∈ candidates s' →
                t ∉ candidates CT_LineProperties.custDash_slot) →
       slot_get s' self σ = Ok (o, σ) → slot_get s' self σ1 = Ok (o, σ1)) ∧
    closed σ2 ∧
    get_or_add_effect CT_LineProperties.prstDash_slot "a:prstDash" self c σ1 σ2 ∧
    σ2 !! c = Some ndc ∧
    slot_get CT_LineProperties.prstDash_slot self σ2 = Ok (Some c, σ2) ∧
    CT_LineProperties.set_prstDash_val self val σ
      = Ok (tt, <[c := with_attrib ndc
                          (attr_write prstDash_val_attr val (attrib ndc))]> σ2).
Proof.
  intros Hcl Hself.
  destruct (slot_remove_spec CT_LineProperties.custDash_slot self σ Hcl
              (mk_is_Some _ _ Hself))
    as (σ1 & Hrm & Hcl1 & Hself1 & Hnone1 & Hother).
  pose proof (slot_remove_eval CT_LineProperties.custDash_slot self σ nd Hself)
    as Hrm'.
  rewrite Hrm in Hrm'. injection Hrm' as Hσ1.
  destruct (slot_get_or_add_spec CT_LineProperties.prstDash_slot
              (OxmlElement "a:prstDash") "a:prstDash" self σ1 Hcl1 Hself1
              (OxmlElement_constructs _))
    as (c & σ2 & Hrun & Hcl2 & Hget2 & Heff).
  { by apply list_elem_of_singleton. }
  destruct (first_child_found_in_allocated _ _ _ _ Hcl2 Hget2) as [ndc Hndc].
  exists σ1, c, ndc, σ2. do 8 (split; [done|]).
  unfold CT_LineProperties.set_prstDash_val.
  unfold CT_LineProperties._remove_custDash.
  rewrite (bind_Ok _ _ _ _ _ Hrm).
  unfold CT_LineProperties.get_or_add_prstDash.
  rewrite (bind_Ok _ _ _ _ _ Hrun). by apply attr_set_eval.
Qed.

(** What the rest of the line reads after the setter: the fill and the width
    as before, children in schema order still in schema order. *)
Lemma set_prstDash_val_rest self val σ nd :
  closed σ → σ !! self = Some nd → tag nd = "a:ln" →
  ∃ σ', CT_LineProperties.set_prstDash_val self val σ = Ok (tt, σ') ∧
    value_of (CT_LineProperties.eg_fillProperties self σ')
      = value_of (CT_LineProperties.eg_fillProperties self σ) ∧
    value_of (attr_get CT_LineProperties.w self σ')
      = value_of (attr_get CT_LineProperties.w self σ) ∧
    (schema_ordered CT_LineProperties._tag_seq (child_tags σ self) →
     schema_ordered CT_LineProperties._tag_seq (child_tags σ' self)).
Proof.
  intros Hcl Hself Htag.
  destruct (set_prstDash_val_trace self val σ nd Hcl Hself)
    as (σ1 & c & ndc & σ2 & Hσ1 & Hcl1 & Hnone1 & Hother & Hcl2 & Heff & Hndc
        & Hget2 & Hrun).
  set (σ' := <[c := with_attrib ndc
                      (attr_write prstDash_val_attr val (attrib ndc))]> σ2) in *.
  set (cs' := List.filter
                (λ c, negb (has_tag σ (candidates CT_LineProperties.custDash_slot) c))
                (children nd)) in *.
  assert (Hsk : skeleton σ2 = skeleton σ').
  { symmetry. by apply skeleton_with_attrib. }
  assert (Hself1 : σ1 !! self = Some (with_children nd cs')).
  { rewrite Hσ1. apply list_lookup_insert_eq. by eapply lookup_lt_Some. }
  destruct (get_or_add_effect_parent _ _ _ _ _ _ _ Heff Hself1)
    as (nd2 & Hself2 & Htag2 & Hattr2).
  assert (Htagc : tag ndc = "a:prstDash").
  { pose proof (get_or_add_effect_tag CT_LineProperties.prstDash_slot _ _ _ _ _
                  eq_refl Heff) as Htc.
    unfold tag_of in Htc. rewrite Hndc in Htc. simpl in Htc. congruence. }
  assert (Hne : c ≠ self).
  { intros ->. rewrite Hself2 in Hndc. injection Hndc as <-.
    simpl in Htag2. congruence. }
  exists σ'. split; [done|]. split; [|split].
  - pose proof (slot_get_eval CT_LineProperties.eg_lineFillProperties_slot
                  self σ nd Hself) as Hfill.
    assert (slot_get CT_LineProperties.eg_lineFillProperties_slot self σ1
            = Ok (find_first (has_tag σ (candidates
                                CT_LineProperties.eg_lineFillProperties_slot))
                    (children nd), σ1)) as Hfill1.
    { apply Hother; [|done]. intros t Ht Hc.
      apply list_elem_of_singleton in Hc. subst t.
      by apply (bool_decide_pack _) in Ht. }
    assert (slot_get CT_LineProperties.eg_lineFillProperties_slot self σ'
            = Ok (find_first (has_tag σ (candidates
                                CT_LineProperties.eg_lineFillProperties_slot))
                    (children nd), σ')) as Hfill'.
    { apply (first_child_found_in_stable _ _ _ _ _ _ _ _ _ _ Hcl1 Heff Hsk);
        [|done].
      intros Hin. by apply (bool_decide_pack _) in Hin. }
    unfold CT_LineProperties.eg_fillProperties,
      CT_LineProperties.eg_lineFillProperties.
    by rewrite Hfill, Hfill'.
  - rewrite !value_of_attr_get, Hself.
    assert (σ' !! self = Some nd2) as ->.
    { subst σ'. by rewrite list_lookup_insert_ne. }
    by rewrite Hattr2.
  - intros Hord. rewrite (child_tags_skeleton σ2 σ' self Hsk).
    apply (get_or_add_effect_ordered _ CT_LineProperties.prstDash_slot
             "a:prstDash" self c σ1 σ2 Hcl1).
    { apply declared_inb_correct. vm_compute. reflexivity. }
    { by apply list_elem_of_singleton. }
    { done. }
    unfold child_tags in Hord |- *. rewrite Hself in Hord. rewrite Hself1. simpl.
    rewrite (omap_tag_of_ext σ σ1).
    + subst cs'. rewrite omap_tag_of_filter. by apply schema_ordered_filter.
    + apply Forall_forall. intros c' _. rewrite Hσ1.
      by apply tag_of_insert with nd.
Qed.

Lemma insert_before_has_tag σ σ1 succ n cs :
  Forall (λ c, has_tag σ1 succ c = has_tag σ succ c) cs →
  placed_before_first (has_tag σ succ) n cs (insert_before (has_tag σ1 succ) n cs).
Proof.
  intros Hsame. rewrite (insert_before_ext _ (has_tag σ succ)) by done.
  apply insert_before_placed.
Qed.

Lemma slot_get_or_add_OxmlElement_absent s t p σ nd :
  σ !! p = Some nd → slot_get s p σ = Ok (None, σ) →
  slot_get_or_add s (OxmlElement t) p σ
  = Ok (length σ,
        <[p := with_children nd
                 (insert_before (has_tag (σ ++ [Node t ∅ []]) (successors s))
                    (length σ) (children nd))]> (σ ++ [Node t ∅ []])).
Proof.
  intros Hp Hget. unfold slot_get_or_add. rewrite (bind_Ok _ _ _ _ _ Hget).
  assert (OxmlElement t σ = Ok (length σ, σ ++ [Node t ∅ []])) as Hnew by done.
  rewrite (bind_Ok _ _ _ _ _ Hnew).
  assert ((σ ++ [Node t ∅ []]) !! p = Some nd) as Hp1.
  { rewrite lookup_app_l; [done|]. by eapply lookup_lt_Some. }
  by rewrite (bind_Ok _ _ _ _ _ (insert_element_before_eval p _ _ _ nd Hp1)).
Qed.

(** X13. Setting the preset dash style of an [a:ln] element changes its dash
    only.  Every element other than this [a:ln] and its [a:prstDash] is as it
    was, and no other element appears.  The [a:ln] keeps its tag and
    attributes; its children are those it had without the [a:custDash]
    elements, in the same order, when it had an [a:prstDash], and otherwise
    these with one new [a:prstDash] at the place of the ordering algorithm.
    The [a:prstDash] is the one that was there with [val] written, or a new
    one with [val] only.  Hence the fill and the width of the line read as
    they did, and children in schema order stay in schema order. *)
Theorem set_prstDash_val_changes_dash_only self val σ nd :
  closed σ → σ !! self = Some nd → tag nd = "a:ln" →
  ∃ σ' prstDash cs',
    CT_LineProperties.set_prstDash_val self val σ = Ok (tt, σ') ∧
    (∀ e, e ≠ self → e ≠ prstDash → σ' !! e = σ !! e) ∧
    σ' !! self = Some (with_children nd cs') ∧
    match σ !! prstDash with
    | Some nd0 =>
        CT_LineProperties.prstDash self σ = Ok (Some prstDash, σ) ∧
        cs' = List.filter (λ c, negb (has_tag σ ["a:custDash"] c)) (children nd) ∧
        σ' !! prstDash
          = Some (with_attrib nd0 (attr_write prstDash_val_attr val (attrib nd0)))
    | None =>
        CT_LineProperties.prstDash self σ = Ok (None, σ) ∧
        prstDash = length σ ∧
        placed_before_first
          (has_tag σ (successors CT_LineProperties.prstDash_slot)) prstDash
          (List.filter (λ c, negb (has_tag σ ["a:custDash"] c)) (children nd)) cs' ∧
        σ' !! prstDash
          = Some (Node "a:prstDash" (attr_write prstDash_val_attr val ∅) [])
    end ∧
    value_of (CT_LineProperties.eg_fillProperties self σ')
      = value_of (CT_LineProperties.eg_fillProperties self σ) ∧
    value_of (attr_get CT_LineProperties.w self σ')
      = value_of (attr_get CT_LineProperties.w self σ) ∧
    (schema_ordered CT_LineProperties._tag_seq (child_tags σ self) →
     schema_ordered CT_LineProperties._tag_seq (child_tags σ' self)).
Proof.
  intros Hcl Hself Htag.
  destruct (set_prstDash_val_rest self val σ nd Hcl Hself Htag)
    as (σ0 & Hrun0 & Hfill & Hw & Hord).
  set (kept := List.filter (λ c, negb (has_tag σ ["a:custDash"] c)) (children nd)).
  set (σ1 := <[self := with_children nd kept]> σ).
  assert (Hlen : self < length σ) by (by eapply lookup_lt_Some).
  assert (Hrm : CT_LineProperties._remove_custDash self σ = Ok (tt, σ1)).
  { apply (slot_remove_eval CT_LineProperties.custDash_slot self σ nd Hself). }
  assert (Hself1 : σ1 !! self = Some (with_children nd kept)).
  { by apply list_lookup_insert_eq. }
  assert (Hlen1 : length σ1 = length σ) by apply length_insert.
  assert (Htags : ∀ ts c, has_tag σ1 ts c = has_tag σ ts c).
  { intros ts c. by apply has_tag_insert with nd. }
  assert (Hget1 : ∀ o, CT_LineProperties.prstDash self σ = Ok (o, σ) →
                    CT_LineProperties.prstDash self σ1 = Ok (o, σ1)).
  { intros o Ho.
    destruct (slot_remove_spec CT_LineProperties.custDash_slot self σ Hcl
                (mk_is_Some _ _ Hself)) as (σ1' & Hrm' & _ & _ & _ & Hother).
    unfold CT_LineProperties._remove_custDash in Hrm. rewrite Hrm in Hrm'.
    injection Hrm' as <-. apply Hother; [|done].
    intros t Ht Hc. apply list_elem_of_singleton in Hc. subst t.
    by apply (bool_decide_pack _) in Ht. }
  pose proof (slot_get_eval CT_LineProperties.prstDash_slot self σ nd Hself) as Hget.
  destruct (find_first (has_tag σ (candidates CT_LineProperties.prstDash_slot))
              (children nd)) as [c|] eqn:Hfind.
  - destruct (found_has_tag _ _ _ _ Hget) as (nd0 & Hc & Htc).
    apply list_elem_of_singleton in Htc.
    assert (Hne : c ≠ self) by (intros ->; congruence).
    assert (Hc1 : σ1 !! c = Some nd0).
    { subst σ1. by rewrite list_lookup_insert_ne. }
    set (σ' := <[c := with_attrib nd0
                        (attr_write prstDash_val_attr val (attrib nd0))]> σ1).
    assert (Hrun : CT_LineProperties.set_prstDash_val self val σ = Ok (tt, σ')).
    { unfold CT_LineProperties.set_prstDash_val. rewrite (bind_Ok _ _ _ _ _ Hrm).
      unfold CT_LineProperties.get_or_add_prstDash.
      rewrite (bind_Ok _ _ _ _ _
                 (slot_get_or_add_present _ _ self σ1 c (Hget1 _ Hget))).
      by apply attr_set_eval. }
    rewrite Hrun in Hrun0. injection Hrun0 as <-.
    exists σ', c, kept. split; [done|]. split; [|split; [|split]].
    + intros e He Hec. subst σ' σ1. by rewrite !list_lookup_insert_ne.
    + subst σ'. by rewrite list_lookup_insert_ne.
    + rewrite Hc. do 2 (split; [done|]). subst σ'.
      apply list_lookup_insert_eq. by eapply lookup_lt_Some.
    + done.
  - set (N := Node "a:prstDash" ∅ []).
    set (c := length σ1).
    set (cs' := insert_before
                  (has_tag (σ1 ++ [N]) (successors CT_LineProperties.prstDash_slot))
                  c kept).
    set (σ2 := <[self := with_children nd cs']> (σ1 ++ [N])).
    assert (Hrun2 : CT_LineProperties.get_or_add_prstDash self σ1 = Ok (c, σ2)).
    { apply (slot_get_or_add_OxmlElement_absent CT_LineProperties.prstDash_slot
               "a:prstDash" self σ1 (with_children nd kept) Hself1).
      by apply Hget1. }
    assert (Hne : c ≠ self) by (subst c; lia).
    assert (Hc2 : σ2 !! c = Some N).
    { subst σ2. rewrite list_lookup_insert_ne by done. apply list_lookup_middle.
      done. }
    set (σ' := <[c := with_attrib N (attr_write prstDash_val_attr val (attrib N))]> σ2).
    assert (Hrun : CT_LineProperties.set_prstDash_val self val σ = Ok (tt, σ')).
    { unfold CT_LineProperties.set_prstDash_val. rewrite (bind_Ok _ _ _ _ _ Hrm).
      rewrite (bind_Ok _ _ _ _ _ Hrun2). by apply attr_set_eval. }
    rewrite Hrun in Hrun0. injection Hrun0 as <-.
    exists σ', c, cs'. split; [done|]. split; [|split; [|split]].
    + intros e He Hec. subst σ' σ2. rewrite !list_lookup_insert_ne by done.
      destruct (decide (e < length σ1)) as [Hlt|Hge].
      * rewrite lookup_app_l by done. subst σ1. by rewrite list_lookup_insert_ne.
      * rewrite !lookup_ge_None_2; [done|lia|]. rewrite length_app. simpl.
        subst c. lia.
    + subst σ' σ2. rewrite list_lookup_insert_ne by done.
      apply list_lookup_insert_eq. rewrite length_app. lia.
    + assert (σ !! c = None) as -> by (apply lookup_ge_None_2; subst c; lia).
      split; [done|]. split; [by subst c|]. split.
      * subst cs'. apply insert_before_has_tag. apply Forall_forall. intros e He.
        rewrite <- (Htags _ e). apply has_tag_prefix; [by apply prefix_app_r|].
        rewrite Hlen1. apply (closed_lookup σ self nd e Hcl Hself).
        apply list_elem_of_In in He. apply filter_In in He as [He _].
        by apply list_elem_of_In.
      * subst σ'. apply list_lookup_insert_eq. by eapply lookup_lt_Some.
    + done.
Qed.

(** X14. Setting the preset dash style is idempotent: assigning the same
    value a second time succeeds and leaves the document exactly as the first
    assignment left it. *)
Theorem set_prstDash_val_idempotent self val σ :
  closed σ → is_Some (σ !! self) →
  ∃ σ', CT_LineProperties.set_prstDash_val self val σ = Ok (tt, σ') ∧
    CT_LineProperties.set_prstDash_val self val σ' = Ok (tt, σ').
Proof.
  intros Hcl [nd Hself].
  destruct (set_prstDash_val_trace self val σ nd Hcl Hself)
    as (σ1 & c & ndc & σ2 & Hσ1 & Hcl1 & Hnone1 & Hother & Hcl2 & Heff & Hndc
        & Hget2 & Hrun).
  set (nd' := with_attrib ndc (attr_write prstDash_val_attr val (attrib ndc))) in *.
  set (σ' := <[c := nd']> σ2) in *.
  assert (Hsk : skeleton σ2 = skeleton σ').
  { symmetry. by apply skeleton_with_attrib. }
  assert (Hcl' : closed σ') by (by apply (skeleton_closed σ2)).
  assert (Hc' : σ' !! c = Some nd').
  { apply list_lookup_insert_eq. by eapply lookup_lt_Some. }
  assert (Hget' : slot_get CT_LineProperties.prstDash_slot self σ' = Ok (Some c, σ'))
    by (by apply (first_child_found_in_skeleton _ _ σ2)).
  assert (Hnone' : CT_LineProperties.custDash self σ' = Ok (None, σ')).
  { apply (first_child_found_in_stable _ _ _ _ _ _ _ _ _ _ Hcl1 Heff Hsk); [|done].
    intros Hin. by apply (bool_decide_pack _) in Hin. }
  exists σ'. split; [done|].
  destruct (first_child_found_in_inv _ _ _ _ _ Hnone') as (_ & nds & Hself' & Hfind).
  symmetry in Hfind. apply find_first_None in Hfind.
  assert (Hrm : CT_LineProperties._remove_custDash self σ' = Ok (tt, σ')).
  { unfold CT_LineProperties._remove_custDash.
    rewrite (slot_remove_eval _ self σ' nds Hself'). do 2 f_equal.
    apply list_insert_id. rewrite Hself'. f_equal.
    rewrite filter_none by done. by destruct nds. }
  unfold CT_LineProperties.set_prstDash_val.
  rewrite (bind_Ok _ _ _ _ _ Hrm).
  unfold CT_LineProperties.get_or_add_prstDash.
  rewrite (bind_Ok _ _ _ _ _ (slot_get_or_add_present _ _ self σ' c Hget')).
  rewrite (attr_set_eval _ c val σ' nd' Hc'). do 2 f_equal.
  by apply insert_written_again.
Qed.

End dash_frame.


(** ** XPath readers and descriptor readers *)

Lemma xpath_step_cons σ t l ctx :
  xpath_step σ (Some t) (l :: ctx)
  = List.filter (has_tag σ [t]) (children_of σ l) ++ xpath_step σ (Some t) ctx.
Proof. done. Qed.

Lemma xpath_step_one σ t l :
  xpath_step σ (Some t) [l] = List.filter (has_tag σ [t]) (children_of σ l).
Proof. rewrite xpath_step_cons. simpl. by rewrite app_nil_r. Qed.

Lemma xpath_step_found σ t p c ctx :
  first_child_found_in p [t] σ = Ok (Some c, σ) →
  ∃ rest, xpath_step σ (Some t) (p :: ctx) = c :: rest.
Proof.
  intros Hc. apply first_child_found_in_inv in Hc as (_ & nd & Hp & Hfind).
  symmetry in Hfind. apply filter_find_first in Hfind as [rest Hrest].
  exists (rest ++ xpath_step σ (Some t) ctx).
  rewrite xpath_step_cons. unfold children_of. by rewrite Hp, Hrest.
Qed.

Lemma xpath_step_not_found σ t p :
  first_child_found_in p [t] σ = Ok (None, σ) → xpath_step σ (Some t) [p] = [].
Proof.
  intros Hc. apply first_child_found_in_inv in Hc as (_ & nd & Hp & Hfind).
  symmetry in Hfind. apply find_first_None in Hfind.
  rewrite xpath_step_one. unfold children_of. rewrite Hp.
  by apply filter_all_false.
Qed.

Lemma get_inv l name σ o σ' :
  get l name σ = Ok (o, σ') →
  σ' = σ ∧ ∃ nd, σ !! l = Some nd ∧ o = attrib nd !! name.
Proof.
  intros Hg. unfold get in Hg. apply bind_Ok_inv in Hg as (nd & σ1 & Hn & Hr).
  unfold get_node in Hn. destruct (σ !! l) as [nd'|] eqn:Hl; [|done].
  injection Hn as <- <-. injection Hr as <- <-. split; [done|]. by exists nd'.
Qed.

Lemma required_attr_get name c l s σ :
  get l name σ = Ok (Some s, σ) →
  attr_get (RequiredAttribute name c) l σ
  = match decode c s with
    | Some v => Ok (Some v, σ)
    | None => Raise (TypeError s)
    end.
Proof.
  intros Hg. unfold attr_get. rewrite (bind_Ok _ _ _ _ _ Hg).
  unfold from_xml. by destruct (decode c s).
Qed.

Section shape_properties.
Context `{Collaborators} `{Util}.

Lemma xpath_attr_found name child_tag sp xfrm c s σ :
  first_child_found_in sp ["a:xfrm"] σ = Ok (Some xfrm, σ) →
  first_child_found_in xfrm [child_tag] σ = Ok (Some c, σ) →
  get c name σ = Ok (Some s, σ) →
  ∃ rest, xpath_attr σ name
            (xpath_step σ (Some child_tag) (xpath_step σ (Some "a:xfrm") [sp]))
          = s :: rest.
Proof.
  intros Hx Hc Hg.
  destruct (xpath_step_found σ "a:xfrm" sp xfrm [] Hx) as [r1 ->].
  destruct (xpath_step_found σ child_tag xfrm c r1 Hc) as [r2 ->].
  apply get_inv in Hg as (_ & nd & Hnd & Hs).
  exists (xpath_attr σ name r2). unfold xpath_attr. csimpl.
  by rewrite Hnd; simpl; rewrite <- Hs.
Qed.

Lemma xpath_attr_no_xfrm name child_tag sp σ :
  first_child_found_in sp ["a:xfrm"] σ = Ok (None, σ) →
  xpath_attr σ name
    (xpath_step σ (Some child_tag) (xpath_step σ (Some "a:xfrm") [sp])) = [].
Proof. intros Hx. by rewrite (xpath_step_not_found σ "a:xfrm" sp Hx). Qed.

Lemma of_result_Emu s σ :
  (v ← of_result (Emu s); mret (Some v)) σ
  = match Emu s with
    | Ok v => Ok (Some v, σ)
    | Raise e => Raise e
    end.
Proof. unfold mbind, M_bind, of_result. by destruct (Emu s). Qed.

(** X15. The XPath readers [x], [y], [cx], [cy] of [p:spPr] and the
    descriptor readers of its [a:xfrm] look at the same attribute.  Without
    an [a:xfrm] the XPath readers return [None]; with an [a:xfrm] whose
    [a:off] (or [a:ext]) has the attribute, the XPath reader returns [Emu] of
    the very string that the descriptor reader decodes. *)
Theorem shape_properties_readers_agree sp σ :
  (CT_ShapeProperties.xfrm sp σ = Ok (None, σ) →
   CT_ShapeProperties.x sp σ = Ok (None, σ) ∧
   CT_ShapeProperties.y sp σ = Ok (None, σ) ∧
   CT_ShapeProperties.cx sp σ = Ok (None, σ) ∧
   CT_ShapeProperties.cy sp σ = Ok (None, σ)) ∧
  (∀ xfrm off s,
     CT_ShapeProperties.xfrm sp σ = Ok (Some xfrm, σ) →
     CT_Transform2D.off xfrm σ = Ok (Some off, σ) →
     (get off "x" σ = Ok (Some s, σ) →
      CT_ShapeProperties.x sp σ = match Emu s with
                                  | Ok v => Ok (Some v, σ)
                                  | Raise e => Raise e
                                  end ∧
      CT_Transform2D.x xfrm σ = match decode ST_Coordinate s with
                                | Some v => Ok (Some v, σ)
                                | None => Raise (TypeError s)
                                end) ∧
     (get off "y" σ = Ok (Some s, σ) →
      CT_ShapeProperties.y sp σ = match Emu s with
                                  | Ok v => Ok (Some v, σ)
                                  | Raise e => Raise e
                                  end ∧
      CT_Transform2D.y xfrm σ = match decode ST_Coordinate s with
                                | Some v => Ok (Some v, σ)
                                | None => Raise (TypeError s)
                                end)) ∧
  (∀ xfrm ext s,
     CT_ShapeProperties.xfrm sp σ = Ok (Some xfrm, σ) →
     CT_Transform2D.ext xfrm σ = Ok (Some ext, σ) →
     (get ext "cx" σ = Ok (Some s, σ) →
      CT_ShapeProperties.cx sp σ = match Emu s with
                                   | Ok v => Ok (Some v, σ)
                                   | Raise e => Raise e
                                   end ∧
      CT_Transform2D.cx xfrm σ = match decode ST_PositiveCoordinate s with
                                 | Some v => Ok (Some v, σ)
                                 | None => Raise (TypeError s)
                                 end) ∧
     (get ext "cy" σ = Ok (Some s, σ) →
      CT_ShapeProperties.cy sp σ = match Emu s with
                                   | Ok v => Ok (Some v, σ)
                                   | Raise e => Raise e
                                   end ∧
      CT_Transform2D.cy xfrm σ = match decode ST_PositiveCoordinate s with
                                 | Some v => Ok (Some v, σ)
                                 | None => Raise (TypeError s)
                                 end)).
Proof.
  split; [|split].
  - intros Hx.
    destruct (first_child_found_in_inv _ _ _ _ _ Hx) as (_ & nd & Hsp & _).
    pose proof (get_node_Ok _ _ _ Hsp) as Hn.
    unfold CT_ShapeProperties.x, CT_ShapeProperties.y, CT_ShapeProperties.cx,
      CT_ShapeProperties.cy.
    rewrite !(bind_Ok _ _ _ _ _ Hn). cbv zeta.
    by rewrite !(xpath_attr_no_xfrm _ _ sp σ Hx).
  - intros xfrm off s Hx Hoff.
    destruct (first_child_found_in_inv _ _ _ _ _ Hx) as (_ & nd & Hsp & _).
    pose proof (get_node_Ok _ _ _ Hsp) as Hn.
    split; intros Hg.
    + destruct (xpath_attr_found "x" "a:off" sp xfrm off s σ Hx Hoff Hg) as [rest Hl].
      split.
      * unfold CT_ShapeProperties.x. rewrite (bind_Ok _ _ _ _ _ Hn). cbv zeta.
        rewrite Hl. apply of_result_Emu.
      * unfold CT_Transform2D.x. rewrite (bind_Ok _ _ _ _ _ Hoff).
        by apply required_attr_get.
    + destruct (xpath_attr_found "y" "a:off" sp xfrm off s σ Hx Hoff Hg) as [rest Hl].
      split.
      * unfold CT_ShapeProperties.y. rewrite (bind_Ok _ _ _ _ _ Hn). cbv zeta.
        rewrite Hl. apply of_result_Emu.
      * unfold CT_Transform2D.y. rewrite (bind_Ok _ _ _ _ _ Hoff).
        by apply required_attr_get.
  - intros xfrm ext s Hx Hext.
    destruct (first_child_found_in_inv _ _ _ _ _ Hx) as (_ & nd & Hsp & _).
    pose proof (get_node_Ok _ _ _ Hsp) as Hn.
    split; intros Hg.
    + destruct (xpath_attr_found "cx" "a:ext" sp xfrm ext s σ Hx Hext Hg) as [rest Hl].
      split.
      * unfold CT_ShapeProperties.cx. rewrite (bind_Ok _ _ _ _ _ Hn). cbv zeta.
        rewrite Hl. apply of_result_Emu.
      * unfold CT_Transform2D.cx. rewrite (bind_Ok _ _ _ _ _ Hext).
        by apply required_attr_get.
    + destruct (xpath_attr_found "cy" "a:ext" sp xfrm ext s σ Hx Hext Hg) as [rest Hl].
      split.
      * unfold CT_ShapeProperties.cy. rewrite (bind_Ok _ _ _ _ _ Hn). cbv zeta.
        rewrite Hl. apply of_result_Emu.
      * unfold CT_Transform2D.cy. rewrite (bind_Ok _ _ _ _ _ Hext).
        by apply required_attr_get.
Qed.

(** X16. The XPath reader [ph] of a shape and the [ph] descriptor of
    [p:nvPr] agree: a shape without children, or whose first child has no
    [p:nvPr], has no placeholder marker; otherwise the marker of the shape is
    the [p:ph] of the [p:nvPr] of its first child (when that [p:nvPr] has
    none, provided the first child has only one [p:nvPr]). *)
Theorem ph_is_the_marker_of_nvPr self σ nds :
  σ !! self = Some nds →
  (children nds = [] → BaseShapeElement.ph self σ = Ok (None, σ)) ∧
  (∀ c1, head (children nds) = Some c1 →
     (find c1 "p:nvPr" σ = Ok (None, σ) →
      BaseShapeElement.ph self σ = Ok (None, σ)) ∧
     (∀ nvPr, find c1 "p:nvPr" σ = Ok (Some nvPr, σ) →
        (∀ ph, CT_ApplicationNonVisualDrawingProps.ph nvPr σ = Ok (Some ph, σ) →
           BaseShapeElement.ph self σ = Ok (Some ph, σ)) ∧
        (CT_ApplicationNonVisualDrawingProps.ph nvPr σ = Ok (None, σ) →
         length (List.filter (has_tag σ ["p:nvPr"]) (children_of σ c1)) ≤ 1 →
         BaseShapeElement.ph self σ = Ok (None, σ)))).
Proof.
  intros Hself.
  assert (Hkids : children_of σ self = children nds).
  { unfold children_of. by rewrite Hself. }
  split.
  - intros Hnil. rewrite (ph_eval self σ nds Hself), Hkids, Hnil. done.
  - intros c1 Hc1. apply head_Some in Hc1 as [rest Hrest]. split.
    + intros Hnone. rewrite (ph_eval self σ nds Hself), Hkids, Hrest.
      change (take 1 (c1 :: rest)) with [c1].
      by rewrite (xpath_step_not_found σ "p:nvPr" c1 Hnone).
    + intros nvPr Hnv.
      destruct (xpath_step_found σ "p:nvPr" c1 nvPr [] Hnv) as [r1 Hr1]. split.
      * intros ph Hph. rewrite (ph_eval self σ nds Hself), Hkids, Hrest.
      change (take 1 (c1 :: rest)) with [c1].
        rewrite Hr1.
        by destruct (xpath_step_found σ "p:ph" nvPr ph r1 Hph) as [r2 ->].
      * intros Hph Hone. rewrite (ph_eval self σ nds Hself), Hkids, Hrest.
      change (take 1 (c1 :: rest)) with [c1].
        rewrite Hr1. rewrite xpath_step_one in Hr1. rewrite Hr1 in Hone.
        destruct r1 as [|? ?]; [|simpl in Hone; lia].
        by rewrite (xpath_step_not_found σ "p:ph" nvPr Hph).
Qed.

End shape_properties.


(** ** The transform of a shape *)

Section shape_transform.
Context `{Collaborators}.

(** X17. [get_or_add_xfrm] of a shape returns the [a:xfrm] that [xfrm]
    returns, unchanged and without touching the document, when there is one;
    otherwise it adds an empty [a:xfrm], which is then what [xfrm] returns.
    A second call returns the same element and changes nothing. *)
Theorem get_or_add_xfrm_returns_the_xfrm self σ o :
  closed σ → BaseShapeElement.xfrm self σ = Ok (o, σ) →
  ∃ xfrm σ',
    BaseShapeElement.get_or_add_xfrm self σ = Ok (xfrm, σ') ∧
    BaseShapeElement.xfrm self σ' = Ok (Some xfrm, σ') ∧
    BaseShapeElement.get_or_add_xfrm self σ' = Ok (xfrm, σ') ∧
    match o with
    | Some xfrm0 => xfrm = xfrm0 ∧ σ' = σ
    | None => length σ ≤ xfrm ∧ σ' !! xfrm = Some (Node "a:xfrm" ∅ [])
    end.
Proof.
  intros Hcl Hx.
  destruct (get_or_add_xfrm_trace self σ o Hcl Hx)
    as (sp & xfrm & σ1 & Hsp & Hrun & Hcl1 & Heff & Hsp1 & Hx1 & Ho).
  assert (Hx' : BaseShapeElement.xfrm self σ1 = Ok (Some xfrm, σ1))
    by (by apply shape_xfrm_eval with sp).
  exists xfrm, σ1. do 2 (split; [done|]). split; [|done].
  by destruct (get_or_add_xfrm_trace self σ1 (Some xfrm) Hcl1 Hx')
    as (sp' & xfrm' & σ1' & _ & Hrun' & _ & _ & _ & _ & [-> ->]).
Qed.

Lemma no_spPr_xfrm self σ :
  find self "p:spPr" σ = Ok (None, σ) →
  BaseShapeElement.xfrm self σ = Raise (InvalidXmlError "p:spPr") ∧
  BaseShapeElement.get_or_add_xfrm self σ = Raise (InvalidXmlError "p:spPr").
Proof.
  intros Hfind.
  assert (BaseShapeElement.spPr self σ = Raise (InvalidXmlError "p:spPr")) as Hsp.
  { unfold BaseShapeElement.spPr, OneAndOnlyOne. by rewrite (bind_Ok _ _ _ _ _ Hfind). }
  split.
  - unfold BaseShapeElement.xfrm. by rewrite (bind_Raise _ _ _ _ Hsp).
  - unfold BaseShapeElement.get_or_add_xfrm. by rewrite (bind_Raise _ _ _ _ Hsp).
Qed.

(** X18. On a shape element without [p:spPr] child every geometry getter
    and every geometry setter raises the schema violation of the missing
    child, as [xfrm] and [get_or_add_xfrm] do; no getter swallows it into
    [None] or a default. *)
Theorem geometry_needs_spPr self v σ :
  find self "p:spPr" σ = Ok (None, σ) →
  BaseShapeElement.xfrm self σ = Raise (InvalidXmlError "p:spPr") ∧
  BaseShapeElement.get_or_add_xfrm self σ = Raise (InvalidXmlError "p:spPr") ∧
  (∀ get, get ∈ [BaseShapeElement.x; BaseShapeElement.y; BaseShapeElement.cx;
                 BaseShapeElement.cy; BaseShapeElement.rot] →
     get self σ = Raise (InvalidXmlError "p:spPr")) ∧
  BaseShapeElement.flipH self σ = Raise (InvalidXmlError "p:spPr") ∧
  BaseShapeElement.flipV self σ = Raise (InvalidXmlError "p:spPr") ∧
  (∀ set, set ∈ [BaseShapeElement.set_rot; BaseShapeElement.set_flipH;
                 BaseShapeElement.set_flipV; BaseShapeElement.set_x;
                 BaseShapeElement.set_y; BaseShapeElement.set_cx;
                 BaseShapeElement.set_cy] →
     set self v σ = Raise (InvalidXmlError "p:spPr")).
Proof.
  intros Hfind. destruct (no_spPr_xfrm self σ Hfind) as [Hx Hg].
  assert (Hget : ∀ name, BaseShapeElement._get_xfrm_attr self name σ
                         = Raise (InvalidXmlError "p:spPr")).
  { intros name. unfold BaseShapeElement._get_xfrm_attr.
    by rewrite (bind_Raise _ _ _ _ Hx). }
  assert (Hset : ∀ name, BaseShapeElement._set_xfrm_attr self name v σ
                         = Raise (InvalidXmlError "p:spPr")).
  { intros name. unfold BaseShapeElement._set_xfrm_attr.
    by rewrite (bind_Raise _ _ _ _ Hg). }
  do 2 (split; [done|]). split; [|split; [|split]].
  - intros get Hin.
    repeat (apply elem_of_cons in Hin as [->|Hin]); [..|by inversion Hin];
      try apply Hget.
    unfold BaseShapeElement.rot. by rewrite (bind_Raise _ _ _ _ Hx).
  - unfold BaseShapeElement.flipH. by rewrite (bind_Raise _ _ _ _ (Hget _)).
  - unfold BaseShapeElement.flipV. by rewrite (bind_Raise _ _ _ _ (Hget _)).
  - intros set Hin.
    repeat (apply elem_of_cons in Hin as [->|Hin]); [..|by inversion Hin];
      try apply Hset.
    unfold BaseShapeElement.set_rot. by rewrite (bind_Raise _ _ _ _ Hg).
Qed.

Lemma view_of_present (r : result (option (gmap string string))) m m0 nd0 :
  r = Ok (Some m) → r = Ok (Some m0) ∨ r = Ok None ∧ m0 = nd0 → m0 = m.
Proof. intros -> [Heq|[Heq _]]; congruence. Qed.

(** X19. A shape can be placed in four assignments: on every shape with a
    [p:spPr], setting [x], [y], [cx] and [cy] one after the other succeeds,
    and afterwards the four getters return the four values (when the codecs
    round-trip at them); no assignment undoes an earlier one. *)
Theorem position_and_size_set_together self vx vy vcx vcy σ o :
  closed σ → BaseShapeElement.xfrm self σ = Ok (o, σ) →
  round_trips CT_Point2D.x vx → round_trips CT_Point2D.y vy →
  round_trips CT_PositiveSize2D.cx vcx → round_trips CT_PositiveSize2D.cy vcy →
  ∃ σ', (BaseShapeElement.set_x self vx;; BaseShapeElement.set_y self vy;;
         BaseShapeElement.set_cx self vcx;; BaseShapeElement.set_cy self vcy) σ
        = Ok (tt, σ') ∧
    BaseShapeElement.x self σ' = Ok (Some vx, σ') ∧
    BaseShapeElement.y self σ' = Ok (Some vy, σ') ∧
    BaseShapeElement.cx self σ' = Ok (Some vcx, σ') ∧
    BaseShapeElement.cy self σ' = Ok (Some vcy, σ').
Proof.
  intros Hcl Hx Hvx Hvy Hvcx Hvcy.
  destruct (set_x_view self vx σ o Hcl Hx)
    as (σ1 & m0 & x1 & Hrun1 & Hcl1 & Hx1 & _ & Hoff1 & _ & _).
  destruct (set_y_view self vy σ1 (Some x1) Hcl1 Hx1)
    as (σ2 & m1 & x2 & Hrun2 & Hcl2 & Hx2 & Hm1 & Hoff2 & _ & _).
  apply (view_of_present _ _ _ _ Hoff1) in Hm1. subst m1.
  destruct (set_cx_view self vcx σ2 (Some x2) Hcl2 Hx2)
    as (σ3 & m2 & x3 & Hrun3 & Hcl3 & Hx3 & _ & Hext3 & _ & Hoff3).
  destruct (set_cy_view self vcy σ3 (Some x3) Hcl3 Hx3)
    as (σ4 & m3 & x4 & Hrun4 & Hcl4 & Hx4 & Hm3 & Hext4 & _ & Hoff4).
  apply (view_of_present _ _ _ _ Hext3) in Hm3. subst m3.
  exists σ4. split.
  { rewrite (bind_Ok _ _ _ _ _ Hrun1), (bind_Ok _ _ _ _ _ Hrun2).
    by rewrite (bind_Ok _ _ _ _ _ Hrun3). }
  rewrite Hoff3, Hoff2 in Hoff4.
  split; [|split; [|split]].
  - apply value_of_read_only; [apply read_only_x|].
    rewrite x_eval, Hoff4, attr_of_write_other by done. by apply attr_of_write.
  - apply value_of_read_only; [apply read_only_y|].
    rewrite y_eval, Hoff4. by apply attr_of_write.
  - apply value_of_read_only; [apply read_only_cx|].
    rewrite cx_eval, Hext4, attr_of_write_other by done. by apply attr_of_write.
  - apply value_of_read_only; [apply read_only_cy|].
    rewrite cy_eval, Hext4. by apply attr_of_write.
Qed.

End shape_transform.


Section rotation.
Context `{Collaborators}.

(** X20. [rot] never returns [None]: whenever it returns, the document is
    unchanged and the result is a value: [0.0] for a shape without [a:xfrm],
    and otherwise what the [rot] attribute of the [a:xfrm] reads, the decoded
    attribute or the declared default; the test [xfrm.rot is None] of the
    getter never succeeds on its own. *)
Theorem rot_is_never_None self σ r σ' :
  BaseShapeElement.rot self σ = Ok (r, σ') →
  σ' = σ ∧ ∃ v o, r = Some v ∧
    BaseShapeElement.xfrm self σ = Ok (o, σ) ∧
    match o with
    | None => v = VFloat PrimFloat.zero
    | Some xfrm => attr_get CT_Transform2D.rot xfrm σ = Ok (Some v, σ)
    end.
Proof.
  intros Hr. pose proof (read_only_rot self _ _ _ Hr) as ->. split; [done|].
  unfold BaseShapeElement.rot in Hr.
  apply bind_Ok_inv in Hr as (o & σ1 & Hx & Hr).
  pose proof (read_only_xfrm self _ _ _ Hx) as ->.
  destruct o as [xfrm|].
  - apply bind_Ok_inv in Hr as (r0 & σ1 & Hget & Hr).
    pose proof (read_only_attr_get _ _ _ _ _ Hget) as ->.
    destruct r0 as [v0|].
    + rewrite Hget in Hr. injection Hr as <-. by exists v0, (Some xfrm).
    + exfalso. destruct (σ !! xfrm) as [nd|] eqn:Hnd.
      * rewrite (attr_get_eval _ _ _ _ Hnd) in Hget.
        unfold CT_Transform2D.rot, attr_read in Hget.
        destruct (attrib nd !! "rot") as [s|]; [|done].
        by destruct (decode ST_Angle s).
      * by rewrite attr_get_unallocated in Hget.
  - injection Hr as <-. by exists (VFloat PrimFloat.zero), None.
Qed.

End rotation.

Section examples.
Local Existing Instance Plain.collaborators.

Example xfrm_reverse_order :
  let σ := [Node "a:xfrm" ∅ []] in
  match call_all (reverse (et_get_or_add xfrm_type)) 0 σ with
  | Ok (_, σ') => child_tags σ' 0
  | Raise _ => []
  end = ["a:off"; "a:ext"; "a:chOff"; "a:chExt"].
Proof. vm_compute. reflexivity. Qed.

Example spPr_fill_then_xfrm :
  let σ := [Node "p:spPr" ∅ [1; 2]; Node "a:prstGeom" ∅ []; Node "a:ln" ∅ []] in
  match (CT_ShapeProperties.get_or_add_fill "a:solidFill" 0;;
         CT_ShapeProperties.get_or_add_fill "a:gradFill" 0;;
         CT_ShapeProperties.get_or_add_xfrm 0) σ with
  | Ok (_, σ') => child_tags σ' 0
  | Raise _ => []
  end = ["a:xfrm"; "a:prstGeom"; "a:solidFill"; "a:ln"].
Proof. vm_compute. reflexivity. Qed.

Lemma get_or_add_schema_order_witness :
  ∃ σ', call_all (reverse (et_get_or_add xfrm_type)) 0
          [Node "a:xfrm" ∅ []] = Ok (tt, σ') ∧
    placed_run (reverse (et_get_or_add xfrm_type)) 0
      [Node "a:xfrm" ∅ []] σ' ∧
    schema_ordered CT_Transform2D._tag_seq (child_tags σ' 0).
Proof.
  apply (get_or_add_schema_order xfrm_type).
  - apply OxmlElement_constructs.
  - unfold element_types. set_solver.
  - intros g Hg. by apply elem_of_reverse in Hg.
  - apply closedb_closed. reflexivity.
  - by eexists.
  - vm_compute. constructor.
Defined.

Example get_or_add_xfrm_twice :
  let σ := [Node "p:spPr" ∅ [1]; Node "a:ln" ∅ []] in
  (CT_ShapeProperties.get_or_add_xfrm 0 σ,
   (CT_ShapeProperties.get_or_add_xfrm 0;; CT_ShapeProperties.get_or_add_xfrm 0) σ)
  = (Ok (2, [Node "p:spPr" ∅ [2; 1]; Node "a:ln" ∅ []; Node "a:xfrm" ∅ []]),
     Ok (2, [Node "p:spPr" ∅ [2; 1]; Node "a:ln" ∅ []; Node "a:xfrm" ∅ []])).
Proof. vm_compute. reflexivity. Qed.

Lemma get_or_add_idempotent_witness :
  ∃ c σ',
    CT_ShapeProperties.get_or_add_xfrm 0
      [Node "p:spPr" ∅ [1]; Node "a:ln" ∅ []] = Ok (c, σ') ∧
    get_or_add_effect CT_ShapeProperties.xfrm_slot "a:xfrm" 0 c
      [Node "p:spPr" ∅ [1]; Node "a:ln" ∅ []] σ' ∧
    CT_ShapeProperties.xfrm 0 σ' = Ok (Some c, σ') ∧
    c ∈ children_of σ' 0 ∧
    CT_ShapeProperties.get_or_add_xfrm 0 σ' = Ok (c, σ') ∧
    (∀ c2 σ2, CT_ShapeProperties.get_or_add_xfrm 0 σ' = Ok (c2, σ2) →
       c2 = c ∧ σ2 !! c = σ' !! c ∧ children_of σ2 0 = children_of σ' 0).
Proof.
  apply (get_or_add_idempotent CT_ShapeProperties.xfrm_slot
           (OxmlElement "a:xfrm") "a:xfrm").
  - apply closedb_closed. reflexivity.
  - by eexists.
  - apply OxmlElement_constructs.
  - apply (bool_decide_unpack _). vm_compute. exact I.
Defined.

Example line_fill_choice :
  let σ := [Node "a:ln" ∅ [1]; Node "a:prstDash" ∅ []] in
  (CT_LineProperties.get_or_add_fill "a:noFill" 0;;
   CT_LineProperties.get_or_add_fill "a:solidFill" 0) σ
  = Ok (2, [Node "a:ln" ∅ [2; 1]; Node "a:prstDash" ∅ []; Node "a:noFill" ∅ []]).
Proof. vm_compute. reflexivity. Qed.

Lemma choice_get_or_add_exclusive_witness :
  ∃ c σ',
    CT_LineProperties.get_or_add_fill "a:noFill" 0
      [Node "a:ln" ∅ [1]; Node "a:prstDash" ∅ []] = Ok (c, σ') ∧
    CT_LineProperties.get_or_add_fill "a:solidFill" 0 σ' = Ok (c, σ') ∧
    (length (occupants CT_LineProperties.eg_lineFillProperties_slot
               [Node "a:ln" ∅ [1]; Node "a:prstDash" ∅ []] 0) ≤ 1 →
     occupants CT_LineProperties.eg_lineFillProperties_slot σ' 0 = [c]).
Proof.
  apply (choice_get_or_add_exclusive CT_LineProperties.eg_lineFillProperties_slot
           (OxmlElement "a:noFill") "a:noFill" (OxmlElement "a:solidFill")).
  - apply closedb_closed. reflexivity.
  - by eexists.
  - apply OxmlElement_constructs.
  - apply (bool_decide_unpack _). vm_compute. exact I.
Defined.

Example bare_shape_reads :
  (BaseShapeElement.x 0 Sample.bare_shape,
   BaseShapeElement.rot 0 Sample.bare_shape,
   BaseShapeElement.flipH 0 Sample.bare_shape,
   BaseShapeElement.ph_type 0 Sample.bare_shape)
  = (Ok (None, Sample.bare_shape),
     Ok (Some (VFloat PrimFloat.zero), Sample.bare_shape),
     Ok (false, Sample.bare_shape),
     Raise (ValueError "not a placeholder shape")).
Proof. vm_compute. reflexivity. Qed.

Example ext_only_shape_reads :
  (BaseShapeElement.x 0 Sample.ext_only_shape,
   BaseShapeElement.cx 0 Sample.ext_only_shape,
   BaseShapeElement.cy 0 Sample.ext_only_shape,
   BaseShapeElement.ph_idx 0 Sample.ext_only_shape,
   BaseShapeElement.ph_type 0 Sample.ext_only_shape,
   BaseShapeElement.ph_orient 0 Sample.ext_only_shape)
  = (Ok (None, Sample.ext_only_shape),
     Ok (Some (VInt 914400), Sample.ext_only_shape),
     Ok (Some (VInt 457200), Sample.ext_only_shape),
     Ok (Some (VInt 3), Sample.ext_only_shape),
     Ok (Some (VEnum "PP_PLACEHOLDER" "title"), Sample.ext_only_shape),
     Ok (Some (VEnum "ST_Direction" "HORZ"), Sample.ext_only_shape)).
Proof. vm_compute. reflexivity. Qed.

(** A shape without [p:spPr] is malformed: the read raises. *)
Example no_spPr_raises :
  BaseShapeElement.x 0 [Node "p:sp" ∅ []] = Raise (InvalidXmlError "p:spPr").
Proof. vm_compute. reflexivity. Qed.

Lemma geometry_reads_null_or_default_witness :
  (BaseShapeElement.x 0 Sample.bare_shape = Ok (None, Sample.bare_shape) ∧
   BaseShapeElement.y 0 Sample.bare_shape = Ok (None, Sample.bare_shape) ∧
   BaseShapeElement.cx 0 Sample.bare_shape = Ok (None, Sample.bare_shape) ∧
   BaseShapeElement.cy 0 Sample.bare_shape = Ok (None, Sample.bare_shape) ∧
   BaseShapeElement.rot 0 Sample.bare_shape
     = Ok (Some (VFloat PrimFloat.zero), Sample.bare_shape) ∧
   BaseShapeElement.flipH 0 Sample.bare_shape = Ok (false, Sample.bare_shape) ∧
   BaseShapeElement.flipV 0 Sample.bare_shape = Ok (false, Sample.bare_shape)) ∧
  (BaseShapeElement.x 0 Sample.empty_xfrm_shape = Ok (None, Sample.empty_xfrm_shape) ∧
   BaseShapeElement.y 0 Sample.empty_xfrm_shape = Ok (None, Sample.empty_xfrm_shape)) ∧
  (BaseShapeElement.cx 0 Sample.empty_xfrm_shape = Ok (None, Sample.empty_xfrm_shape) ∧
   BaseShapeElement.cy 0 Sample.empty_xfrm_shape = Ok (None, Sample.empty_xfrm_shape)) ∧
  BaseShapeElement.rot 0 Sample.empty_xfrm_shape
    = Ok (Some (VFloat PrimFloat.zero), Sample.empty_xfrm_shape) ∧
  BaseShapeElement.flipH 0 Sample.empty_xfrm_shape = Ok (false, Sample.empty_xfrm_shape) ∧
  BaseShapeElement.flipV 0 Sample.empty_xfrm_shape = Ok (false, Sample.empty_xfrm_shape).
Proof.
  split.
  - apply (proj1 (geometry_reads_null_or_default 0 Sample.bare_shape)).
    vm_compute. reflexivity.
  - pose proof (proj2 (geometry_reads_null_or_default 0 Sample.empty_xfrm_shape) 6)
      as Hpresent.
    destruct Hpresent as (Hoff & Hext & Hrot & HflipH & HflipV);
      [vm_compute; reflexivity|].
    split; [apply Hoff; vm_compute; reflexivity|].
    split; [apply Hext; vm_compute; reflexivity|].
    split; [apply Hrot; vm_compute; reflexivity|].
    split; [apply HflipH; vm_compute; reflexivity|].
    apply HflipV; vm_compute; reflexivity.
Defined.

Lemma placeholder_accessors_witness :
  (BaseShapeElement.ph_type 0 Sample.bare_shape
     = Raise (ValueError "not a placeholder shape") ∧
   BaseShapeElement.ph_orient 0 Sample.bare_shape
     = Raise (ValueError "not a placeholder shape") ∧
   BaseShapeElement.ph_sz 0 Sample.bare_shape
     = Raise (ValueError "not a placeholder shape") ∧
   BaseShapeElement.ph_idx 0 Sample.bare_shape
     = Raise (ValueError "not a placeholder shape")) ∧
  (BaseShapeElement.ph_type 0 Sample.ext_only_shape
     = attr_get CT_Placeholder.type 8 Sample.ext_only_shape ∧
   BaseShapeElement.ph_orient 0 Sample.ext_only_shape
     = attr_get CT_Placeholder.orient 8 Sample.ext_only_shape ∧
   BaseShapeElement.ph_sz 0 Sample.ext_only_shape
     = attr_get CT_Placeholder.sz 8 Sample.ext_only_shape ∧
   BaseShapeElement.ph_idx 0 Sample.ext_only_shape
     = attr_get CT_Placeholder.idx 8 Sample.ext_only_shape).
Proof.
  split.
  - apply (proj1 (placeholder_accessors 0 Sample.bare_shape)).
    vm_compute. reflexivity.
  - apply (proj2 (placeholder_accessors 0 Sample.ext_only_shape) 8).
    vm_compute. reflexivity.
Defined.

Lemma placeholder_idx_default_witness :
  BaseShapeElement.ph_idx 0 Sample.empty_xfrm_shape
    = Ok (Some (VInt 0), Sample.empty_xfrm_shape).
Proof.
  apply (placeholder_idx_default 0 7 Sample.empty_xfrm_shape).
  - vm_compute. reflexivity.
  - vm_compute. reflexivity.
Defined.

Example set_x_then_read :
  match BaseShapeElement.set_x 0 (VInt 100) Sample.bare_shape with
  | Ok (_, σ') =>
      Some (BaseShapeElement.x 0 σ', BaseShapeElement.y 0 σ',
            BaseShapeElement.cx 0 σ', child_tags σ' 5, child_tags σ' 6, σ' !! 7)
  | Raise _ => None
  end
  = match BaseShapeElement.set_x 0 (VInt 100) Sample.bare_shape with
    | Ok (_, σ') =>
        Some (Ok (Some (VInt 100), σ'), Ok (Some (VInt 0), σ'), Ok (None, σ'),
              ["a:xfrm"], ["a:off"],
              Some (Node "a:off" (<["x" := "100"]> (<["y" := "0"]> ∅)) []))
    | Raise _ => None
    end.
Proof. vm_compute. reflexivity. Qed.

Example set_x_succeeds :
  match BaseShapeElement.set_x 0 (VInt 100) Sample.bare_shape with
  | Ok (_, σ') => length σ'
  | Raise _ => 0
  end = 8.
Proof. vm_compute. reflexivity. Qed.

(** The offset goes before an extent that is already there. *)
Example set_x_before_ext :
  match BaseShapeElement.set_x 0 (VInt 100) Sample.ext_only_shape with
  | Ok (_, σ') => child_tags σ' 6
  | Raise _ => []
  end = ["a:off"; "a:ext"].
Proof. vm_compute. reflexivity. Qed.

Example set_flipH_false_on_bare_shape :
  match BaseShapeElement.set_flipH 0 (VBool false) Sample.bare_shape with
  | Ok (_, σ') => Some (child_tags σ' 5, σ' !! 6)
  | Raise _ => None
  end = Some (["a:xfrm"], Some (Node "a:xfrm" ∅ [])).
Proof. vm_compute. reflexivity. Qed.

Lemma set_x_creates_transform_and_offset_witness :
  BaseShapeElement.x 0 Sample.bare_shape = Ok (None, Sample.bare_shape) ∧
  ∃ xfrm off σ',
    BaseShapeElement.set_x 0 (VInt 100) Sample.bare_shape = Ok (tt, σ') ∧
    length Sample.bare_shape ≤ xfrm ∧ length Sample.bare_shape ≤ off ∧
    BaseShapeElement.xfrm 0 σ' = Ok (Some xfrm, σ') ∧
    CT_Transform2D.off xfrm σ' = Ok (Some off, σ') ∧
    child_tags σ' xfrm = ["a:off"] ∧
    BaseShapeElement.x 0 σ' = Ok (Some (VInt 100), σ').
Proof.
  assert (closed Sample.bare_shape) as Hcl by (apply closedb_closed; reflexivity).
  assert (round_trips CT_Point2D.x (VInt 100)) as Hv by (vm_compute; reflexivity).
  apply (proj1 (set_x_creates_transform_and_offset 0 (VInt 100) Sample.bare_shape
                  Hcl Hv)).
  vm_compute. reflexivity.
Defined.

Lemma new_offset_and_extent_read_zero_witness :
  ((∃ σ', BaseShapeElement.set_x 0 (VInt 100) Sample.bare_shape = Ok (tt, σ') ∧
      BaseShapeElement.y 0 σ' = Ok (Some (VInt 0), σ')) ∧
   (∃ σ', BaseShapeElement.set_y 0 (VInt 100) Sample.bare_shape = Ok (tt, σ') ∧
      BaseShapeElement.x 0 σ' = Ok (Some (VInt 0), σ'))) ∧
  ((∃ σ', BaseShapeElement.set_cx 0 (VInt 100) Sample.empty_xfrm_shape = Ok (tt, σ') ∧
      BaseShapeElement.cy 0 σ' = Ok (Some (VInt 0), σ')) ∧
   (∃ σ', BaseShapeElement.set_cy 0 (VInt 100) Sample.empty_xfrm_shape = Ok (tt, σ') ∧
      BaseShapeElement.cx 0 σ' = Ok (Some (VInt 0), σ'))).
Proof.
  assert (closed Sample.bare_shape) as Hcl1 by (apply closedb_closed; reflexivity).
  assert (closed Sample.empty_xfrm_shape) as Hcl2
    by (apply closedb_closed; reflexivity).
  assert (BaseShapeElement.xfrm 0 Sample.bare_shape = Ok (None, Sample.bare_shape))
    as Hx1 by (vm_compute; reflexivity).
  assert (BaseShapeElement.xfrm 0 Sample.empty_xfrm_shape
          = Ok (Some 6, Sample.empty_xfrm_shape)) as Hx2 by (vm_compute; reflexivity).
  split.
  - apply (proj1 (new_offset_and_extent_read_zero 0 (VInt 100) Sample.bare_shape None
                    Hcl1 Hx1)).
    + exact I.
    + vm_compute. reflexivity.
  - apply (proj2 (new_offset_and_extent_read_zero 0 (VInt 100) Sample.empty_xfrm_shape
                    (Some 6) Hcl2 Hx2)).
    + vm_compute. reflexivity.
    + vm_compute. reflexivity.
Defined.

Lemma setters_materialize_xfrm_witness :
  (∃ xfrm σ',
     BaseShapeElement.set_rot 0 (VFloat PrimFloat.zero) Sample.bare_shape = Ok (tt, σ') ∧
     length Sample.bare_shape ≤ xfrm ∧
     BaseShapeElement.xfrm 0 σ' = Ok (Some xfrm, σ')) ∧
  (∃ xfrm σ',
     BaseShapeElement.set_flipH 0 (VBool false) Sample.bare_shape = Ok (tt, σ') ∧
     length Sample.bare_shape ≤ xfrm ∧
     BaseShapeElement.xfrm 0 σ' = Ok (Some xfrm, σ')).
Proof.
  split.
  - apply (setters_materialize_xfrm 0 (VFloat PrimFloat.zero) Sample.bare_shape
             BaseShapeElement.set_rot).
    + apply closedb_closed. reflexivity.
    + vm_compute. reflexivity.
    + left.
  - apply (setters_materialize_xfrm 0 (VBool false) Sample.bare_shape
             BaseShapeElement.set_flipH).
    + apply closedb_closed. reflexivity.
    + vm_compute. reflexivity.
    + right. left.
Defined.

Example set_prstDash_val_on_dashed_line :
  match CT_LineProperties.set_prstDash_val 0 (VEnum "MSO_LINE_DASH_STYLE" "dash")
          Sample.dashed_line with
  | Ok (_, σ') =>
      Some (child_tags σ' 0, CT_LineProperties.prstDash_val 0 σ', σ' !! 3)
  | Raise _ => None
  end
  = match CT_LineProperties.set_prstDash_val 0 (VEnum "MSO_LINE_DASH_STYLE" "dash")
            Sample.dashed_line with
    | Ok (_, σ') =>
        Some (["a:solidFill"; "a:prstDash"],
              Ok (Some (VEnum "MSO_LINE_DASH_STYLE" "dash"), σ'),
              Some (Node "a:prstDash" (<["val" := "dash"]> ∅) []))
    | Raise _ => None
    end.
Proof. vm_compute. reflexivity. Qed.

Lemma set_prstDash_val_replaces_custDash_witness :
  CT_LineProperties.custDash 0 Sample.dashed_line = Ok (Some 2, Sample.dashed_line) ∧
  ∃ σ1 σ' prstDash,
    CT_LineProperties._remove_custDash 0 Sample.dashed_line = Ok (tt, σ1) ∧
    CT_LineProperties.custDash 0 σ1 = Ok (None, σ1) ∧
    (prstDash ← CT_LineProperties.get_or_add_prstDash 0;
     attr_set prstDash_val_attr prstDash (VEnum "MSO_LINE_DASH_STYLE" "dash")) σ1
      = Ok (tt, σ') ∧
    CT_LineProperties.set_prstDash_val 0 (VEnum "MSO_LINE_DASH_STYLE" "dash")
      Sample.dashed_line = Ok (tt, σ') ∧
    CT_LineProperties.custDash 0 σ' = Ok (None, σ') ∧
    CT_LineProperties.prstDash 0 σ' = Ok (Some prstDash, σ') ∧
    CT_LineProperties.prstDash_val 0 σ'
      = Ok (Some (VEnum "MSO_LINE_DASH_STYLE" "dash"), σ') ∧
    (∀ p0, CT_LineProperties.prstDash 0 Sample.dashed_line
             = Ok (Some p0, Sample.dashed_line) → prstDash = p0).
Proof.
  split; [vm_compute; reflexivity|].
  apply (set_prstDash_val_replaces_custDash 0 (VEnum "MSO_LINE_DASH_STYLE" "dash")
           Sample.dashed_line).
  - apply closedb_closed. reflexivity.
  - by eexists.
  - vm_compute. auto.
Defined.

Lemma closed_placed_shape : closed placed_shape.
Proof. apply closedb_closed. reflexivity. Qed.

Example placed_shape_reads :
  (BaseShapeElement.x 0 placed_shape, BaseShapeElement.y 0 placed_shape,
   BaseShapeElement.cx 0 placed_shape, BaseShapeElement.cy 0 placed_shape,
   BaseShapeElement.flipH 0 placed_shape, BaseShapeElement.flipV 0 placed_shape,
   BaseShapeElement.txBody 0 placed_shape, BaseShapeElement.ph 0 placed_shape)
  = (Ok (Some (VInt 10), placed_shape), Ok (Some (VInt 20), placed_shape),
     Ok (Some (VInt 300), placed_shape), Ok (Some (VInt 400), placed_shape),
     Ok (true, placed_shape), Ok (false, placed_shape),
     Ok (Some 9, placed_shape), Ok (Some 10, placed_shape)).
Proof. vm_compute. reflexivity. Qed.

Example degrees_round_trip :
  (encode Degrees.angle_codec (VFloat (Degrees.Z_to_float 90)),
   decode Degrees.angle_codec "5400000",
   decode Degrees.angle_codec "21630000")
  = ("5400000", Some (VFloat (Degrees.Z_to_float 90)),
     Some (VFloat (PrimFloat.div (Degrees.Z_to_float 1) (Degrees.Z_to_float 2)))).
Proof. vm_compute. reflexivity. Qed.

Lemma position_and_size_set_then_get_witness :
  (∃ σ', BaseShapeElement.set_x 0 (VInt 100) Sample.ext_only_shape = Ok (tt, σ') ∧
     BaseShapeElement.x 0 σ' = Ok (Some (VInt 100), σ')) ∧
  (∃ σ', BaseShapeElement.set_y 0 (VInt 100) Sample.ext_only_shape = Ok (tt, σ') ∧
     BaseShapeElement.y 0 σ' = Ok (Some (VInt 100), σ')) ∧
  (∃ σ', BaseShapeElement.set_cx 0 (VInt 100) Sample.ext_only_shape = Ok (tt, σ') ∧
     BaseShapeElement.cx 0 σ' = Ok (Some (VInt 100), σ')) ∧
  (∃ σ', BaseShapeElement.set_cy 0 (VInt 100) Sample.ext_only_shape = Ok (tt, σ') ∧
     BaseShapeElement.cy 0 σ' = Ok (Some (VInt 100), σ')).
Proof.
  assert (closed Sample.ext_only_shape) as Hcl by (apply closedb_closed; reflexivity).
  assert (BaseShapeElement.xfrm 0 Sample.ext_only_shape
          = Ok (Some 6, Sample.ext_only_shape)) as Hx by (vm_compute; reflexivity).
  destruct (position_and_size_set_then_get 0 (VInt 100) Sample.ext_only_shape
              (Some 6) Hcl Hx) as (Hsx & Hsy & Hscx & Hscy).
  split; [apply Hsx; vm_compute; reflexivity|].
  split; [apply Hsy; vm_compute; reflexivity|].
  split; [apply Hscx; vm_compute; reflexivity|].
  apply Hscy; vm_compute; reflexivity.
Defined.

Lemma rot_and_flip_set_then_get_witness :
  (∃ σ', @BaseShapeElement.set_rot Degrees.collaborators 0
           (VFloat (Degrees.Z_to_float 90)) Sample.bare_shape = Ok (tt, σ') ∧
     @BaseShapeElement.rot Degrees.collaborators 0 σ'
       = Ok (Some (VFloat (Degrees.Z_to_float 90)), σ')) ∧
  (∃ σ', BaseShapeElement.set_flipH 0 (VBool true) Sample.bare_shape = Ok (tt, σ') ∧
     BaseShapeElement.flipH 0 σ' = Ok (true, σ')) ∧
  (∃ σ', BaseShapeElement.set_flipV 0 (VBool false) Sample.bare_shape = Ok (tt, σ') ∧
     BaseShapeElement.flipV 0 σ' = Ok (false, σ')).
Proof.
  assert (closed Sample.bare_shape) as Hcl by (apply closedb_closed; reflexivity).
  assert (BaseShapeElement.xfrm 0 Sample.bare_shape = Ok (None, Sample.bare_shape))
    as Hx by (vm_compute; reflexivity).
  split; [|split].
  - apply (proj1 (@rot_and_flip_set_then_get Degrees.collaborators 0 Sample.bare_shape None
                    Hcl Hx)).
    vm_compute. auto.
  - apply (proj1 (proj2 (rot_and_flip_set_then_get 0 Sample.bare_shape None Hcl Hx))).
    vm_compute. auto.
  - apply (proj2 (proj2 (rot_and_flip_set_then_get 0 Sample.bare_shape None Hcl Hx))).
    vm_compute. auto.
Defined.

Lemma position_setters_change_position_only_witness :
  (∃ σ', BaseShapeElement.set_x 0 (VInt 100) placed_shape = Ok (tt, σ') ∧
     same_read BaseShapeElement.cx 0 placed_shape σ' ∧
     same_read BaseShapeElement.cy 0 placed_shape σ' ∧
     same_read BaseShapeElement.rot 0 placed_shape σ' ∧
     same_read BaseShapeElement.flipH 0 placed_shape σ' ∧
     same_read BaseShapeElement.flipV 0 placed_shape σ' ∧
     same_read BaseShapeElement.y 0 placed_shape σ') ∧
  (∃ σ', BaseShapeElement.set_y 0 (VInt 100) placed_shape = Ok (tt, σ') ∧
     same_read BaseShapeElement.cx 0 placed_shape σ' ∧
     same_read BaseShapeElement.cy 0 placed_shape σ' ∧
     same_read BaseShapeElement.rot 0 placed_shape σ' ∧
     same_read BaseShapeElement.flipH 0 placed_shape σ' ∧
     same_read BaseShapeElement.flipV 0 placed_shape σ' ∧
     same_read BaseShapeElement.x 0 placed_shape σ').
Proof.
  assert (BaseShapeElement.xfrm 0 placed_shape = Ok (Some 6, placed_shape))
    as Hx by (vm_compute; reflexivity).
  destruct (position_setters_change_position_only 0 (VInt 100) placed_shape (Some 6)
              closed_placed_shape Hx)
    as [(σ1 & Hrun1 & Hcx1 & Hcy1 & Hrot1 & HfH1 & HfV1 & Hother1)
        (σ2 & Hrun2 & Hcx2 & Hcy2 & Hrot2 & HfH2 & HfV2 & Hother2)].
  split.
  - exists σ1. do 6 (split; [assumption|]).
    apply (Hother1 6 7 eq_refl). vm_compute. reflexivity.
  - exists σ2. do 6 (split; [assumption|]).
    apply (Hother2 6 7 eq_refl). vm_compute. reflexivity.
Defined.

Lemma size_setters_change_size_only_witness :
  (∃ σ', BaseShapeElement.set_cx 0 (VInt 100) placed_shape = Ok (tt, σ') ∧
     same_read BaseShapeElement.x 0 placed_shape σ' ∧
     same_read BaseShapeElement.y 0 placed_shape σ' ∧
     same_read BaseShapeElement.rot 0 placed_shape σ' ∧
     same_read BaseShapeElement.flipH 0 placed_shape σ' ∧
     same_read BaseShapeElement.flipV 0 placed_shape σ' ∧
     same_read BaseShapeElement.cy 0 placed_shape σ') ∧
  (∃ σ', BaseShapeElement.set_cy 0 (VInt 100) placed_shape = Ok (tt, σ') ∧
     same_read BaseShapeElement.x 0 placed_shape σ' ∧
     same_read BaseShapeElement.y 0 placed_shape σ' ∧
     same_read BaseShapeElement.rot 0 placed_shape σ' ∧
     same_read BaseShapeElement.flipH 0 placed_shape σ' ∧
     same_read BaseShapeElement.flipV 0 placed_shape σ' ∧
     same_read BaseShapeElement.cx 0 placed_shape σ').
Proof.
  assert (BaseShapeElement.xfrm 0 placed_shape = Ok (Some 6, placed_shape))
    as Hx by (vm_compute; reflexivity).
  destruct (size_setters_change_size_only 0 (VInt 100) placed_shape (Some 6)
              closed_placed_shape Hx)
    as [(σ1 & Hrun1 & Hx1 & Hy1 & Hrot1 & HfH1 & HfV1 & Hother1)
        (σ2 & Hrun2 & Hx2 & Hy2 & Hrot2 & HfH2 & HfV2 & Hother2)].
  split.
  - exists σ1. do 6 (split; [assumption|]).
    apply (Hother1 6 8 eq_refl). vm_compute. reflexivity.
  - exists σ2. do 6 (split; [assumption|]).
    apply (Hother2 6 8 eq_refl). vm_compute. reflexivity.
Defined.

Lemma rot_and_flip_setters_change_one_attribute_witness :
  ∃ σ', BaseShapeElement.set_flipV 0 (VBool true) placed_shape = Ok (tt, σ') ∧
    same_read BaseShapeElement.x 0 placed_shape σ' ∧
    same_read BaseShapeElement.y 0 placed_shape σ' ∧
    same_read BaseShapeElement.cx 0 placed_shape σ' ∧
    same_read BaseShapeElement.cy 0 placed_shape σ' ∧
    same_read BaseShapeElement.rot 0 placed_shape σ' ∧
    same_read BaseShapeElement.flipH 0 placed_shape σ'.
Proof.
  apply (proj2 (proj2 (rot_and_flip_setters_change_one_attribute 0 (VBool true)
                         placed_shape (Some 6) closed_placed_shape
                         ltac:(vm_compute; reflexivity)))).
Defined.

Lemma setters_idempotent_witness :
  ∃ σ', BaseShapeElement.set_cx 0 (VInt 100) Sample.bare_shape = Ok (tt, σ') ∧
    BaseShapeElement.set_cx 0 (VInt 100) σ' = Ok (tt, σ').
Proof.
  apply (setters_idempotent 0 (VInt 100) Sample.bare_shape None
           BaseShapeElement.set_cx).
  - apply closedb_closed. reflexivity.
  - vm_compute. reflexivity.
  - do 5 right. left.
Defined.

(** Setting [x] on a shape with an outline and an extent: the transform goes
    before the outline, the offset before the extent. *)
Example set_x_keeps_order :
  let σ := [Node "p:sp" ∅ [1]; Node "p:spPr" ∅ [2]; Node "a:ln" ∅ []] in
  match (BaseShapeElement.set_cx 0 (VInt 5);; BaseShapeElement.set_x 0 (VInt 7)) σ with
  | Ok (_, σ') => (child_tags σ' 1, child_tags σ' 3)
  | Raise _ => ([], [])
  end = (["a:xfrm"; "a:ln"], ["a:off"; "a:ext"]).
Proof. vm_compute. reflexivity. Qed.

Lemma setters_keep_schema_order_witness :
  ∃ σ' xfrm, BaseShapeElement.set_x 0 (VInt 100) Sample.ext_only_shape = Ok (tt, σ') ∧
    BaseShapeElement.xfrm 0 σ' = Ok (Some xfrm, σ') ∧
    BaseShapeElement.spPr 0 σ' = Ok (5, σ') ∧
    schema_ordered CT_ShapeProperties._tag_seq (child_tags σ' 5) ∧
    schema_ordered CT_Transform2D._tag_seq (child_tags σ' xfrm).
Proof.
  apply (setters_keep_schema_order 0 (VInt 100) Sample.ext_only_shape (Some 6) 5
           BaseShapeElement.set_x).
  - apply closedb_closed. reflexivity.
  - vm_compute. reflexivity.
  - vm_compute. reflexivity.
  - vm_compute. repeat constructor.
  - intros xfrm Hxfrm. injection Hxfrm as <-. vm_compute. repeat constructor.
  - do 3 right. left.
Defined.

Lemma setters_touch_geometry_only_witness :
  ∃ σ', BaseShapeElement.set_y 0 (VInt 100) placed_shape = Ok (tt, σ') ∧
    grows_within ["p:spPr"; "a:xfrm"; "a:off"] placed_shape σ' ∧
    same_read BaseShapeElement.txBody 0 placed_shape σ'.
Proof.
  apply (proj1 (proj2 (setters_touch_geometry_only 0 (VInt 100) placed_shape (Some 6)
                         closed_placed_shape ltac:(vm_compute; reflexivity)))).
  right. left.
Defined.

Lemma geometry_setters_keep_placeholder_witness :
  ∃ σ', BaseShapeElement.set_x 0 (VInt 100) placed_shape = Ok (tt, σ') ∧
    same_read BaseShapeElement.ph 0 placed_shape σ' ∧
    same_read BaseShapeElement.has_ph_elm 0 placed_shape σ' ∧
    same_read BaseShapeElement.ph_type 0 placed_shape σ' ∧
    same_read BaseShapeElement.ph_orient 0 placed_shape σ' ∧
    same_read BaseShapeElement.ph_sz 0 placed_shape σ' ∧
    same_read BaseShapeElement.ph_idx 0 placed_shape σ'.
Proof.
  apply (geometry_setters_keep_placeholder 0 (VInt 100) placed_shape (Some 6)
           BaseShapeElement.set_x closed_placed_shape).
  - vm_compute. reflexivity.
  - intros e nd He Hnd.
    assert (e ∈ [0; 1]) as He' by exact He.
    apply elem_of_cons in He' as [->|He'];
      [|apply list_elem_of_singleton in He' as ->];
      injection Hnd as <-; apply (bool_decide_unpack _); vm_compute; exact I.
  - do 3 right. left.
Defined.

Lemma placeholder_defaults_witness :
  BaseShapeElement.ph_type 0 Sample.empty_xfrm_shape
    = Ok (Some (VEnum "PP_PLACEHOLDER" "OBJECT"), Sample.empty_xfrm_shape) ∧
  BaseShapeElement.ph_orient 0 Sample.empty_xfrm_shape
    = Ok (Some (VEnum "ST_Direction" "HORZ"), Sample.empty_xfrm_shape) ∧
  BaseShapeElement.ph_sz 0 Sample.empty_xfrm_shape
    = Ok (Some (VEnum "ST_PlaceholderSize" "FULL"), Sample.empty_xfrm_shape).
Proof.
  destruct (placeholder_defaults 0 7 Sample.empty_xfrm_shape
              ltac:(vm_compute; reflexivity)) as (Htype & Horient & Hsz).
  split; [apply Htype; vm_compute; reflexivity|].
  split; [apply Horient; vm_compute; reflexivity|].
  apply Hsz; vm_compute; reflexivity.
Defined.

Lemma has_ph_elm_guards_accessors_witness :
  (false = false ↔ BaseShapeElement.ph_idx 0 Sample.bare_shape
                     = Raise (ValueError "not a placeholder shape")) ∧
  (true = false ↔ BaseShapeElement.ph_idx 0 placed_shape
                    = Raise (ValueError "not a placeholder shape")).
Proof.
  split.
  - apply (has_ph_elm_guards_accessors 0 Sample.bare_shape false).
    vm_compute. reflexivity.
  - apply (has_ph_elm_guards_accessors 0 placed_shape true).
    vm_compute. reflexivity.
Defined.

Lemma set_prstDash_val_changes_dash_only_witness :
  ∃ σ' prstDash cs',
    CT_LineProperties.set_prstDash_val 11 (VEnum "MSO_LINE_DASH_STYLE" "dash")
      placed_shape = Ok (tt, σ') ∧
    (∀ e, e ≠ 11 → e ≠ prstDash → σ' !! e = placed_shape !! e) ∧
    σ' !! 11 = Some (Node "a:ln" (<["w" := "12700"]> ∅) cs') ∧
    match placed_shape !! prstDash with
    | Some nd0 =>
        CT_LineProperties.prstDash 11 placed_shape = Ok (Some prstDash, placed_shape) ∧
        cs' = List.filter (λ c, negb (has_tag placed_shape ["a:custDash"] c)) [12; 13] ∧
        σ' !! prstDash
          = Some (with_attrib nd0
                    (attr_write prstDash_val_attr (VEnum "MSO_LINE_DASH_STYLE" "dash")
                       (attrib nd0)))
    | None =>
        CT_LineProperties.prstDash 11 placed_shape = Ok (None, placed_shape) ∧
        prstDash = length placed_shape ∧
        placed_before_first
          (has_tag placed_shape (successors CT_LineProperties.prstDash_slot)) prstDash
          (List.filter (λ c, negb (has_tag placed_shape ["a:custDash"] c)) [12; 13])
          cs' ∧
        σ' !! prstDash
          = Some (Node "a:prstDash"
                    (attr_write prstDash_val_attr (VEnum "MSO_LINE_DASH_STYLE" "dash")
                       ∅) [])
    end ∧
    value_of (CT_LineProperties.eg_fillProperties 11 σ')
      = value_of (CT_LineProperties.eg_fillProperties 11 placed_shape) ∧
    value_of (attr_get CT_LineProperties.w 11 σ')
      = value_of (attr_get CT_LineProperties.w 11 placed_shape) ∧
    (schema_ordered CT_LineProperties._tag_seq (child_tags placed_shape 11) →
     schema_ordered CT_LineProperties._tag_seq (child_tags σ' 11)).
Proof.
  exact (set_prstDash_val_changes_dash_only 11 (VEnum "MSO_LINE_DASH_STYLE" "dash")
           placed_shape (Node "a:ln" (<["w" := "12700"]> ∅) [12; 13])
           closed_placed_shape eq_refl eq_refl).
Defined.

Example set_prstDash_val_on_placed_shape :
  match CT_LineProperties.set_prstDash_val 11 (VEnum "MSO_LINE_DASH_STYLE" "dash")
          placed_shape with
  | Ok (_, σ') =>
      Some (child_tags σ' 11, value_of (attr_get CT_LineProperties.w 11 σ'),
            value_of (CT_LineProperties.eg_fillProperties 11 σ'))
  | Raise _ => None
  end = Some (["a:solidFill"; "a:prstDash"], Ok (Some (VInt 12700)), Ok (Some 12)).
Proof. vm_compute. reflexivity. Qed.

Lemma set_prstDash_val_idempotent_witness :
  ∃ σ', CT_LineProperties.set_prstDash_val 0 (VEnum "MSO_LINE_DASH_STYLE" "dash")
          Sample.dashed_line = Ok (tt, σ') ∧
    CT_LineProperties.set_prstDash_val 0 (VEnum "MSO_LINE_DASH_STYLE" "dash") σ'
      = Ok (tt, σ').
Proof.
  apply (set_prstDash_val_idempotent 0 (VEnum "MSO_LINE_DASH_STYLE" "dash")
           Sample.dashed_line).
  - apply closedb_closed. reflexivity.
  - by eexists.
Defined.

Example spPr_xpath_reads :
  (@CT_ShapeProperties.x decimal_Emu 5 placed_shape,
   @CT_ShapeProperties.cy decimal_Emu 5 placed_shape,
   @CT_ShapeProperties.x decimal_Emu 5 Sample.ext_only_shape,
   @CT_ShapeProperties.cx decimal_Emu 5 Sample.bare_shape)
  = (Ok (Some (VInt 10), placed_shape), Ok (Some (VInt 400), placed_shape),
     Ok (None, Sample.ext_only_shape), Ok (None, Sample.bare_shape)).
Proof. vm_compute. reflexivity. Qed.

Lemma shape_properties_readers_agree_witness :
  (@CT_ShapeProperties.x decimal_Emu 5 Sample.bare_shape = Ok (None, Sample.bare_shape) ∧
   @CT_ShapeProperties.y decimal_Emu 5 Sample.bare_shape = Ok (None, Sample.bare_shape) ∧
   @CT_ShapeProperties.cx decimal_Emu 5 Sample.bare_shape = Ok (None, Sample.bare_shape) ∧
   @CT_ShapeProperties.cy decimal_Emu 5 Sample.bare_shape = Ok (None, Sample.bare_shape)) ∧
  (@CT_ShapeProperties.x decimal_Emu 5 placed_shape = Ok (Some (VInt 10), placed_shape) ∧
   CT_Transform2D.x 6 placed_shape = Ok (Some (VInt 10), placed_shape)) ∧
  (@CT_ShapeProperties.cy decimal_Emu 5 placed_shape = Ok (Some (VInt 400), placed_shape) ∧
   CT_Transform2D.cy 6 placed_shape = Ok (Some (VInt 400), placed_shape)).
Proof.
  split; [|split].
  - apply (proj1 (@shape_properties_readers_agree Plain.collaborators decimal_Emu
                    5 Sample.bare_shape)).
    vm_compute. reflexivity.
  - apply (proj1 (proj1 (proj2 (@shape_properties_readers_agree Plain.collaborators
                                  decimal_Emu 5 placed_shape)) 6 7 "10"
                    ltac:(vm_compute; reflexivity) ltac:(vm_compute; reflexivity))).
    vm_compute. reflexivity.
  - apply (proj2 (proj2 (proj2 (@shape_properties_readers_agree Plain.collaborators
                                  decimal_Emu 5 placed_shape)) 6 8 "400"
                    ltac:(vm_compute; reflexivity) ltac:(vm_compute; reflexivity))).
    vm_compute. reflexivity.
Defined.

Lemma ph_is_the_marker_of_nvPr_witness :
  BaseShapeElement.ph 0 placed_shape = Ok (Some 10, placed_shape) ∧
  BaseShapeElement.ph 0 Sample.bare_shape = Ok (None, Sample.bare_shape) ∧
  BaseShapeElement.ph 0 [Node "p:sp" ∅ []] = Ok (None, [Node "p:sp" ∅ []]).
Proof.
  split; [|split].
  - apply (proj1 (proj2 (proj2 (ph_is_the_marker_of_nvPr 0 placed_shape _ eq_refl)
                           1 eq_refl) 4 ltac:(vm_compute; reflexivity))).
    vm_compute. reflexivity.
  - apply (proj2 (proj2 (proj2 (ph_is_the_marker_of_nvPr 0 Sample.bare_shape _ eq_refl)
                           1 eq_refl) 4 ltac:(vm_compute; reflexivity))).
    + vm_compute. reflexivity.
    + vm_compute. lia.
  - apply (proj1 (ph_is_the_marker_of_nvPr 0 [Node "p:sp" ∅ []] _ eq_refl)).
    reflexivity.
Defined.

Lemma get_or_add_xfrm_returns_the_xfrm_witness :
  ∃ xfrm σ',
    BaseShapeElement.get_or_add_xfrm 0 Sample.bare_shape = Ok (xfrm, σ') ∧
    BaseShapeElement.xfrm 0 σ' = Ok (Some xfrm, σ') ∧
    BaseShapeElement.get_or_add_xfrm 0 σ' = Ok (xfrm, σ') ∧
    length Sample.bare_shape ≤ xfrm ∧ σ' !! xfrm = Some (Node "a:xfrm" ∅ []).
Proof.
  apply (get_or_add_xfrm_returns_the_xfrm 0 Sample.bare_shape None).
  - apply closedb_closed. reflexivity.
  - vm_compute. reflexivity.
Defined.

Lemma geometry_needs_spPr_witness :
  BaseShapeElement.flipH 0 [Node "p:sp" ∅ [1]; Node "p:txBody" ∅ []]
    = Raise (InvalidXmlError "p:spPr") ∧
  BaseShapeElement.set_x 0 (VInt 1) [Node "p:sp" ∅ [1]; Node "p:txBody" ∅ []]
    = Raise (InvalidXmlError "p:spPr").
Proof.
  destruct (geometry_needs_spPr 0 (VInt 1) [Node "p:sp" ∅ [1]; Node "p:txBody" ∅ []]
              ltac:(vm_compute; reflexivity))
    as (_ & _ & _ & HflipH & _ & Hset).
  split; [exact HflipH|]. apply Hset. do 3 right. left.
Defined.

Lemma position_and_size_set_together_witness :
  ∃ σ', (BaseShapeElement.set_x 0 (VInt 1);; BaseShapeElement.set_y 0 (VInt 2);;
         BaseShapeElement.set_cx 0 (VInt 3);; BaseShapeElement.set_cy 0 (VInt 4))
          Sample.bare_shape = Ok (tt, σ') ∧
    BaseShapeElement.x 0 σ' = Ok (Some (VInt 1), σ') ∧
    BaseShapeElement.y 0 σ' = Ok (Some (VInt 2), σ') ∧
    BaseShapeElement.cx 0 σ' = Ok (Some (VInt 3), σ') ∧
    BaseShapeElement.cy 0 σ' = Ok (Some (VInt 4), σ').
Proof.
  apply (position_and_size_set_together 0 (VInt 1) (VInt 2) (VInt 3) (VInt 4)
           Sample.bare_shape None).
  - apply closedb_closed. reflexivity.
  - vm_compute. reflexivity.
  - vm_compute. reflexivity.
  - vm_compute. reflexivity.
  - vm_compute. reflexivity.
  - vm_compute. reflexivity.
Defined.

Lemma rot_is_never_None_witness :
  (Sample.ext_only_shape = Sample.ext_only_shape ∧
   ∃ v o, Some (VFloat (Degrees.Z_to_float 90)) = Some v ∧
     BaseShapeElement.xfrm 0 Sample.ext_only_shape = Ok (o, Sample.ext_only_shape) ∧
     match o with
     | None => v = VFloat PrimFloat.zero
     | Some xfrm =>
         attr_get (@CT_Transform2D.rot Degrees.collaborators) xfrm
           Sample.ext_only_shape = Ok (Some v, Sample.ext_only_shape)
     end) ∧
  (Sample.bare_shape = Sample.bare_shape ∧
   ∃ v o, Some (VFloat PrimFloat.zero) = Some v ∧
     BaseShapeElement.xfrm 0 Sample.bare_shape = Ok (o, Sample.bare_shape) ∧
     match o with
     | None => v = VFloat PrimFloat.zero
     | Some xfrm =>
         attr_get CT_Transform2D.rot xfrm Sample.bare_shape
           = Ok (Some v, Sample.bare_shape)
     end).
Proof.
  split.
  - apply (@rot_is_never_None Degrees.collaborators 0 Sample.ext_only_shape).
    vm_compute. reflexivity.
  - apply (rot_is_never_None 0 Sample.bare_shape).
    vm_compute. reflexivity.
Defined.

End examples.
